(** * Bubulle: line-anchored notes for an editor

    A shallow embedding of the note store ([services/NotesStorage.ts]),
    the file helpers ([utils/fileUtils.ts]), the text helpers
    ([utils/textUtils.ts]), the decorations
    ([services/DecorationManager.ts]), the click handler
    ([managers/ClickHandler.ts]), the script of the note editor and the
    grouping of the list of notes ([webview/WebviewManager.ts]) and the
    question before a delete ([managers/NotesManager.ts]), followed by
    the properties of the design document that are settled against them
    (Parts IV and V) and by further properties of the code (Parts VI
    and VII).

    Conventions.
    - A JavaScript string is a [string]: the sequence of its code units
      (those below 256), [String.length] being [.length].
    - A JavaScript [number] that the program uses as a line, a column, a
      width or an epoch time is a [Z].
    - The disk, the clock and the messages shown to the user form a
      [World] that every operation threads explicitly; an operation that
      can throw returns a [Result], and [try]/[catch] is [try_catch].
      Paths are names: a file is not tied to the directory that holds
      it, and a write fails on a read-only disk or on a name that is a
      directory.  A write that Node refuses because of what lies above
      the path is therefore not refused by [Fs]; what is stated of a
      write of the notes file that succeeds is stated for a disk that
      has the directory of the notes file ([DiskOk]).
    - The functions of Node and of the editor that the program calls
      ([path.resolve], [JSON.parse], ...) are the fields of a [Host];
      the few facts the proofs need about them are [HostLaws] and
      [CollationLaws].  What [fileUtils.ts] and the managers ask of
      [os], of [path] and of the settings is a [Platform], and so is
      the recursive [mkdirSync] of [getNotesFilePath].
    - The store is taken once the path of its notes file is set: the
      field [notesFilePath] of the host is [this.notesFilePath].  What
      the first use of the path does, which may make a directory, is
      [FileUtils.getNotesFilePath].
    - Sums and decimal texts of numbers are those of [Z]; a statement
      that adds or prints says for which numbers JavaScript agrees.
    - A JavaScript object used as a map is a [gmap]; the members that
      every object inherits are [Js.inheritedText].
    - [console.log] and its kin are left out. *)

From Stdlib Require Import ZArith Lia Ascii Sorted OrdersEx.
From stdpp Require Import base option list gmap strings pretty.

#[local] Set Warnings "-register-all".
#[local] Open Scope Z_scope.

(* ================================================================== *)
(** * Part I. The program *)
(* ================================================================== *)

(** ** JavaScript strings *)

Module Js.

(** [s.length] *)
Definition len (s : string) : Z := Z.of_nat (String.length s).

(** Truthiness of a string: [""] is the only falsy one. *)
Definition truthy (s : string) : bool :=
  match s with EmptyString => false | String _ _ => true end.

(** White space and line terminators removed by [String.prototype.trim],
    among the code units below 256: TAB, LF, VT, FF, CR, SP, NBSP. *)
Definition is_white (c : ascii) : bool :=
  Ascii.is_space c || bool_decide (c = Ascii.ascii_of_nat 160).

Fixpoint trimStart (s : string) : string :=
  match s with
  | EmptyString => EmptyString
  | String c s' => if is_white c then trimStart s' else s
  end.

Fixpoint trimEnd (s : string) : string :=
  match s with
  | EmptyString => EmptyString
  | String c s' =>
      match trimEnd s' with
      | EmptyString => if is_white c then EmptyString else String c EmptyString
      | r => String c r
      end
  end.

(** [s.trim()] *)
Definition trim (s : string) : string := trimEnd (trimStart s).

(** [s.split(sep)] for a one-character separator: never the empty
    list, [''.split(' ')] is [['']]. *)
Fixpoint split (sep : ascii) (s : string) : list string :=
  match s with
  | EmptyString => [EmptyString]
  | String c s' =>
      if bool_decide (c = sep) then EmptyString :: split sep s'
      else match split sep s' with
           | w :: ws => String c w :: ws
           | [] => [String c EmptyString]
           end
  end.

(** [xs.join(sep)] *)
Fixpoint join (sep : string) (xs : list string) : string :=
  match xs with
  | [] => EmptyString
  | [x] => x
  | x :: rest => x +:+ sep +:+ join sep rest
  end.

(** [s.replace(/\n/g, by)] *)
Fixpoint replaceNewlines (by_ : string) (s : string) : string :=
  match s with
  | EmptyString => EmptyString
  | String c s' =>
      if bool_decide (c = Ascii.ascii_of_nat 10)
      then by_ +:+ replaceNewlines by_ s'
      else String c (replaceNewlines by_ s')
  end.

(** [s.replace(/c/g, by)] for a pattern that is the one character [c]
    and a replacement without [$]. *)
Fixpoint replaceAll (c : ascii) (by_ : string) (s : string) : string :=
  match s with
  | EmptyString => EmptyString
  | String x s' =>
      if bool_decide (x = c) then by_ +:+ replaceAll c by_ s'
      else String x (replaceAll c by_ s')
  end.

(** An index as [substring] reads it: below 0 it counts as 0, beyond
    the length as the length. *)
Definition clampIndex (s : string) (i : Z) : nat :=
  Z.to_nat (Z.min (Z.max i 0) (len s)).

(** [s.substring(start, end)]: the two indices are clamped, and swapped
    when the first is the larger. *)
Definition substring (s : string) (start end_ : Z) : string :=
  let a := clampIndex s start in
  let b := clampIndex s end_ in
  String.substring (Nat.min a b) (Nat.max a b - Nat.min a b) s.

(** [s.startsWith(prefix)] *)
Fixpoint startsWith (prefix s : string) : bool :=
  match prefix, s with
  | EmptyString, _ => true
  | String a prefix', String b s' => bool_decide (a = b) && startsWith prefix' s'
  | String _ _, EmptyString => false
  end.

(** [\w] in a pattern without flags: a letter of the ASCII alphabet, a
    digit or the underscore. *)
Definition isWordChar (c : ascii) : bool :=
  let n := N_of_ascii c in
  ((48 <=? n) && (n <=? 57) || (65 <=? n) && (n <=? 90)
   || (97 <=? n) && (n <=? 122) || (n =? 95))%N.

(** The double quote and the line feed, as one-character strings. *)
Definition quote : string := String (Ascii.ascii_of_nat 34) EmptyString.
Definition lineFeed : string := String (Ascii.ascii_of_nat 10) EmptyString.

(** [Number.MAX_SAFE_INTEGER] and [Number.isSafeInteger] on an integer:
    on the safe integers the sum of JavaScript is the sum of [Z], as
    long as the result is at most [2^53] in size, and [toString()]
    writes the decimal digits. *)
Definition MAX_SAFE_INTEGER : Z := 9007199254740991.

Definition isSafeInteger (n : Z) : bool := Z.abs n <=? MAX_SAFE_INTEGER.

(** A value of type [string | number]. *)
Inductive Scalar : Type :=
  | SStr (s : string)
  | SNum (n : Z).

(** [v.toString()]; for a number, the decimal digits, which is what
    [Number.prototype.toString] writes of an integer that is at most
    [2^53] in size. *)
Definition Scalar_toString (v : Scalar) : string :=
  match v with
  | SStr s => s
  | SNum n => pretty n
  end.

(** The members every object inherits from [Object.prototype], each
    with the text its [toString()] gives: reading one of these keys on
    an object that has no property of that name of its own gives a
    function (the prototype itself for [__proto__]), not [undefined]. *)
Definition inheritedMethods : list string :=
  [ "hasOwnProperty"; "isPrototypeOf"; "propertyIsEnumerable";
    "toLocaleString"; "toString"; "valueOf";
    "__defineGetter__"; "__defineSetter__";
    "__lookupGetter__"; "__lookupSetter__" ].

Definition inheritedText (key : string) : option string :=
  if bool_decide (key = "constructor")
  then Some "function Object() { [native code] }"
  else if bool_decide (key = "__proto__")
  then Some "[object Object]"
  else if bool_decide (key ∈ inheritedMethods)
  then Some ("function " +:+ key +:+ "() { [native code] }")
  else None.

(** [obj[key]?.toString()] for an object used as a record of scalars:
    the property of its own, else the inherited member; [None] is
    [undefined]. *)
Definition propertyText (obj : gmap string Scalar) (key : string)
  : option string :=
  match obj !! key with
  | Some v => Some (Scalar_toString v)
  | None => inheritedText key
  end.

End Js.

(** ** constants.ts *)

Module DEFAULT_CONFIG.
Definition MAX_NOTE_LENGTH : Z := 1000.
Definition CLICK_DEBOUNCE_TIME : Z := 100.
Definition DECORATION_UPDATE_DELAY : Z := 200.
Definition MAX_LINE_LENGTH_DISPLAY : Z := 60.
Definition TRUNCATE_PREVIEW_LENGTH : Z := 50.
Definition NOTES_FILE : string := ".bubulle-notes.json".
End DEFAULT_CONFIG.

Module UI_STRINGS.
Definition SAVE_ERROR : string := "Erreur lors de la sauvegarde des notes".
Definition LOAD_ERROR : string := "Erreur lors du chargement des notes".
Definition CORRUPTED_FILE : string := "Fichier de notes corrompu (JSON invalide)".
Definition DELETE_CONFIRM : string :=
  "Supprimer la note de {fileName} (Ligne {line}) ?" +:+ Js.lineFeed +:+
  Js.lineFeed +:+ Js.quote +:+ "{text}" +:+ Js.quote.
Definition EMPTY_NOTE : string := "La note ne peut pas être vide".
Definition NOTE_TOO_LONG : string :=
  "La note ne peut pas dépasser 1000 caractères".
End UI_STRINGS.

(** ** utils/textUtils.ts *)

Module TextUtils.

(** The loop state of [formatTextForDisplay]: the array [lines] and the
    string [currentLine]. *)
Definition WrapState : Type := list string * string.

(** [if (currentLine) { lines.push(currentLine); }] *)
Definition flush (lines : list string) (currentLine : string) : list string :=
  if Js.truthy currentLine then lines ++ [currentLine] else lines.

(** One turn of [for (const word of words)]. *)
Definition wrapStep (maxLineLength : Z) (st : WrapState) (word : string)
  : WrapState :=
  let '(lines, currentLine) := st in
  if Js.len currentLine + Js.len word + 1 <=? maxLineLength
  then (lines,
        currentLine +:+ (if Js.truthy currentLine then " " else "") +:+ word)
  else (flush lines currentLine, word).

(** The array [lines] as it stands when [lines.join] is reached. *)
Definition wrapLines (text : string) (maxLineLength : Z) : list string :=
  let words := Js.split " " text in
  let '(lines, currentLine) :=
    fold_left (wrapStep maxLineLength) words ([], EmptyString) in
  flush lines currentLine.

Definition formatTextForDisplay (text : string) (maxLineLength : Z) : string :=
  if negb (Js.truthy text) then EmptyString
  else Js.join (String (Ascii.ascii_of_nat 10) EmptyString)
         (wrapLines text maxLineLength).

(** The call with the default width. *)
Definition formatTextForDisplay_default (text : string) : string :=
  formatTextForDisplay text DEFAULT_CONFIG.MAX_LINE_LENGTH_DISPLAY.

Definition truncateText (text : string) (maxLength : Z) : string :=
  if Js.len text <=? maxLength then text
  else Js.substring text 0 maxLength +:+ "...".

(** The call with the default length. *)
Definition truncateText_default (text : string) : string :=
  truncateText text DEFAULT_CONFIG.TRUNCATE_PREVIEW_LENGTH.

Definition escapeHtml (text : string) : string :=
  Js.replaceAll "'" "&#x27;"
    (Js.replaceAll (Ascii.ascii_of_nat 34) "&quot;"
       (Js.replaceAll ">" "&gt;"
          (Js.replaceAll "<" "&lt;"
             (Js.replaceAll "&" "&amp;" text)))).

(** The longest run of word characters at the front of [s], and what
    follows it. *)
Fixpoint spanWord (s : string) : string * string :=
  match s with
  | EmptyString => (EmptyString, EmptyString)
  | String c s' =>
      if Js.isWordChar c
      then let '(word, rest) := spanWord s' in (String c word, rest)
      else (EmptyString, s)
  end.

(** The pattern [/\{(\w+)\}/] tried at a [{], [rest] being what follows
    the brace: the key it captures, when it matches. *)
Definition placeholderKey (rest : string) : option string :=
  match spanWord rest with
  | (String k key, String "}" _) => Some (String k key)
  | _ => None
  end.

(** The scan of [template.replace(/\{(\w+)\}/g, callback)], from the
    left: where the pattern matches, the result of the callback is
    written and the scan resumes behind the match; any other character
    is copied.  [skip] counts the characters of a match that are still
    to be passed. *)
Fixpoint formatString_scan (variables : gmap string Js.Scalar) (skip : nat)
    (template : string) : string :=
  match template with
  | EmptyString => EmptyString
  | String c rest =>
      match skip with
      | S skip' => formatString_scan variables skip' rest
      | O =>
          match (if bool_decide (c = "{"%char) then placeholderKey rest
                 else None) with
          | Some key =>
              let match_ := "{" +:+ key +:+ "}" in
              let shown := default "" (Js.propertyText variables key) in
              (if Js.truthy shown then shown else match_)
              +:+ formatString_scan variables (S (String.length key)) rest
          | None => String c (formatString_scan variables O rest)
          end
      end
  end.

Definition formatString (template : string)
    (variables : gmap string Js.Scalar) : string :=
  formatString_scan variables 0 template.

End TextUtils.

(** ** JSON values

    What [JSON.parse] returns.  Numbers are the integers (the lines the
    editor produces); an object is a finite map from keys to values. *)

Inductive json : Type :=
  | JNull
  | JBool (b : bool)
  | JNum (n : Z)
  | JStr (s : string)
  | JArr (xs : list json)
  | JObj (fields : gmap string json).

Module Json.

(** [v] in a boolean position ([data && ...], [note && ...]). *)
Definition truthy (v : json) : bool :=
  match v with
  | JNull => false
  | JBool b => b
  | JNum n => negb (n =? 0)
  | JStr s => Js.truthy s
  | JArr _ | JObj _ => true
  end.

(** [v.k] for the keys the store reads ([notes], [filePath], [line],
    [text], [timestamp]); [None] is [undefined].  None of them is a
    property of a number, a boolean, a string or an array. *)
Definition prop (k : string) (v : json) : option json :=
  match v with
  | JObj fields => fields !! k
  | _ => None
  end.

(** [typeof x === 'string'], [typeof x === 'number'], [Array.isArray(x)] *)
Definition isString (x : option json) : bool :=
  match x with Some (JStr _) => true | _ => false end.
Definition isNumber (x : option json) : bool :=
  match x with Some (JNum _) => true | _ => false end.
Definition isArray (x : option json) : bool :=
  match x with Some (JArr _) => true | _ => false end.

(** The value behind a property once its type has been checked. *)
Definition asString (x : option json) : string :=
  match x with Some (JStr s) => s | _ => EmptyString end.
Definition asNumber (x : option json) : Z :=
  match x with Some (JNum n) => n | _ => 0 end.
Definition asArray (x : option json) : list json :=
  match x with Some (JArr xs) => xs | _ => [] end.

End Json.

(** ** types.ts *)

Record Note : Type := mkNote {
  filePath : string;
  line : Z;
  text : string;
  timestamp : string
}.

Record NotesData : Type := mkNotesData { notes : list Note }.

Record ExtensionConfig : Type := mkExtensionConfig { notesFile : string }.

#[global] Instance Note_eq_dec : EqDecision Note.
Proof. solve_decision. Defined.

(** The object a [Note] is, and the object a [NotesData] is. *)
Definition json_of_Note (n : Note) : json :=
  JObj (<["filePath" := JStr (filePath n)]>
       (<["line" := JNum (line n)]>
       (<["text" := JStr (text n)]>
       (<["timestamp" := JStr (timestamp n)]> ∅)))).

Definition json_of_NotesData (d : NotesData) : json :=
  JObj (<["notes" := JArr (json_of_Note <$> notes d)]> ∅).

(** ** The host: Node.js and the editor

    The library functions the store calls.  [JSON_parse] answers [None]
    where [JSON.parse] throws a [SyntaxError]; [parseDate] answers [None]
    for an invalid date and the [toLocaleString] rendering otherwise;
    [notesFilePath] is the value [getNotesFilePathInternal] caches in
    [this.notesFilePath] (the constructor of [NotesManager] forces it). *)

Class Host : Type := {
  path_resolve : string → string;
  path_dirname : string → string;
  JSON_parse : string → option json;
  JSON_stringify : json → string;
  toISOString : Z → string;
  parseDate : string → option string;
  localeCompare : string → string → Z;
  notesFilePath : string
}.

(** What the proofs use of the host: [path.resolve] returns an absolute
    normalized path, which it leaves alone; the text [JSON.stringify]
    writes for a collection of notes starts and ends with a brace, and
    [JSON.parse] reads it back. *)
Class HostLaws `{Host} : Prop := {
  path_resolve_idem : ∀ p, path_resolve (path_resolve p) = path_resolve p;
  JSON_stringify_trim : ∀ d,
    Js.trim (JSON_stringify (json_of_NotesData d))
    = JSON_stringify (json_of_NotesData d);
  JSON_stringify_truthy : ∀ d,
    Js.truthy (JSON_stringify (json_of_NotesData d)) = true;
  JSON_parse_stringify : ∀ d,
    JSON_parse (JSON_stringify (json_of_NotesData d))
    = Some (json_of_NotesData d)
}.

(** What the proofs use of [localeCompare]: it orders the strings, ties
    allowed. *)
Class CollationLaws `{Host} : Prop := {
  localeCompare_flip : ∀ a b, localeCompare a b < 0 ↔ 0 < localeCompare b a;
  localeCompare_trans : ∀ a b c,
    localeCompare a b ≤ 0 → localeCompare b c ≤ 0 → localeCompare a c ≤ 0
}.

(** ** The world: disk, clock, messages *)

Inductive Message : Type :=
  | WarningMessage (s : string)
  | ErrorMessage (s : string).

(** [files] holds the regular files with their contents, [dirs] the
    directories; on a [readonly] disk every write throws; [now] is the
    clock in epoch milliseconds; [shown] the messages of
    [vscode.window.show*Message], the latest first. *)
Record World : Type := mkWorld {
  files : gmap string string;
  dirs : gset string;
  readonly : bool;
  now : Z;
  shown : list Message
}.

Inductive Error : Type :=
  | SyntaxError
  | FsError (code : string)
  | PlainError (msg : string).

Definition Error_toString (e : Error) : string :=
  match e with
  | SyntaxError => "SyntaxError"
  | FsError code => "Error: " +:+ code
  | PlainError msg => "Error: " +:+ msg
  end.

Inductive Result (A : Type) : Type :=
  | Ok (a : A)
  | Throw (e : Error).
Arguments Ok {A} a.
Arguments Throw {A} e.

(** A computation on the world that returns or throws; what it did to
    the world before throwing stays done. *)
Definition M (A : Type) : Type := World → Result A * World.

Definition ret {A} (a : A) : M A := λ w, (Ok a, w).

Definition throw {A} (e : Error) : M A := λ w, (Throw e, w).

Definition bind {A B} (m : M A) (k : A → M B) : M B :=
  λ w, match m w with
       | (Ok a, w') => k a w'
       | (Throw e, w') => (Throw e, w')
       end.

(** [try { body } catch (error) { handler }] *)
Definition try_catch {A} (body : M A) (handler : Error → M A) : M A :=
  λ w, match body w with
       | (Ok a, w') => (Ok a, w')
       | (Throw e, w') => handler e w'
       end.

Notation "'let*' x ':=' m 'in' k" := (bind m (λ x, k))
  (at level 10, x pattern, m at level 100, k at level 200).
Notation "m ';;' k" := (bind m (λ _, k))
  (at level 100, k at level 200, right associativity).

Definition read {A} (f : World → A) : M A := λ w, (Ok (f w), w).

Definition showWarningMessage (s : string) : M unit :=
  λ w, (Ok tt, mkWorld (files w) (dirs w) (readonly w) (now w)
                 (WarningMessage s :: shown w)).

Definition showErrorMessage (s : string) : M unit :=
  λ w, (Ok tt, mkWorld (files w) (dirs w) (readonly w) (now w)
                 (ErrorMessage s :: shown w)).

(** ** The platform

    What [fileUtils.ts] and the managers ask of Node's [os] and [path]
    and of the settings of the editor: [config_notesFile] is
    [vscode.workspace.getConfiguration('bubulle').get('notesFile')],
    [None] for [undefined].  [mkdirSync_recursive dir] is
    [fs.mkdirSync(dir, { recursive: true })] on a path that the program
    has built with [path.join]: whether it makes the directory or
    throws depends on what lies above [dir] (a regular file there makes
    it fail), which the world does not record, so it is the platform's
    to say. *)
Class Platform : Type := {
  os_homedir : string;
  path_join : list string → string;
  path_basename : string → string;
  config_notesFile : option string;
  mkdirSync_recursive : string → M unit
}.

(** ** Node's [fs] *)

Module Fs.

Definition set_files (fs : gmap string string) (w : World) : World :=
  mkWorld fs (dirs w) (readonly w) (now w) (shown w).

Definition set_dirs (ds : gset string) (w : World) : World :=
  mkWorld (files w) ds (readonly w) (now w) (shown w).

Definition existsSync (p : string) : M bool :=
  read (λ w, bool_decide (is_Some (files w !! p)) || bool_decide (p ∈ dirs w)).

Definition readFileSync (p : string) : M string :=
  λ w, match files w !! p with
       | Some content => (Ok content, w)
       | None => (Throw (FsError (if bool_decide (p ∈ dirs w)
                                  then "EISDIR" else "ENOENT")), w)
       end.

Definition writeFileSync (p data : string) : M unit :=
  λ w, if readonly w then (Throw (FsError "EROFS"), w)
       else if bool_decide (p ∈ dirs w) then (Throw (FsError "EISDIR"), w)
       else (Ok tt, set_files (<[p := data]> (files w)) w).

Definition renameSync (src dst : string) : M unit :=
  λ w, if readonly w then (Throw (FsError "EROFS"), w)
       else match files w !! src with
            | None => (Throw (FsError "ENOENT"), w)
            | Some content =>
                if bool_decide (dst ∈ dirs w) then (Throw (FsError "EISDIR"), w)
                else (Ok tt, set_files (<[dst := content]> (delete src (files w))) w)
            end.

(** Without a mode, [copyFileSync] overwrites an existing target. *)
Definition copyFileSync (src dst : string) : M unit :=
  λ w, if readonly w then (Throw (FsError "EROFS"), w)
       else match files w !! src with
            | None => (Throw (FsError (if bool_decide (src ∈ dirs w)
                                       then "EISDIR" else "ENOENT")), w)
            | Some content =>
                if bool_decide (dst ∈ dirs w) then (Throw (FsError "EISDIR"), w)
                else (Ok tt, set_files (<[dst := content]> (files w)) w)
            end.

(** [mkdirSync(dir, { recursive: true })] *)
Definition mkdirSync (dir : string) : M unit :=
  λ w, if readonly w then (Throw (FsError "EROFS"), w)
       else if bool_decide (is_Some (files w !! dir))
            then (Throw (FsError "EEXIST"), w)
            else (Ok tt, set_dirs ({[dir]} ∪ dirs w) w).

End Fs.

(** ** utils/fileUtils.ts *)

Module FileUtils.
Section with_host.
Context `{Host}.

Definition ensureDirectoryExists (filePath : string) : M unit :=
  let dir := path_dirname filePath in
  let* present := Fs.existsSync dir in
  if negb present then Fs.mkdirSync dir else ret tt.

(** [`${filePath}.backup.${Date.now()}`] *)
Definition backupPath (filePath : string) (t : Z) : string :=
  filePath +:+ ".backup." +:+ pretty t.

Definition backupCorruptedFile (filePath : string) : M unit :=
  try_catch
    (let* present := Fs.existsSync filePath in
     if present then
       let* t := read now in
       Fs.copyFileSync filePath (backupPath filePath t)
     else ret tt)
    (λ _, ret tt).

Definition atomicWriteFile (filePath data : string) : M unit :=
  ensureDirectoryExists filePath ;;
  let tempPath := filePath +:+ ".tmp" in
  Fs.writeFileSync tempPath data ;;
  Fs.renameSync tempPath filePath.

(** [string | null] *)
Definition safeReadFile (filePath : string) : M (option string) :=
  try_catch
    (let* present := Fs.existsSync filePath in
     if present then
       let* content := Fs.readFileSync filePath in
       ret (Some (Js.trim content))
     else ret None)
    (λ _, ret None).

End with_host.

Section with_platform.
Context `{Platform}.

Definition getExtensionConfig : ExtensionConfig :=
  {| notesFile :=
       match config_notesFile with
       | Some name => if Js.truthy name then name else DEFAULT_CONFIG.NOTES_FILE
       | None => DEFAULT_CONFIG.NOTES_FILE
       end |}.

Definition possiblePaths : list string :=
  [ path_join [os_homedir; ".vscode"; "extensions"; "Joey-Galligani.bubulle"];
    path_join [os_homedir; ".vscode"; "extensions"; "joey-galligani.bubulle-0.1.0"];
    path_join [os_homedir; ".vscode"; "extensions"; "bubulle"] ].

(** [for (const possiblePath of paths) if (fs.existsSync(possiblePath))
    return possiblePath] *)
Fixpoint firstExisting (paths : list string) : M (option string) :=
  match paths with
  | [] => ret None
  | possiblePath :: others =>
      let* present := Fs.existsSync possiblePath in
      if present then ret (Some possiblePath) else firstExisting others
  end.

Definition getExtensionPath : M string :=
  let* found := firstExisting possiblePaths in
  match found with
  | Some possiblePath => ret possiblePath
  | None =>
      let fallbackPath := default "" (head possiblePaths) in
      ret fallbackPath
  end.

Definition getNotesFilePath : M string :=
  let config := getExtensionConfig in
  let* extensionPath := getExtensionPath in
  let bubulleNotesDir := path_join [extensionPath; "bubulle-notes"] in
  try_catch
    (let* present := Fs.existsSync bubulleNotesDir in
     (if negb present then mkdirSync_recursive bubulleNotesDir else ret tt) ;;
     let notesPath := path_join [bubulleNotesDir; notesFile config] in
     ret notesPath)
    (λ _,
       let notesPath := path_join [os_homedir; notesFile config] in
       ret notesPath).

End with_platform.
End FileUtils.

(** ** services/NotesStorage.ts *)

(** [Array.prototype.sort(compareFn)]: a stable sort; an element moves
    in front of the ones it does not compare greater than. *)
Fixpoint insertBy {A} (cmp : A → A → Z) (x : A) (l : list A) : list A :=
  match l with
  | [] => [x]
  | y :: ys => if cmp x y <=? 0 then x :: y :: ys else y :: insertBy cmp x ys
  end.

Definition sortBy {A} (cmp : A → A → Z) (l : list A) : list A :=
  foldr (insertBy cmp) [] l.

Module NotesStorage.
Section with_host.
Context `{Host}.

(** [data && Array.isArray(data.notes)] *)
Definition isValidNotesData (data : json) : bool :=
  Json.truthy data && Json.isArray (Json.prop "notes" data).

Definition isValidNote (note : json) : bool :=
  Json.truthy note &&
  Json.isString (Json.prop "filePath" note) &&
  Json.isNumber (Json.prop "line" note) &&
  (0 <=? Json.asNumber (Json.prop "line" note)) &&
  Json.isString (Json.prop "text" note) &&
  (0 <? Js.len (Js.trim (Json.asString (Json.prop "text" note)))) &&
  Json.isString (Json.prop "timestamp" note).

(** The object built by the [map] of [sanitizeNotes], read at the type
    [Note]: [filePath] and [text] are overridden, [line] and
    [timestamp] come from the spread.  (A property that is none of
    these four would be copied by the spread too; no function of the
    program reads one.) *)
Definition sanitizeNote (note : json) : Note :=
  {| filePath := path_resolve (Json.asString (Json.prop "filePath" note));
     line := Json.asNumber (Json.prop "line" note);
     text := Js.trim (Json.asString (Json.prop "text" note));
     timestamp := Json.asString (Json.prop "timestamp" note) |}.

Definition sanitizeNotes (notes : list json) : list Note :=
  sanitizeNote <$> filter (λ note, isValidNote note) notes.

Definition backupAndReset : M unit :=
  FileUtils.backupCorruptedFile notesFilePath.

Definition emptyNotes : NotesData := {| notes := [] |}.

Definition loadNotes : M NotesData :=
  try_catch
    (let* data := FileUtils.safeReadFile notesFilePath in
     match data with
     | None | Some EmptyString => ret emptyNotes
     | Some data =>
         let* parsed :=
           match JSON_parse data with
           | Some v => ret v
           | None => throw SyntaxError
           end in
         if negb (isValidNotesData parsed) then
           backupAndReset ;; ret emptyNotes
         else
           ret {| notes := sanitizeNotes (Json.asArray (Json.prop "notes" parsed)) |}
     end)
    (λ error,
       let message := match error with
                      | SyntaxError => UI_STRINGS.CORRUPTED_FILE
                      | _ => UI_STRINGS.LOAD_ERROR
                      end in
       showWarningMessage message ;;
       backupAndReset ;;
       ret emptyNotes).

(** The body of the [try] of [saveNotes]. *)
Definition saveNotes_try (notesData : NotesData) : M unit :=
  let filePath := notesFilePath in
  (if negb (isValidNotesData (json_of_NotesData notesData))
   then throw (PlainError "Invalid notes data structure") else ret tt) ;;
  let jsonData := JSON_stringify (json_of_NotesData notesData) in
  let dir := path_dirname filePath in
  (let* present := Fs.existsSync dir in
   if negb present then Fs.mkdirSync dir else ret tt) ;;
  FileUtils.atomicWriteFile filePath jsonData ;;
  let* written := Fs.existsSync filePath in
  if written then (Fs.readFileSync filePath ;; ret tt) else ret tt.

Definition saveNotes (notesData : NotesData) : M unit :=
  try_catch (saveNotes_try notesData)
    (λ error,
       showErrorMessage (UI_STRINGS.SAVE_ERROR +:+ ": " +:+ Error_toString error)).

(** [path.resolve(note.filePath) === normalizedFilePath && note.line === line] *)
Definition matches (normalizedFilePath : string) (line_ : Z) (note : Note) : Prop :=
  path_resolve (filePath note) = normalizedFilePath ∧ line note = line_.

#[global] Instance matches_dec p l note : Decision (matches p l note).
Proof. unfold matches. apply _. Defined.

Definition getNotesForFile (filePath_ : string) : M (list Note) :=
  let* notesData := loadNotes in
  let normalizedPath := path_resolve filePath_ in
  ret (filter (λ note, path_resolve (filePath note) = normalizedPath)
         (notes notesData)).

(** The collection [addOrUpdateNote] hands to [saveNotes]. *)
Definition upsertInto (loaded : list Note) (newNote : Note) : list Note :=
  match list_find (matches (filePath newNote) (line newNote)) loaded with
  | Some (existingNoteIndex, _) => <[existingNoteIndex := newNote]> loaded
  | None => loaded ++ [newNote]
  end.

Definition addOrUpdateNote (filePath_ : string) (line_ : Z) (text_ : string)
  : M bool :=
  try_catch
    (let* notesData := loadNotes in
     let normalizedFilePath := path_resolve filePath_ in
     let* t := read now in
     let newNote := {| filePath := normalizedFilePath;
                       line := line_;
                       text := Js.trim text_;
                       timestamp := toISOString t |} in
     saveNotes {| notes := upsertInto (notes notesData) newNote |} ;;
     ret true)
    (λ _, ret false).

Definition noteExists (filePath_ : string) (line_ : Z) : M bool :=
  try_catch
    (let* notesData := loadNotes in
     let normalizedFilePath := path_resolve filePath_ in
     ret (bool_decide (Exists (matches normalizedFilePath line_) (notes notesData))))
    (λ _, ret false).

Definition deleteNote (filePath_ : string) (line_ : Z) : M bool :=
  try_catch
    (let* notesData := loadNotes in
     let originalLength := length (notes notesData) in
     let normalizedFilePath := path_resolve filePath_ in
     let remaining :=
       filter (λ note, ¬ matches normalizedFilePath line_ note) (notes notesData) in
     if bool_decide (length remaining = originalLength) then ret false
     else saveNotes {| notes := remaining |} ;; ret true)
    (λ _, ret false).

Definition compareNotes (a b : Note) : Z :=
  let fileCompare := localeCompare (filePath a) (filePath b) in
  if negb (fileCompare =? 0) then fileCompare else line a - line b.

Definition getAllNotesSorted : M (list Note) :=
  let* notesData := loadNotes in
  ret (sortBy compareNotes (notes notesData)).

Definition initializeNotesFile : M unit :=
  try_catch
    (let filePath := notesFilePath in
     let* present := Fs.existsSync filePath in
     if present then (Fs.readFileSync filePath ;; ret tt)
     else
       let emptyNotesData := emptyNotes in
       let jsonData := JSON_stringify (json_of_NotesData emptyNotesData) in
       Fs.writeFileSync filePath jsonData ;;
       let* created := Fs.existsSync filePath in
       if created then (Fs.readFileSync filePath ;; ret tt) else ret tt)
    (λ _, ret tt).

End with_host.
End NotesStorage.

(** ** The editor

    A [vscode.TextEditor] as the two managers see it: the path of its
    document and the document's lines. *)

Record TextEditor : Type := mkTextEditor {
  fsPath : string;
  docLines : list string
}.

Definition lineCount (editor : TextEditor) : Z :=
  Z.of_nat (length (docLines editor)).

(** [vscode.window], as the managers see it: the active editor, if
    any, and the visible editors. *)
Record Window : Type := mkWindow {
  activeTextEditor : option TextEditor;
  visibleTextEditors : list TextEditor
}.

(** [editor.document.lineAt(line).text]; throws outside the document. *)
Definition lineAt (editor : TextEditor) (line_ : Z) : M string :=
  if bool_decide (0 ≤ line_ < lineCount editor) then
    match docLines editor !! Z.to_nat line_ with
    | Some lineText => ret lineText
    | None => throw (PlainError "Illegal value for `line`")
    end
  else throw (PlainError "Illegal value for `line`").

Fixpoint mapM {A B} (f : A → M B) (l : list A) : M (list B) :=
  match l with
  | [] => ret []
  | x :: rest =>
      let* y := f x in
      let* ys := mapM f rest in
      ret (y :: ys)
  end.

(** ** services/DecorationManager.ts *)

Module DecorationManager.

(** A [vscode.DecorationOptions]: the empty range at the end of the
    line and the markdown of the hover. *)
Record DecorationOptions : Type := mkDecoration {
  rangeLine : Z;
  rangeCharacter : Z;
  hoverMessage : string
}.

Section with_host.
Context `{Host}.

Definition filterValidNotes (notes_ : list Note) (editor : TextEditor)
  : list Note :=
  filter (λ note, 0 ≤ line note ∧ line note < lineCount editor) notes_.

Definition dquote : string := String (Ascii.ascii_of_nat 34) EmptyString.
Definition newline : string := String (Ascii.ascii_of_nat 10) EmptyString.

Definition createHoverMessage (note : Note) : string :=
  let formattedDate :=
    match parseDate (timestamp note) with
    | None => "Date inconnue"
    | Some shownDate => shownDate
    end in
  let formattedText := TextUtils.formatTextForDisplay (text note) 60 in
  "🫧" +:+ newline +:+ newline +:+
  "<span style=" +:+ dquote +:+ "color: #0366d6;" +:+ dquote +:+ ">" +:+
  Js.replaceNewlines "<br>" formattedText +:+ "</span>" +:+
  newline +:+ newline +:+ "Ajoutée le " +:+ formattedDate.

Definition createDecorations (notes_ : list Note) (editor : TextEditor)
  : M (list DecorationOptions) :=
  mapM (λ note,
          let hover := createHoverMessage note in
          let* lineText := lineAt editor (line note) in
          let lineLength := Js.len lineText in
          ret {| rangeLine := line note;
                 rangeCharacter := lineLength;
                 hoverMessage := hover |})
       notes_.

(** The argument of [editor.setDecorations], or [None] when the [catch]
    was taken and nothing was set. *)
Definition updateDecorationsForEditor (editor : TextEditor) (filePath_ : string)
  : M (option (list DecorationOptions)) :=
  try_catch
    (let* notes_ := NotesStorage.getNotesForFile filePath_ in
     let validNotes := filterValidNotes notes_ editor in
     let* decorations := createDecorations validNotes editor in
     ret (Some decorations))
    (λ _, ret None).

(** The calls of [editor.setDecorations] made for [editor]: one, with
    its decorations, or none. *)
Definition setDecorationsCalls (editor : TextEditor)
    (set : option (list DecorationOptions))
  : list (TextEditor * list DecorationOptions) :=
  match set with
  | Some decorations => [(editor, decorations)]
  | None => []
  end.

Definition updateDecorationsForActiveEditor (window : Window)
  : M (list (TextEditor * list DecorationOptions)) :=
  match activeTextEditor window with
  | None => ret []
  | Some editor =>
      let filePath_ := fsPath editor in
      let* set := updateDecorationsForEditor editor filePath_ in
      ret (setDecorationsCalls editor set)
  end.

Definition updateDecorationsForFile (window : Window) (filePath_ : string)
  : M (list (TextEditor * list DecorationOptions)) :=
  match activeTextEditor window with
  | None => ret []
  | Some editor =>
      if bool_decide (fsPath editor ≠ filePath_) then ret []
      else
        let* set := updateDecorationsForEditor editor filePath_ in
        ret (setDecorationsCalls editor set)
  end.

(** [targetFilePath] is optional: [None] is [undefined]. *)
Definition updateDecorations (window : Window) (targetFilePath : option string)
  : M (list (TextEditor * list DecorationOptions)) :=
  match targetFilePath with
  | Some target =>
      if Js.truthy target then updateDecorationsForFile window target
      else updateDecorationsForActiveEditor window
  | None => updateDecorationsForActiveEditor window
  end.

Definition updateDecorationsForAllEditors (window : Window)
  : M (list (TextEditor * list DecorationOptions)) :=
  let* calls :=
    mapM (λ editor,
            let filePath_ := fsPath editor in
            let* set := updateDecorationsForEditor editor filePath_ in
            ret (setDecorationsCalls editor set))
         (visibleTextEditors window) in
  ret (concat calls).

End with_host.
End DecorationManager.

(** ** managers/ClickHandler.ts *)

Module ClickHandler.

Inductive TextEditorSelectionChangeKind : Type := Keyboard | Mouse | Command.

Record Selection : Type := mkSelection {
  isEmpty : bool;
  activeLine : Z;
  activeCharacter : Z
}.

(** [selection] is [event.selections[0]]; [kind] may be [undefined]. *)
Record SelectionChangeEvent : Type := mkEvent {
  textEditor : option TextEditor;
  selection : Selection;
  kind : option TextEditorSelectionChangeKind
}.

(** An armed [setTimeout]: its delay and what its callback captured. *)
Record Timeout : Type := mkTimeout {
  delay : Z;
  capturedEditor : TextEditor;
  capturedLine : Z;
  capturedCharacter : Z
}.

(** The two private fields of the class. *)
Record State : Type := mkState {
  clickTimeout : option Timeout;
  lastClickPosition : option (Z * Z)
}.

Definition initial : State :=
  {| clickTimeout := None; lastClickPosition := None |}.

Definition isSamePosition (st : State) (line_ character : Z) : bool :=
  match lastClickPosition st with
  | Some (lastLine, lastCharacter) =>
      bool_decide (lastLine = line_) && bool_decide (lastCharacter = character)
  | None => false
  end.

(** [clearTimeout] of the armed timer, if any, then [setTimeout]: the
    field holds the new timer alone. *)
Definition debounceClick (callback : Timeout) (st : State) : State :=
  {| clickTimeout := Some callback;
     lastClickPosition := lastClickPosition st |}.

Definition isMouse (k : option TextEditorSelectionChangeKind) : bool :=
  match k with Some Mouse => true | _ => false end.

(** The listener given to [onDidChangeTextEditorSelection]. *)
Definition selectionHandler (event : SelectionChangeEvent) (st : State) : State :=
  match textEditor event with
  | None => st
  | Some editor =>
      if negb (isEmpty (selection event)) || negb (isMouse (kind event)) then st
      else
        let line_ := activeLine (selection event) in
        let character := activeCharacter (selection event) in
        if isSamePosition st line_ character then st
        else
          let st1 := {| clickTimeout := clickTimeout st;
                        lastClickPosition := Some (line_, character) |} in
          debounceClick
            {| delay := DEFAULT_CONFIG.CLICK_DEBOUNCE_TIME;
               capturedEditor := editor;
               capturedLine := line_;
               capturedCharacter := character |}
            st1
  end.

Section with_host.
Context `{Host}.

(** The calls of [onNoteClick] made, as [(filePath, line)]. *)
Definition handlePotentialNoteClick
    (editor : TextEditor) (line_ character : Z) : M (list (string * Z)) :=
  try_catch
    (let* lineText := lineAt editor line_ in
     let isNearEndOfLine := bool_decide (Z.max 0 (Js.len lineText - 10) ≤ character) in
     if isNearEndOfLine then
       let filePath_ := fsPath editor in
       let* notes_ := NotesStorage.getNotesForFile filePath_ in
       match list_find (λ n, line n = line_) notes_ with
       | Some _ => ret [(filePath_, line_)]
       | None => ret []
       end
     else ret [])
    (λ _, ret []).

(** The callback of the command [bubulle.clickIcon]: [active] is the
    active editor with the line of its cursor, [argsLine] is
    [args?.line], [None] for [undefined].  The result is the calls of
    [onNoteClick] made. *)
Definition clickCommand (active : option (TextEditor * Z)) (argsLine : option Z)
  : M (list (string * Z)) :=
  match active with
  | None => ret []
  | Some (editor, cursorLine) =>
      let line_ := match argsLine with
                   | Some argLine => argLine
                   | None => cursorLine
                   end in
      let filePath_ := fsPath editor in
      let* notes_ := NotesStorage.getNotesForFile filePath_ in
      match list_find (λ n, line n = line_) notes_ with
      | Some _ => ret [(filePath_, line_)]
      | None => ret []
      end
  end.

(** The armed timer fires: its callback runs, then the field is
    cleared.  Without an armed timer nothing fires. *)
Definition timerFires (st : State) : M (list (string * Z) * State) :=
  match clickTimeout st with
  | None => ret ([], st)
  | Some t =>
      let* calls :=
        handlePotentialNoteClick
          (capturedEditor t) (capturedLine t) (capturedCharacter t) in
      ret (calls, {| clickTimeout := None;
                     lastClickPosition := lastClickPosition st |})
  end.

(** What the event loop delivers to the handler. *)
Inductive Action : Type :=
  | SelectionChanged (event : SelectionChangeEvent)
  | TimerFired.

Definition step (a : Action) (st : State) : M (list (string * Z) * State) :=
  match a with
  | SelectionChanged event => ret ([], selectionHandler event st)
  | TimerFired => timerFires st
  end.

(** A run of the event loop, with the calls of [onNoteClick] in order. *)
Fixpoint run (actions : list Action) (st : State)
  : M (list (string * Z) * State) :=
  match actions with
  | [] => ret ([], st)
  | a :: rest =>
      let* r := step a st in
      let* r' := run rest (snd r) in
      ret (fst r ++ fst r', snd r')
  end.

End with_host.
End ClickHandler.

(** ** webview/WebviewManager.ts *)

Module WebviewManager.

(** What [saveNote()], the script of the note editor, ends in: an
    [alert], or the message [{ command: 'save', text }] posted to the
    extension. *)
Inductive EditorAction : Type :=
  | Alert (message : string)
  | PostSave (text : string).

(** [textareaValue] is [textarea.value]. *)
Definition saveNote (textareaValue : string) : EditorAction :=
  let text_ := Js.trim textareaValue in
  if negb (Js.truthy text_) then Alert UI_STRINGS.EMPTY_NOTE
  else if DEFAULT_CONFIG.MAX_NOTE_LENGTH <? Js.len text_
       then Alert UI_STRINGS.NOTE_TOO_LONG
       else PostSave text_.

(** One turn of the [reduce] of [groupNotesByFile].  [groups[filePath]]
    reads an inherited member where [groups] has no group of that
    name: it is truthy, no group is created, and [push], which it does
    not have, throws a [TypeError]. *)
Definition groupStep (groups : gmap string (list Note)) (note : Note)
  : Result (gmap string (list Note)) :=
  let filePath_ := filePath note in
  match groups !! filePath_ with
  | Some group => Ok (<[filePath_ := group ++ [note]]> groups)
  | None =>
      match Js.inheritedText filePath_ with
      | Some _ =>
          Throw (PlainError "TypeError: groups[filePath].push is not a function")
      | None => Ok (<[filePath_ := [note]]> groups)
      end
  end.

Definition groupNotesByFile (notes_ : list Note)
  : Result (gmap string (list Note)) :=
  foldl (λ acc note,
           match acc with
           | Ok groups => groupStep groups note
           | Throw e => Throw e
           end)
        (Ok ∅) notes_.

End WebviewManager.

(** ** managers/NotesManager.ts *)

Module NotesManager.
Section with_platform.
Context `{Platform}.

(** The message [deleteNote] asks the user to confirm.  [line + 1] and
    its text are those of JavaScript for a line that is a safe integer
    ([Js.isSafeInteger]): beyond, JavaScript rounds the sum and, from
    [1e21], writes an exponent. *)
Definition confirmMessage (note : Note) : string :=
  let fileName :=
    let base := path_basename (filePath note) in
    if Js.truthy base then base else "Fichier inconnu" in
  let truncatedText := TextUtils.truncateText_default (text note) in
  TextUtils.formatString UI_STRINGS.DELETE_CONFIRM
    (<["fileName" := Js.SStr fileName]>
    (<["line" := Js.SNum (line note + 1)]>
    (<["text" := Js.SStr truncatedText]> ∅))).

End with_platform.
End NotesManager.

(** ** A host to run the store on

    One concrete host, for running the definitions above on examples: a
    fixed working directory, the clock printed in decimal for
    [toISOString], code-unit order for [localeCompare], and a codec that
    writes a collection as a brace followed by binary digits and reads
    back what it wrote; [JSON_parse] also knows the few documents of
    [documents], the way [JSON.parse] reads them. *)

Module Sample.

Definition resolve (p : string) : string :=
  match p with
  | String "/" _ => p
  | String "." (String "/" rest) => String "/" ("work/" +:+ rest)
  | _ => String "/" ("work/" +:+ p)
  end.

Fixpoint dirname_go (s : string) : option string :=
  match s with
  | EmptyString => None
  | String c rest =>
      match dirname_go rest with
      | Some d => Some (String c d)
      | None => if bool_decide (c = "/"%char) then Some EmptyString else None
      end
  end.

Definition dirname (p : string) : string :=
  match dirname_go p with
  | Some EmptyString => "/"
  | Some d => d
  | None => "."
  end.

Definition compare (a b : string) : Z :=
  match String.compare a b with Lt => -1 | Eq => 0 | Gt => 1 end.

Definition tuple_of_Note (n : Note) : string * (Z * (string * string)) :=
  (filePath n, (line n, (text n, timestamp n))).

Definition Note_of_tuple (t : string * (Z * (string * string))) : Note :=
  let '(p, (l, (x, ts))) := t in mkNote p l x ts.

Definition Note_of_json (v : json) : Note :=
  {| filePath := Json.asString (Json.prop "filePath" v);
     line := Json.asNumber (Json.prop "line" v);
     text := Json.asString (Json.prop "text" v);
     timestamp := Json.asString (Json.prop "timestamp" v) |}.

Definition tuples_of_json (v : json) : list (string * (Z * (string * string))) :=
  (λ n, tuple_of_Note (Note_of_json n)) <$> Json.asArray (Json.prop "notes" v).

Fixpoint digits_of_pos (p : positive) : string :=
  match p with
  | xH => "}"
  | xO q => String "0" (digits_of_pos q)
  | xI q => String "1" (digits_of_pos q)
  end.

Fixpoint pos_of_digits (s : string) : option positive :=
  match s with
  | String "}" EmptyString => Some xH
  | String "0" rest => xO <$> pos_of_digits rest
  | String "1" rest => xI <$> pos_of_digits rest
  | _ => None
  end.

Definition stringify (v : json) : string :=
  String "{" (digits_of_pos (encode (tuples_of_json v))).

Definition dq : string := String (Ascii.ascii_of_nat 34) EmptyString.

(** [{"notes": "oops"}], [null], [[]] and [{}]. *)
Definition documents : list (string * json) :=
  [ ("{" +:+ dq +:+ "notes" +:+ dq +:+ ": " +:+ dq +:+ "oops" +:+ dq +:+ "}",
     JObj (<["notes" := JStr "oops"]> ∅));
    ("null", JNull);
    ("[]", JArr []);
    ("{}", JObj ∅) ].

Definition lookup_document (s : string) : option json :=
  snd <$> find (λ entry, bool_decide (fst entry = s)) documents.

Definition parse (s : string) : option json :=
  match s with
  | String "{" rest =>
      match pos_of_digits rest ≫= decode with
      | Some tuples =>
          Some (json_of_NotesData {| notes := Note_of_tuple <$> tuples |})
      | None => lookup_document s
      end
  | _ => lookup_document s
  end.

#[global] Instance host : Host := {|
  path_resolve := resolve;
  path_dirname := dirname;
  JSON_parse := parse;
  JSON_stringify := stringify;
  toISOString := λ t, pretty t;
  parseDate := λ s, if Js.truthy s then Some s else None;
  localeCompare := compare;
  notesFilePath := "/ext/bubulle-notes/.bubulle-notes.json"
|}.

(** The platform of the sample host: paths are joined with a slash,
    and the base name of a path is what follows its last slash. *)
Definition basename (p : string) : string :=
  default "" (last (Js.split "/" p)).

(** The directories above [p], the nearest last: of [/a/b/c], the
    paths [/a] and [/a/b]. *)
Definition ancestors (p : string) : list string :=
  let parts := Js.split "/" p in
  filter (λ a, a ≠ "")
    ((λ n, Js.join "/" (take n parts)) <$> seq 1 (length parts - 1)).

(** A recursive [mkdir]: it fails on a read-only disk and where [dir]
    or a path above it is a regular file, and otherwise makes [dir] and
    what is missing above it. *)
Definition mkdirp (dir : string) : M unit :=
  λ w,
    if bool_decide (dir ∈ dirs w) then (Ok tt, w)
    else if bool_decide (is_Some (files w !! dir))
    then (Throw (FsError "EEXIST"), w)
    else if existsb (λ a, bool_decide (is_Some (files w !! a))) (ancestors dir)
    then (Throw (FsError "ENOTDIR"), w)
    else if readonly w then (Throw (FsError "EROFS"), w)
    else (Ok tt, Fs.set_dirs (list_to_set (ancestors dir) ∪ {[dir]} ∪ dirs w) w).

#[global] Instance platform : Platform := {|
  os_homedir := "/home/dev";
  path_join := Js.join "/";
  path_basename := basename;
  config_notesFile := None;
  mkdirSync_recursive := mkdirp
|}.

(** A writable disk that holds the directory of the notes file and
    nothing else, at time [t]. *)
Definition emptyDisk (t : Z) : World :=
  {| files := ∅;
     dirs := {["/ext/bubulle-notes"]};
     readonly := false;
     now := t;
     shown := [] |}.

(** The same disk with [content] in the notes file. *)
Definition diskWith (content : string) (t : Z) : World :=
  {| files := {[ "/ext/bubulle-notes/.bubulle-notes.json" := content ]};
     dirs := {["/ext/bubulle-notes"]};
     readonly := false;
     now := t;
     shown := [] |}.

End Sample.

(* ================================================================== *)
(** * Part II. The words of the statements *)
(* ================================================================== *)

(** ** Strings and lines *)

(** A string is clean at the front when it is empty or starts with a
    code unit that [trim] keeps. *)
Definition clean_front (s : string) : Prop :=
  match s with
  | EmptyString => True
  | String c _ => Js.is_white c = false
  end.

(** Every code unit of [s] is white space. *)
Fixpoint blank (s : string) : bool :=
  match s with
  | EmptyString => true
  | String c s' => Js.is_white c && blank s'
  end.

(** [s.repeat(n)] for a one-character string. *)
Fixpoint repeatChar (n : nat) (c : ascii) : string :=
  match n with
  | O => EmptyString
  | S n' => String c (repeatChar n' c)
  end.

(** A finished line is within the width, or it is one of the words,
    by itself, and that word is wider than the width. *)
Definition line_ok (maxLineLength : Z) (words : list string) (l : string)
  : Prop :=
  Js.len l ≤ maxLineLength ∨ (l ∈ words ∧ maxLineLength < Js.len l).

(** The loop invariant: the lines pushed so far are fine, and so is
    the current line unless it is still empty. *)
Definition wrap_inv (maxLineLength : Z) (words : list string)
    (st : TextUtils.WrapState) : Prop :=
  Forall (line_ok maxLineLength words) (fst st)
  ∧ (snd st = "" ∨ line_ok maxLineLength words (snd st)).

(** ** Worlds *)

(** The world at another time. *)
Definition tick (t : Z) (w : World) : World :=
  mkWorld (files w) (dirs w) (readonly w) t (shown w).

(** The world with one more warning shown. *)
Definition warned (s : string) (w : World) : World :=
  mkWorld (files w) (dirs w) (readonly w) (now w) (WarningMessage s :: shown w).

(** The world with one more error shown. *)
Definition errored (s : string) (w : World) : World :=
  mkWorld (files w) (dirs w) (readonly w) (now w) (ErrorMessage s :: shown w).

Section vocabulary.
Context `{Host}.

Definition tmpPath : string := notesFilePath +:+ ".tmp".

(** The world after [backupCorruptedFile p]: the copy is made unless
    there is no file to copy, the disk is read-only or the name of the
    backup is a directory. *)
Definition backedUp (p : string) (w : World) : World :=
  match files w !! p with
  | Some content =>
      if readonly w then w
      else if bool_decide (FileUtils.backupPath p (now w) ∈ dirs w) then w
      else Fs.set_files (<[FileUtils.backupPath p (now w) := content]> (files w)) w
  | None => w
  end.

(** What [loadNotes] returns and the world it leaves, by cases on the
    notes file. *)
Definition loadOutcome (w : World) : NotesData * World :=
  match Js.trim <$> files w !! notesFilePath with
  | None | Some EmptyString => (NotesStorage.emptyNotes, w)
  | Some data =>
      match JSON_parse data with
      | None =>
          (NotesStorage.emptyNotes,
           backedUp notesFilePath (warned UI_STRINGS.CORRUPTED_FILE w))
      | Some parsed =>
          if NotesStorage.isValidNotesData parsed
          then ({| notes := NotesStorage.sanitizeNotes
                              (Json.asArray (Json.prop "notes" parsed)) |}, w)
          else (NotesStorage.emptyNotes, backedUp notesFilePath w)
      end
  end.

(** The disk takes the atomic write: it is writable, the directory of
    the notes file is there, and neither the notes file nor its
    temporary sibling is a directory. *)
Definition DiskOk (w : World) : Prop :=
  readonly w = false ∧ path_dirname notesFilePath ∈ dirs w
  ∧ (notesFilePath ∉ dirs w) ∧ (tmpPath ∉ dirs w).

#[global] Instance DiskOk_dec w : Decision (DiskOk w).
Proof. unfold DiskOk. apply _. Defined.

(** The world once [notesData] has been written. *)
Definition saved (notesData : NotesData) (w : World) : World :=
  Fs.set_files
    (<[notesFilePath := JSON_stringify (json_of_NotesData notesData)]>
       (delete tmpPath (files w))) w.

(** The content of the notes file is damaged: it is not blank, and its
    trimmed text does not parse or parses to something that is not
    [{ notes: array }]. *)
Definition damaged (content : string) : Prop :=
  Js.trim content ≠ ""
  ∧ (JSON_parse (Js.trim content) = None
     ∨ ∃ parsed, JSON_parse (Js.trim content) = Some parsed
                 ∧ NotesStorage.isValidNotesData parsed = false).

(** The disk takes the backup made at the time of [w]: it is writable
    and the name of the backup is not a directory. *)
Definition backupPossible (w : World) : Prop :=
  readonly w = false
  ∧ (FileUtils.backupPath notesFilePath (now w) ∉ dirs w).

(** ** Notes and keys *)

(** The note [addOrUpdateNote] builds. *)
Definition newNoteAt (filePath_ : string) (line_ : Z) (text_ : string) (t : Z)
  : Note :=
  {| filePath := path_resolve filePath_;
     line := line_;
     text := Js.trim text_;
     timestamp := toISOString t |}.

(** What [deleteNote] keeps. *)
Definition remaining (filePath_ : string) (line_ : Z) (l : list Note) : list Note :=
  filter (λ note, ¬ NotesStorage.matches (path_resolve filePath_) line_ note) l.

(** A note as [isValidNote] wants it, and the same note as
    [sanitizeNotes] rewrites it. *)
Definition validNote (n : Note) : Prop :=
  0 ≤ line n ∧ 0 < Js.len (Js.trim (text n)).

#[global] Instance validNote_dec n : Decision (validNote n).
Proof. unfold validNote. apply _. Defined.

Definition renormNote (n : Note) : Note :=
  {| filePath := path_resolve (filePath n);
     line := line n;
     text := Js.trim (text n);
     timestamp := timestamp n |}.

Definition renorm (l : list Note) : list Note :=
  renormNote <$> filter validNote l.

(** A note as the store returns it: canonical path, trimmed non-empty
    text, a line that is not negative. *)
Definition normal (n : Note) : Prop :=
  path_resolve (filePath n) = filePath n
  ∧ Js.trim (text n) = text n
  ∧ 0 ≤ line n
  ∧ 0 < Js.len (text n).

(** The pair a note is found by. *)
Definition key (n : Note) : string * Z := (path_resolve (filePath n), line n).

(** The same pair, read off an element of the persisted array. *)
Definition storedKey (note : json) : string * Z :=
  (path_resolve (Json.asString (Json.prop "filePath" note)),
   Json.asNumber (Json.prop "line" note)).

Definition uniqueKeys (l : list Note) : Prop := NoDup (key <$> l).

(** The store holds at most one note for a key: what [loadNotes]
    returns has no two notes with the same canonical path and line. *)
Definition Unique (w : World) : Prop :=
  ∀ d w', NotesStorage.loadNotes w = (Ok d, w') → uniqueKeys (notes d).

(** What can happen to the world: an operation of the store, or
    anything else that leaves the notes file alone (the clock advances,
    messages are dismissed, other files come and go). *)
Inductive StoreStep : World → World → Prop :=
  | step_load w :
      StoreStep w (snd (NotesStorage.loadNotes w))
  | step_upsert w filePath_ line_ text_ :
      StoreStep w (snd (NotesStorage.addOrUpdateNote filePath_ line_ text_ w))
  | step_delete w filePath_ line_ :
      StoreStep w (snd (NotesStorage.deleteNote filePath_ line_ w))
  | step_exists w filePath_ line_ :
      StoreStep w (snd (NotesStorage.noteExists filePath_ line_ w))
  | step_query w filePath_ :
      StoreStep w (snd (NotesStorage.getNotesForFile filePath_ w))
  | step_list w :
      StoreStep w (snd (NotesStorage.getAllNotesSorted w))
  | step_elsewhere w w' :
      files w' !! notesFilePath = files w !! notesFilePath →
      StoreStep w w'.

End vocabulary.

(** ** Clicks *)

(** The event passes the three tests of the listener: it has an editor,
    its selection is a caret, and it comes from the mouse. *)
Definition qualifies (event : ClickHandler.SelectionChangeEvent) : Prop :=
  is_Some (ClickHandler.textEditor event)
  ∧ ClickHandler.isEmpty (ClickHandler.selection event) = true
  ∧ ClickHandler.kind event = Some ClickHandler.Mouse.

Definition position (event : ClickHandler.SelectionChangeEvent) : Z * Z :=
  (ClickHandler.activeLine (ClickHandler.selection event),
   ClickHandler.activeCharacter (ClickHandler.selection event)).

(** The number of armed timers: none or one. *)
Definition armed (st : ClickHandler.State) : nat :=
  match ClickHandler.clickTimeout st with Some _ => 1 | None => 0 end.

(** An action that cannot arm the timer while [last] is the recorded
    position: the timer firing, or a selection event at that position. *)
Definition quiet (last : option (Z * Z)) (a : ClickHandler.Action) : Prop :=
  a = ClickHandler.TimerFired
  ∨ ∃ event, a = ClickHandler.SelectionChanged event
             ∧ last = Some (position event).

(** ** The sample disk *)

(** The notes file of the sample host and a backup of it. *)
Definition sampleNotesFile : string := "/ext/bubulle-notes/.bubulle-notes.json".
Definition sampleBackup5 : string := "/ext/bubulle-notes/.bubulle-notes.json.backup.5".

(** The sample disk after the note [(./a.ts, 4, "fix this")] was added
    at time 5. *)
Definition oneNote : World :=
  snd (NotesStorage.addOrUpdateNote "./a.ts" 4 "fix this" (Sample.emptyDisk 5)).

(** The same disk, mounted read-only. *)
Definition oneNoteReadonly : World :=
  {| files := files oneNote; dirs := dirs oneNote; readonly := true;
     now := 7; shown := [] |}.

(** A document of five lines and a click in it. *)
Definition fiveLines : TextEditor :=
  {| fsPath := "/work/a.ts";
     docLines := ["l0"; "l1"; "l2"; "l3"; "const four = 4;"] |}.

Definition clickAt (line_ character : Z) : ClickHandler.SelectionChangeEvent :=
  {| ClickHandler.textEditor := Some fiveLines;
     ClickHandler.selection :=
       {| ClickHandler.isEmpty := true;
          ClickHandler.activeLine := line_;
          ClickHandler.activeCharacter := character |};
     ClickHandler.kind := Some ClickHandler.Mouse |}.

(** ** Texts *)

(** The character [c] occurs in [s]. *)
Fixpoint occurs (c : ascii) (s : string) : bool :=
  match s with
  | EmptyString => false
  | String x s' => bool_decide (x = c) || occurs c s'
  end.

(** What [escapeHtml] is meant to write for one character: its entity,
    or the character itself when it has none. *)
Definition entity (c : ascii) : string :=
  if bool_decide (c = "&"%char) then "&amp;"
  else if bool_decide (c = "<"%char) then "&lt;"
  else if bool_decide (c = ">"%char) then "&gt;"
  else if bool_decide (c = Ascii.ascii_of_nat 34) then "&quot;"
  else if bool_decide (c = "'"%char) then "&#x27;"
  else String c EmptyString.

(** The text read once from the left, each character replaced by its
    entity. *)
Fixpoint entities (s : string) : string :=
  match s with
  | EmptyString => EmptyString
  | String c s' => entity c +:+ entities s'
  end.

(** Every character of [s] is a word character. *)
Fixpoint wordChars (s : string) : bool :=
  match s with
  | EmptyString => true
  | String c s' => Js.isWordChar c && wordChars s'
  end.

(** What stands for the placeholder of [key] in a formatted string: the
    text of the variable, or the placeholder itself when there is no
    such variable or its text is empty. *)
Definition replacement (variables : gmap string Js.Scalar) (key : string)
  : string :=
  match Js.propertyText variables key with
  | Some (String c shown) => String c shown
  | _ => "{" +:+ key +:+ "}"
  end.

(** A space or a line feed. *)
Definition isSeparator (c : ascii) : bool :=
  bool_decide (c = " "%char) || bool_decide (c = Ascii.ascii_of_nat 10).

(** The text without its spaces and line feeds. *)
Fixpoint inked (s : string) : string :=
  match s with
  | EmptyString => EmptyString
  | String c s' => if isSeparator c then inked s' else String c (inked s')
  end.

(** The same, for the strings of a list, one after the other. *)
Fixpoint inkedAll (l : list string) : string :=
  match l with
  | [] => EmptyString
  | s :: rest => inked s +:+ inkedAll rest
  end.

(** The greedy wrap in the words of the design document, as the lines
    it gives for the words still to come and the line being filled:
    "accumulate words onto the current line while
    [currentLength + wordLength + 1 <= width], else flush and start a
    new line".  A word joins a line that is not empty behind a space,
    and a line is flushed when it is not empty. *)
Fixpoint greedyWrap (width : Z) (currentLine : string) (words : list string)
  : list string :=
  match words with
  | [] => if Js.truthy currentLine then [currentLine] else []
  | word :: rest =>
      if Js.len currentLine + Js.len word + 1 <=? width
      then greedyWrap width
             (currentLine +:+ (if Js.truthy currentLine then " " else "") +:+ word)
             rest
      else (if Js.truthy currentLine then [currentLine] else [])
           ++ greedyWrap width word rest
  end.

(** ** Reads, orders, decorations, groups *)

Section vocabulary_of_reads.
Context `{Host}.

(** Of the files, a read may write the backup of the notes file, named
    after the time of [w], and no other; the notes file is as it was. *)
Definition onlyBackedUp (w w' : World) : Prop :=
  files w' !! notesFilePath = files w !! notesFilePath
  ∧ (∀ q, q ≠ FileUtils.backupPath notesFilePath (now w) →
          files w' !! q = files w !! q).

(** The notes file holds a document of the right shape. *)
Definition sound (w : World) : Prop :=
  ∃ content parsed,
    files w !! notesFilePath = Some content
    ∧ JSON_parse (Js.trim content) = Some parsed
    ∧ NotesStorage.isValidNotesData parsed = true.

(** [a] may stand before [b] in the list of all notes: its file comes
    first, or the file is the same for the collation and its line is
    not the larger. *)
Definition inOrder (a b : Note) : Prop :=
  localeCompare (filePath a) (filePath b) < 0
  ∨ (localeCompare (filePath a) (filePath b) = 0 ∧ line a ≤ line b).

(** [d] decorates [note] in [editor]: it is the empty range at the end
    of the line of the note, with the hover of the note. *)
Definition decorates (editor : TextEditor) (note : Note)
    (d : DecorationManager.DecorationOptions) : Prop :=
  DecorationManager.rangeLine d = line note
  ∧ (∃ lineText, docLines editor !! Z.to_nat (line note) = Some lineText
                 ∧ DecorationManager.rangeCharacter d = Js.len lineText)
  ∧ DecorationManager.hoverMessage d = DecorationManager.createHoverMessage note.

End vocabulary_of_reads.

(** The group of [path] among [notes_]: the notes of that path in their
    order, when there is one. *)
Definition groupsOf (notes_ : list Note) (path : string) : option (list Note) :=
  match filter (λ n, filePath n = path) notes_ with
  | [] => None
  | group => Some group
  end.

(* ================================================================== *)
(** * Part III. Lemmas *)
(* ================================================================== *)

(** ** JavaScript strings *)

Lemma append_cons (c : ascii) (s t : string) :
  String c s +:+ t = String c (s +:+ t).
Proof. reflexivity. Qed.

Lemma append_empty_r (s : string) : s +:+ "" = s.
Proof. induction s as [|c s IH]; [done|]. by rewrite append_cons, IH. Qed.

Lemma len_append (a b : string) : Js.len (a +:+ b) = Js.len a + Js.len b.
Proof.
  unfold Js.len. induction a as [|c a IH]; [done|].
  rewrite append_cons. cbn [String.length]. lia.
Qed.

Lemma truthy_len (s : string) : Js.truthy s = true ↔ 0 < Js.len s.
Proof. destruct s; unfold Js.len; cbn; split; (done || lia). Qed.

Lemma trimEnd_idem (s : string) : Js.trimEnd (Js.trimEnd s) = Js.trimEnd s.
Proof.
  induction s as [|c s IH]; [done|]. cbn.
  destruct (Js.trimEnd s) as [|d r] eqn:E.
  - destruct (Js.is_white c) eqn:W; [done|]. cbn. by rewrite W.
  - cbn. cbn in IH. by rewrite IH.
Qed.

Lemma trimStart_clean (s : string) : clean_front (Js.trimStart s).
Proof.
  induction s as [|c s IH]; [done|]. cbn.
  destruct (Js.is_white c) eqn:W; [done|]. cbn. done.
Qed.

Lemma trimStart_of_clean (s : string) : clean_front s → Js.trimStart s = s.
Proof. destruct s as [|c s]; [done|]. cbn. by intros ->. Qed.

Lemma trimEnd_clean (s : string) : clean_front s → clean_front (Js.trimEnd s).
Proof.
  destruct s as [|c s]; [done|]. cbn. intros W.
  destruct (Js.trimEnd s); by rewrite ?W.
Qed.

Lemma trim_idem (s : string) : Js.trim (Js.trim s) = Js.trim s.
Proof.
  unfold Js.trim.
  rewrite (trimStart_of_clean (Js.trimEnd _)).
  - apply trimEnd_idem.
  - apply trimEnd_clean, trimStart_clean.
Qed.

Lemma trim_blank (s : string) : blank s = true → Js.trim s = "".
Proof.
  unfold Js.trim. induction s as [|c s IH]; [done|]. cbn.
  intros [W B]%andb_true_iff. rewrite W. auto.
Qed.

Lemma trimEnd_empty_blank (s : string) : Js.trimEnd s = "" → blank s = true.
Proof.
  induction s as [|c s IH]; [done|]. cbn.
  destruct (Js.trimEnd s) eqn:E; [|done].
  destruct (Js.is_white c); [|done]. intros _. by rewrite IH.
Qed.

Lemma blank_trim (s : string) : Js.trim s = "" → blank s = true.
Proof.
  unfold Js.trim. induction s as [|c s IH]; [done|]. cbn.
  destruct (Js.is_white c) eqn:W; [auto|].
  intros E. apply trimEnd_empty_blank in E. cbn in E. by rewrite W in E.
Qed.

(** ** textUtils: word wrap *)

Section wrap.
Variable maxLineLength : Z.
Variable words : list string.

Lemma flush_ok lines cur :
  Forall (line_ok maxLineLength words) lines →
  cur = "" ∨ line_ok maxLineLength words cur →
  Forall (line_ok maxLineLength words) (TextUtils.flush lines cur).
Proof.
  intros Hl Hc. unfold TextUtils.flush. destruct (Js.truthy cur) eqn:T; [|done].
  apply Forall_app. split; [done|]. constructor; [|done].
  destruct Hc as [->|Hc]; done.
Qed.

Lemma separator_len cur : Js.len (if Js.truthy cur then " " else "") ≤ 1.
Proof. destruct (Js.truthy cur); unfold Js.len; cbn; lia. Qed.

Lemma wrapStep_inv st word :
  word ∈ words → wrap_inv maxLineLength words st →
  wrap_inv maxLineLength words (TextUtils.wrapStep maxLineLength st word).
Proof.
  intros Hw [Hl Hc]. destruct st as [lines cur]. cbn [fst snd] in *.
  unfold TextUtils.wrapStep.
  destruct (Z.leb_spec (Js.len cur + Js.len word + 1) maxLineLength) as [Hfit|Hno].
  - split; [done|]. cbn [snd]. right. left.
    rewrite !len_append. pose proof (separator_len cur). lia.
  - split; cbn [fst snd].
    + by apply flush_ok.
    + right. destruct (Z.le_gt_cases (Js.len word) maxLineLength); [by left|].
      right. split; [done|lia].
Qed.

Lemma fold_wrapStep_inv ws st :
  (∀ word, word ∈ ws → word ∈ words) → wrap_inv maxLineLength words st →
  wrap_inv maxLineLength words
    (fold_left (TextUtils.wrapStep maxLineLength) ws st).
Proof.
  revert st. induction ws as [|word ws IH]; intros st Hsub Hst; [done|].
  cbn. apply IH.
  - intros x Hx. apply Hsub. by right.
  - apply wrapStep_inv; [|done]. apply Hsub. by left.
Qed.

End wrap.

Lemma wrapLines_ok (text_ : string) (w : Z) :
  Forall (line_ok w (Js.split " " text_)) (TextUtils.wrapLines text_ w).
Proof.
  unfold TextUtils.wrapLines.
  pose proof (fold_wrapStep_inv w (Js.split " " text_) (Js.split " " text_)
                ([], "")) as Hinv.
  destruct (fold_left _ _ _) as [lines cur].
  destruct Hinv as [Hl Hc]; [done| |].
  { split; [constructor|]. by left. }
  by apply flush_ok.
Qed.

Lemma wrapLines_empty (w : Z) : TextUtils.wrapLines "" w = [].
Proof.
  unfold TextUtils.wrapLines. cbn.
  destruct (Z.leb_spec (Js.len "" + Js.len "" + 1) w); reflexivity.
Qed.

Lemma append_assoc (a b c : string) : (a +:+ b) +:+ c = a +:+ (b +:+ c).
Proof. induction a as [|x a IH]; [done|]. by rewrite !append_cons, IH. Qed.

Lemma inked_app (a b : string) : inked (a +:+ b) = inked a +:+ inked b.
Proof.
  induction a as [|c a IH]; [done|]. rewrite append_cons. cbn [inked].
  rewrite IH. by destruct (isSeparator c).
Qed.

Lemma inkedAll_app (a b : list string) : inkedAll (a ++ b) = inkedAll a +:+ inkedAll b.
Proof.
  induction a as [|x a IH]; [done|]. cbn. by rewrite IH, append_assoc.
Qed.

Lemma split_inked (text_ : string) : inkedAll (Js.split " " text_) = inked text_.
Proof.
  induction text_ as [|c s IH]; [done|]. cbn [Js.split].
  case_bool_decide as Hc.
  - subst c. cbn. done.
  - destruct (Js.split " " s) as [|w ws] eqn:E.
    + cbn in *. rewrite <- IH. by destruct (isSeparator c).
    + cbn in *. rewrite <- IH. destruct (isSeparator c); [done|].
      by rewrite append_cons.
Qed.

Lemma join_cons (sep x y : string) (rest : list string) :
  Js.join sep (x :: y :: rest) = x +:+ sep +:+ Js.join sep (y :: rest).
Proof. reflexivity. Qed.

Lemma join_inked (lines : list string) :
  inked (Js.join Js.lineFeed lines) = inkedAll lines.
Proof.
  induction lines as [|x [|y rest] IH]; [done| |].
  - cbn. by rewrite append_empty_r.
  - rewrite join_cons, !inked_app, IH. done.
Qed.

Lemma flush_inked (lines : list string) (cur : string) :
  inkedAll (TextUtils.flush lines cur) = inkedAll lines +:+ inked cur.
Proof.
  unfold TextUtils.flush. destruct cur as [|c cur]; cbn [Js.truthy].
  - by rewrite append_empty_r.
  - rewrite inkedAll_app. cbn. by rewrite append_empty_r.
Qed.

Lemma wrapStep_inked (w : Z) (st : TextUtils.WrapState) (word : string) :
  inkedAll (fst (TextUtils.wrapStep w st word))
  +:+ inked (snd (TextUtils.wrapStep w st word))
  = (inkedAll (fst st) +:+ inked (snd st)) +:+ inked word.
Proof.
  destruct st as [lines cur]. unfold TextUtils.wrapStep.
  destruct (_ <=? _); cbn [fst snd].
  - rewrite !inked_app. rewrite !append_assoc. do 2 f_equal.
    by destruct (Js.truthy cur).
  - by rewrite flush_inked.
Qed.

Lemma fold_wrapStep_inked (w : Z) (words : list string) (st : TextUtils.WrapState) :
  inkedAll (fst (fold_left (TextUtils.wrapStep w) words st))
  +:+ inked (snd (fold_left (TextUtils.wrapStep w) words st))
  = (inkedAll (fst st) +:+ inked (snd st)) +:+ inkedAll words.
Proof.
  revert st. induction words as [|word words IH]; intros st.
  - cbn. by rewrite append_empty_r.
  - cbn [fold_left]. rewrite IH, wrapStep_inked. cbn. by rewrite !append_assoc.
Qed.

Lemma wrapLines_inked (text_ : string) (w : Z) :
  inkedAll (TextUtils.wrapLines text_ w) = inked text_.
Proof.
  unfold TextUtils.wrapLines.
  pose proof (fold_wrapStep_inked w (Js.split " " text_) ([], "")) as Hfold.
  destruct (fold_left _ _ _) as [lines cur]. cbn [fst snd] in Hfold.
  rewrite flush_inked, Hfold. cbn. apply split_inked.
Qed.

Lemma formatTextForDisplay_inked (text_ : string) (w : Z) :
  inked (TextUtils.formatTextForDisplay text_ w) = inked text_.
Proof.
  unfold TextUtils.formatTextForDisplay.
  destruct text_ as [|c s]; [done|]. cbn [Js.truthy negb].
  change (String (ascii_of_nat 10) "") with Js.lineFeed.
  by rewrite join_inked, wrapLines_inked.
Qed.

Lemma fold_wrapStep_greedy (w : Z) (words lines : list string) (cur : string) :
  TextUtils.flush (fst (fold_left (TextUtils.wrapStep w) words (lines, cur)))
                  (snd (fold_left (TextUtils.wrapStep w) words (lines, cur)))
  = lines ++ greedyWrap w cur words.
Proof.
  revert lines cur. induction words as [|word words IH]; intros lines cur.
  - cbn. unfold TextUtils.flush. destruct (Js.truthy cur); [done|].
    by rewrite app_nil_r.
  - cbn [fold_left greedyWrap]. unfold TextUtils.wrapStep at 2 4.
    destruct (_ <=? _); [apply IH|].
    rewrite IH. unfold TextUtils.flush.
    destruct (Js.truthy cur); [by rewrite <- app_assoc|done].
Qed.

Lemma wrapLines_greedy (text_ : string) (w : Z) :
  TextUtils.wrapLines text_ w = greedyWrap w "" (Js.split " " text_).
Proof.
  unfold TextUtils.wrapLines.
  pose proof (fold_wrapStep_greedy w (Js.split " " text_) [] "") as Hfold.
  by destruct (fold_left _ _ _) as [lines cur].
Qed.

(** At the default width, 60. *)
Lemma formatTextForDisplay_default_width (text_ : string) (l : string) :
  l ∈ TextUtils.wrapLines text_ DEFAULT_CONFIG.MAX_LINE_LENGTH_DISPLAY →
  Js.len l ≤ 60 ∨ (l ∈ Js.split " " text_ ∧ 60 < Js.len l).
Proof.
  intros Hl. pose proof (wrapLines_ok text_ DEFAULT_CONFIG.MAX_LINE_LENGTH_DISPLAY) as Hall.
  rewrite Forall_forall in Hall. by apply Hall.
Qed.

(** ** fileUtils and the store: what each operation does to the world *)

Lemma bind_ok {A B} (m : M A) (k : A → M B) (a : A) (w w' : World) :
  m w = (Ok a, w') → bind m k w = k a w'.
Proof. unfold bind. by intros ->. Qed.

Lemma bind_throw {A B} (m : M A) (k : A → M B) (e : Error) (w w' : World) :
  m w = (Throw e, w') → bind m k w = (Throw e, w').
Proof. unfold bind. by intros ->. Qed.

Lemma existsSync_spec (p : string) (w : World) :
  Fs.existsSync p w
  = (Ok (bool_decide (is_Some (files w !! p)) || bool_decide (p ∈ dirs w)), w).
Proof. reflexivity. Qed.

Ltac munfold :=
  unfold bind, ret, throw, try_catch, read, showWarningMessage, showErrorMessage.

Lemma append_ne_self (p x : string) : x ≠ "" → p +:+ x ≠ p.
Proof.
  intros Hx E. apply Hx.
  apply (String.app_inj p). by rewrite append_empty_r.
Qed.

Section store.
Context `{Host}.

Lemma backupPath_ne (p : string) (t : Z) : FileUtils.backupPath p t ≠ p.
Proof. unfold FileUtils.backupPath. by apply append_ne_self. Qed.

Lemma tmpPath_ne : tmpPath ≠ notesFilePath.
Proof. unfold tmpPath. by apply append_ne_self. Qed.

Lemma safeReadFile_spec (p : string) (w : World) :
  FileUtils.safeReadFile p w = (Ok (Js.trim <$> files w !! p), w).
Proof.
  unfold FileUtils.safeReadFile, Fs.existsSync, Fs.readFileSync. munfold.
  destruct (files w !! p) as [c|] eqn:E; cbn.
  - by rewrite E.
  - destruct (bool_decide (p ∈ dirs w)); cbn; [by rewrite E|done].
Qed.

Lemma backupCorruptedFile_spec (p : string) (w : World) :
  FileUtils.backupCorruptedFile p w = (Ok tt, backedUp p w).
Proof.
  unfold FileUtils.backupCorruptedFile, backedUp, Fs.existsSync, Fs.copyFileSync.
  munfold.
  destruct (files w !! p) as [c|] eqn:E; cbn.
  - destruct (readonly w); [done|]. rewrite E.
    by destruct (bool_decide (_ ∈ dirs w)).
  - destruct (bool_decide (p ∈ dirs w)) eqn:D; cbn; [|done].
    destruct (readonly w); [done|]. by rewrite E.
Qed.

Lemma backedUp_notes_file (p : string) (w : World) :
  files (backedUp p w) !! p = files w !! p.
Proof.
  unfold backedUp. destruct (files w !! p) eqn:E; [|done].
  destruct (readonly w); [done|]. case_bool_decide; [done|].
  cbn. rewrite lookup_insert_ne; [done|]. apply backupPath_ne.
Qed.

Lemma backedUp_frame (p : string) (w : World) :
  dirs (backedUp p w) = dirs w ∧ readonly (backedUp p w) = readonly w
  ∧ now (backedUp p w) = now w ∧ shown (backedUp p w) = shown w.
Proof.
  unfold backedUp. destruct (files w !! p); [|done].
  destruct (readonly w) eqn:R; [done|]. by case_bool_decide.
Qed.

Lemma loadNotes_spec (w : World) :
  NotesStorage.loadNotes w = (Ok (fst (loadOutcome w)), snd (loadOutcome w)).
Proof.
  unfold NotesStorage.loadNotes, loadOutcome, NotesStorage.backupAndReset.
  unfold try_catch at 1. unfold bind at 1. rewrite safeReadFile_spec.
  destruct (files w !! notesFilePath) as [c|]; cbn [fmap option_fmap option_map]; [|done].
  destruct (Js.trim c) as [|a data] eqn:T; [done|].
  destruct (JSON_parse (String a data)) as [parsed|] eqn:P.
  - unfold bind at 1. unfold ret at 1.
    destruct (NotesStorage.isValidNotesData parsed) eqn:V; cbn [negb]; [done|].
    unfold bind, ret. by rewrite backupCorruptedFile_spec.
  - unfold bind at 1. unfold throw at 1.
    unfold bind, ret, showWarningMessage. by rewrite backupCorruptedFile_spec.
Qed.

(** [loadNotes] never throws. *)
Lemma loadNotes_returns (w : World) :
  ∃ d w', NotesStorage.loadNotes w = (Ok d, w').
Proof. rewrite loadNotes_spec. eauto. Qed.

Lemma loadOutcome_notes_file (w : World) :
  files (snd (loadOutcome w)) !! notesFilePath = files w !! notesFilePath.
Proof.
  unfold loadOutcome.
  destruct (files w !! notesFilePath) as [c|] eqn:E; cbn [fmap option_fmap option_map]; [|done].
  destruct (Js.trim c); [done|].
  destruct (JSON_parse _) as [v|].
  - destruct (NotesStorage.isValidNotesData v); [done|].
    cbn [snd]. by rewrite backedUp_notes_file.
  - cbn [snd]. by rewrite backedUp_notes_file.
Qed.

Lemma loadOutcome_frame (w : World) :
  dirs (snd (loadOutcome w)) = dirs w ∧ readonly (snd (loadOutcome w)) = readonly w
  ∧ now (snd (loadOutcome w)) = now w.
Proof.
  unfold loadOutcome.
  destruct (files w !! notesFilePath) as [c|]; cbn [fmap option_fmap option_map]; [|done].
  destruct (Js.trim c); [done|].
  destruct (JSON_parse _) as [v|].
  - destruct (NotesStorage.isValidNotesData v); [done|].
    cbn [snd]. by destruct (backedUp_frame notesFilePath w) as (-> & -> & -> & _).
  - cbn [snd].
    by destruct (backedUp_frame notesFilePath (warned UI_STRINGS.CORRUPTED_FILE w))
      as (-> & -> & -> & _).
Qed.

(** What is loaded depends on the notes file alone. *)
Lemma loadOutcome_ext (w w' : World) :
  files w !! notesFilePath = files w' !! notesFilePath →
  fst (loadOutcome w) = fst (loadOutcome w').
Proof.
  unfold loadOutcome. intros <-.
  destruct (files w !! notesFilePath) as [c|]; cbn [fmap option_fmap option_map]; [|done].
  destruct (Js.trim c); [done|].
  destruct (JSON_parse _) as [v|]; [|done].
  by destruct (NotesStorage.isValidNotesData v).
Qed.

(** *** Saving *)

Lemma files_saved (d : NotesData) (w : World) :
  files (saved d w) !! notesFilePath
  = Some (JSON_stringify (json_of_NotesData d)).
Proof. apply lookup_insert_eq. Qed.

Lemma isValidNotesData_typed (d : NotesData) :
  NotesStorage.isValidNotesData (json_of_NotesData d) = true.
Proof.
  unfold NotesStorage.isValidNotesData, json_of_NotesData. cbn.
  by rewrite lookup_insert_eq.
Qed.

Lemma ensureDirectoryExists_present (p : string) (w : World) :
  path_dirname p ∈ dirs w → FileUtils.ensureDirectoryExists p w = (Ok tt, w).
Proof.
  intros Hdir. unfold FileUtils.ensureDirectoryExists.
  rewrite (bind_ok _ _ _ _ _ (existsSync_spec _ _)).
  by rewrite (bool_decide_eq_true_2 _ Hdir), orb_true_r.
Qed.

Lemma writeFileSync_ok (p data : string) (w : World) :
  readonly w = false → p ∉ dirs w →
  Fs.writeFileSync p data w = (Ok tt, Fs.set_files (<[p := data]> (files w)) w).
Proof.
  intros Hrw Hp. unfold Fs.writeFileSync.
  by rewrite Hrw, (bool_decide_eq_false_2 _ Hp).
Qed.

Lemma renameSync_ok (src dst content : string) (w : World) :
  readonly w = false → files w !! src = Some content → dst ∉ dirs w →
  Fs.renameSync src dst w
  = (Ok tt, Fs.set_files (<[dst := content]> (delete src (files w))) w).
Proof.
  intros Hrw Hsrc Hdst. unfold Fs.renameSync.
  by rewrite Hrw, Hsrc, (bool_decide_eq_false_2 _ Hdst).
Qed.

Lemma atomicWriteFile_ok (data : string) (w : World) :
  DiskOk w →
  FileUtils.atomicWriteFile notesFilePath data w
  = (Ok tt, Fs.set_files (<[notesFilePath := data]> (delete tmpPath (files w))) w).
Proof.
  intros (Hrw & Hdir & Hfile & Htmp). unfold FileUtils.atomicWriteFile.
  rewrite (bind_ok _ _ _ _ _ (ensureDirectoryExists_present _ _ Hdir)).
  fold tmpPath.
  rewrite (bind_ok _ _ _ _ _ (writeFileSync_ok tmpPath data w Hrw Htmp)).
  rewrite (renameSync_ok tmpPath notesFilePath data); try done.
  - cbn. by rewrite delete_insert_eq.
  - cbn. by rewrite lookup_insert_eq.
Qed.

Lemma saveNotes_ok (d : NotesData) (w : World) :
  DiskOk w → NotesStorage.saveNotes d w = (Ok tt, saved d w).
Proof.
  intros HD. pose proof HD as (Hrw & Hdir & Hfile & Htmp).
  unfold NotesStorage.saveNotes, NotesStorage.saveNotes_try, try_catch.
  rewrite isValidNotesData_typed. cbn [negb].
  rewrite (bind_ok _ _ _ _ _ (eq_refl : ret tt w = (Ok tt, w))).
  rewrite (bind_ok _ _ tt w w).
  2:{ rewrite (bind_ok _ _ _ _ _ (existsSync_spec _ _)).
      by rewrite (bool_decide_eq_true_2 _ Hdir), orb_true_r. }
  rewrite (bind_ok _ _ _ _ _ (atomicWriteFile_ok _ w HD)).
  rewrite (bind_ok _ _ _ _ _ (existsSync_spec _ _)).
  assert (files (Fs.set_files
            (<[notesFilePath := JSON_stringify (json_of_NotesData d)]>
               (delete tmpPath (files w))) w) !! notesFilePath
          = Some (JSON_stringify (json_of_NotesData d))) as E
    by apply lookup_insert_eq.
  rewrite E, (bool_decide_eq_true_2 (is_Some (Some _))) by eauto.
  cbn [orb]. unfold bind, Fs.readFileSync, ret. by rewrite E.
Qed.

Lemma saveNotes_readonly (d : NotesData) (w : World) :
  readonly w = true →
  NotesStorage.saveNotes d w
  = (Ok tt, errored (UI_STRINGS.SAVE_ERROR +:+ ": " +:+ "Error: EROFS") w).
Proof.
  intros Hro.
  unfold NotesStorage.saveNotes, NotesStorage.saveNotes_try, try_catch.
  rewrite isValidNotesData_typed. cbn [negb].
  rewrite (bind_ok _ _ _ _ _ (eq_refl : ret tt w = (Ok tt, w))).
  destruct (bool_decide (is_Some (files w !! path_dirname notesFilePath))
            || bool_decide (path_dirname notesFilePath ∈ dirs w)) eqn:D.
  - rewrite (bind_ok _ _ tt w w)
      by (by rewrite (bind_ok _ _ _ _ _ (existsSync_spec _ _)), D).
    rewrite (bind_throw _ _ (FsError "EROFS") w w); [done|].
    unfold FileUtils.atomicWriteFile.
    rewrite (bind_ok _ _ tt w w).
    + rewrite (bind_throw _ _ (FsError "EROFS") w w); [done|].
      unfold Fs.writeFileSync. by rewrite Hro.
    + unfold FileUtils.ensureDirectoryExists.
      by rewrite (bind_ok _ _ _ _ _ (existsSync_spec _ _)), D.
  - rewrite (bind_throw _ _ (FsError "EROFS") w w); [done|].
    rewrite (bind_ok _ _ _ _ _ (existsSync_spec _ _)), D. cbn [negb].
    unfold Fs.mkdirSync. by rewrite Hro.
Qed.

(** [saveNotes] never throws: its [catch] shows the error and returns. *)
Lemma saveNotes_returns (d : NotesData) (w : World) :
  ∃ w', NotesStorage.saveNotes d w = (Ok tt, w').
Proof.
  unfold NotesStorage.saveNotes, try_catch.
  destruct (NotesStorage.saveNotes_try d w) as [[[]|e] w']; [by eauto|].
  unfold showErrorMessage. eauto.
Qed.

(** *** The three operations, unfolded to their load and their save *)

Lemma addOrUpdateNote_spec (filePath_ : string) (line_ : Z) (text_ : string)
    (w : World) :
  NotesStorage.addOrUpdateNote filePath_ line_ text_ w
  = (Ok true,
     snd (NotesStorage.saveNotes
            {| notes := NotesStorage.upsertInto (notes (fst (loadOutcome w)))
                          (newNoteAt filePath_ line_ text_ (now w)) |}
            (snd (loadOutcome w)))).
Proof.
  unfold NotesStorage.addOrUpdateNote.
  unfold try_catch, bind at 1. rewrite loadNotes_spec.
  unfold bind at 1, read at 1.
  destruct (loadOutcome_frame w) as (_ & _ & ->).
  unfold bind, ret, newNoteAt.
  destruct (saveNotes_returns
              {| notes := NotesStorage.upsertInto (notes (fst (loadOutcome w)))
                  {| filePath := path_resolve filePath_; line := line_;
                     text := Js.trim text_; timestamp := toISOString (now w) |} |}
              (snd (loadOutcome w))) as [w' ->].
  reflexivity.
Qed.

Lemma deleteNote_spec (filePath_ : string) (line_ : Z) (w : World) :
  NotesStorage.deleteNote filePath_ line_ w
  = if bool_decide (length (remaining filePath_ line_ (notes (fst (loadOutcome w))))
                    = length (notes (fst (loadOutcome w))))
    then (Ok false, snd (loadOutcome w))
    else (Ok true,
          snd (NotesStorage.saveNotes
                 {| notes := remaining filePath_ line_ (notes (fst (loadOutcome w))) |}
                 (snd (loadOutcome w)))).
Proof.
  unfold NotesStorage.deleteNote.
  unfold try_catch, bind at 1. rewrite loadNotes_spec.
  fold (remaining filePath_ line_ (notes (fst (loadOutcome w)))).
  case_bool_decide; [done|].
  unfold bind, ret.
  destruct (saveNotes_returns
              {| notes := remaining filePath_ line_ (notes (fst (loadOutcome w))) |}
              (snd (loadOutcome w))) as [w' ->].
  reflexivity.
Qed.

Lemma getNotesForFile_spec (filePath_ : string) (w : World) :
  NotesStorage.getNotesForFile filePath_ w
  = (Ok (filter (λ note, path_resolve (filePath note) = path_resolve filePath_)
           (notes (fst (loadOutcome w)))),
     snd (loadOutcome w)).
Proof.
  unfold NotesStorage.getNotesForFile, bind. by rewrite loadNotes_spec.
Qed.

Lemma getAllNotesSorted_spec (w : World) :
  NotesStorage.getAllNotesSorted w
  = (Ok (sortBy NotesStorage.compareNotes (notes (fst (loadOutcome w)))),
     snd (loadOutcome w)).
Proof.
  unfold NotesStorage.getAllNotesSorted, bind. by rewrite loadNotes_spec.
Qed.

End store.

(** ** What the store reads back *)

Section roundtrip.
Context `{Host} `{!HostLaws}.

Lemma json_of_Note_props (n : Note) :
  Json.prop "filePath" (json_of_Note n) = Some (JStr (filePath n))
  ∧ Json.prop "line" (json_of_Note n) = Some (JNum (line n))
  ∧ Json.prop "text" (json_of_Note n) = Some (JStr (text n))
  ∧ Json.prop "timestamp" (json_of_Note n) = Some (JStr (timestamp n)).
Proof.
  unfold json_of_Note. cbn [Json.prop].
  repeat split; by simplify_map_eq.
Qed.

Lemma isValidNote_json_of_Note (n : Note) :
  NotesStorage.isValidNote (json_of_Note n) = true ↔ validNote n.
Proof.
  unfold NotesStorage.isValidNote, validNote.
  destruct (json_of_Note_props n) as (-> & -> & -> & ->).
  cbn. rewrite !andb_true_r, andb_true_iff.
  rewrite Z.leb_le, Z.ltb_lt. done.
Qed.

Lemma sanitizeNote_json_of_Note (n : Note) :
  NotesStorage.sanitizeNote (json_of_Note n) = renormNote n.
Proof.
  unfold NotesStorage.sanitizeNote, renormNote.
  by destruct (json_of_Note_props n) as (-> & -> & -> & ->).
Qed.

Lemma sanitizeNotes_json_of_Note (l : list Note) :
  NotesStorage.sanitizeNotes (json_of_Note <$> l) = renorm l.
Proof.
  unfold NotesStorage.sanitizeNotes, renorm.
  induction l as [|n l IH]; [done|].
  rewrite fmap_cons, !filter_cons.
  destruct (decide (validNote n)) as [Hv|Hv].
  - rewrite decide_True by (apply Is_true_true, isValidNote_json_of_Note, Hv).
    rewrite !fmap_cons, IH. by rewrite sanitizeNote_json_of_Note.
  - rewrite decide_False; [done|].
    intros Hb%Is_true_true. by apply Hv, isValidNote_json_of_Note.
Qed.

Lemma normal_renormNote (n : Note) : normal n → renormNote n = n.
Proof.
  intros (Hp & Ht & _ & _). unfold renormNote. rewrite Hp, Ht. by destruct n.
Qed.

Lemma normal_valid (n : Note) : normal n → validNote n.
Proof. intros (_ & Ht & Hl & Hlen). unfold validNote. by rewrite Ht. Qed.

Lemma renorm_normal (l : list Note) : Forall normal l → renorm l = l.
Proof.
  unfold renorm. induction 1 as [|n l Hn Hl IH]; [done|].
  rewrite filter_cons, decide_True by by apply normal_valid.
  rewrite fmap_cons, IH. by rewrite normal_renormNote.
Qed.

Lemma sanitizeNotes_normal (js : list json) :
  Forall normal (NotesStorage.sanitizeNotes js).
Proof.
  unfold NotesStorage.sanitizeNotes. apply Forall_fmap, Forall_forall.
  intros note [Hv _]%list_elem_of_filter.
  apply Is_true_true in Hv. unfold NotesStorage.isValidNote in Hv.
  repeat (apply andb_true_iff in Hv as [Hv ?]).
  unfold normal, NotesStorage.sanitizeNote; cbn.
  repeat split.
  - apply path_resolve_idem.
  - apply trim_idem.
  - by apply Z.leb_le.
  - by apply Z.ltb_lt.
Qed.

Lemma loaded_normal (w : World) : Forall normal (notes (fst (loadOutcome w))).
Proof.
  unfold loadOutcome.
  destruct (files w !! notesFilePath) as [c|]; cbn [fmap option_fmap option_map];
    [|by constructor].
  destruct (Js.trim c); [by constructor|].
  destruct (JSON_parse _) as [v|]; [|by constructor].
  destruct (NotesStorage.isValidNotesData v); [|by constructor].
  apply sanitizeNotes_normal.
Qed.

End roundtrip.

(** ** Keys: one note for a canonical path and a line *)

Section keys.
Context `{Host}.

Lemma matches_key (p : string) (l : Z) (n : Note) :
  NotesStorage.matches p l n ↔ key n = (p, l).
Proof. unfold NotesStorage.matches, key. split; [by intros [-> ->]|by intros [= -> ->]]. Qed.

Lemma uniqueKeys_filter (P : Note → Prop) `{∀ n, Decision (P n)} (l : list Note) :
  uniqueKeys l → uniqueKeys (filter P l).
Proof.
  unfold uniqueKeys. induction l as [|n l IH]; [done|].
  rewrite fmap_cons, NoDup_cons. intros [Hn Hl].
  rewrite filter_cons. destruct (decide (P n)); [|by auto].
  rewrite fmap_cons, NoDup_cons. split; [|by auto].
  intros (m & Hk & [_ Hm]%list_elem_of_filter)%list_elem_of_fmap.
  apply Hn. rewrite Hk. by apply list_elem_of_fmap_2.
Qed.

Lemma uniqueKeys_only_one (l : list Note) (n : Note) :
  uniqueKeys l → n ∈ l → filter (λ m, key m = key n) l = [n].
Proof.
  unfold uniqueKeys. induction l as [|x l IH]; [by intros _ ?%elem_of_nil|].
  rewrite fmap_cons, NoDup_cons. intros [Hx Hl] Hin.
  rewrite filter_cons.
  apply elem_of_cons in Hin as [->|Hin].
  - rewrite decide_True by done. f_equal.
    destruct (filter (λ m, key m = key x) l) as [|m rest] eqn:E; [done|].
    assert (m ∈ filter (λ m, key m = key x) l) as [Hk Hm]%list_elem_of_filter
      by (rewrite E; by left).
    exfalso. apply Hx. rewrite <- Hk. by apply list_elem_of_fmap_2.
  - rewrite decide_False; [by apply IH|].
    intros Hk. apply Hx. rewrite Hk. by apply list_elem_of_fmap_2.
Qed.

Lemma upsertInto_elem (l : list Note) (newNote : Note) :
  newNote ∈ NotesStorage.upsertInto l newNote.
Proof.
  unfold NotesStorage.upsertInto.
  destruct (list_find _ l) as [[i old]|] eqn:E.
  - apply list_find_Some in E as (Hi & _ & _).
    apply list_elem_of_insert. by eapply lookup_lt_Some.
  - apply elem_of_app. right. by left.
Qed.

(** An upsert of a note with a canonical path keeps the keys unique:
    the keys do not change when an entry is replaced, and the key is
    new when the note is appended. *)
Lemma upsertInto_unique (l : list Note) (newNote : Note) :
  path_resolve (filePath newNote) = filePath newNote →
  uniqueKeys l → uniqueKeys (NotesStorage.upsertInto l newNote).
Proof.
  intros Hcanon Hl. unfold NotesStorage.upsertInto, uniqueKeys in *.
  destruct (list_find _ l) as [[i old]|] eqn:E.
  - apply list_find_Some in E as (Hi & Hm & _).
    apply matches_key in Hm.
    rewrite list_fmap_insert, list_insert_id; [done|].
    rewrite list_lookup_fmap, Hi. cbn. f_equal.
    rewrite Hm. unfold key. by rewrite Hcanon.
  - apply list_find_None in E. rewrite fmap_app. apply NoDup_app.
    split; [done|]. split; [|apply NoDup_singleton].
    intros k (m & -> & Hm)%list_elem_of_fmap Hk.
    apply list_elem_of_singleton in Hk.
    rewrite Forall_forall in E. apply (E m Hm).
    apply matches_key. rewrite Hk. unfold key. by rewrite Hcanon.
Qed.

(** [Array.prototype.sort] moves the elements and keeps them all. *)
Lemma insertBy_perm {A} (cmp : A → A → Z) (x : A) (l : list A) :
  insertBy cmp x l ≡ₚ x :: l.
Proof.
  induction l as [|y l IH]; [done|]. cbn.
  destruct (cmp x y <=? 0); [done|]. rewrite IH. apply Permutation_swap.
Qed.

Lemma sortBy_perm {A} (cmp : A → A → Z) (l : list A) : sortBy cmp l ≡ₚ l.
Proof.
  unfold sortBy. induction l as [|x l IH]; [done|]. cbn.
  by rewrite insertBy_perm, IH.
Qed.

End keys.

Section save_any_disk.
Context `{Host}.

(** Whatever the disk, a save leaves the notes file as it was or
    holding the text of the collection: the write goes to the temporary
    sibling, and only the rename touches the notes file. *)
Lemma saveNotes_notes_file (d : NotesData) (w : World) :
  files (snd (NotesStorage.saveNotes d w)) !! notesFilePath
  = files w !! notesFilePath
  ∨ files (snd (NotesStorage.saveNotes d w)) !! notesFilePath
    = Some (JSON_stringify (json_of_NotesData d)).
Proof.
  pose proof tmpPath_ne as Hne. unfold tmpPath in Hne.
  unfold NotesStorage.saveNotes, NotesStorage.saveNotes_try, try_catch.
  rewrite isValidNotesData_typed. cbn [negb].
  unfold FileUtils.atomicWriteFile, FileUtils.ensureDirectoryExists.
  unfold Fs.existsSync, Fs.mkdirSync, Fs.writeFileSync, Fs.renameSync,
    Fs.readFileSync, Fs.set_files, Fs.set_dirs.
  munfold. cbn.
  repeat (case_match; simplify_eq/=; try (by left));
    simplify_map_eq; by (left + right).
Qed.

End save_any_disk.

(** ** The store keeps its keys unique *)

Section invariant.
Context `{Host} `{!HostLaws}.

Lemma loadOutcome_holding (d : NotesData) (w : World) :
  files w !! notesFilePath = Some (JSON_stringify (json_of_NotesData d)) →
  loadOutcome w = ({| notes := renorm (notes d) |}, w).
Proof.
  intros Hfile. unfold loadOutcome. rewrite Hfile.
  cbn [fmap option_fmap option_map]. rewrite JSON_stringify_trim.
  pose proof (JSON_stringify_truthy d) as Ht.
  destruct (JSON_stringify (json_of_NotesData d)) as [|a s] eqn:E; [done|].
  rewrite <- E, JSON_parse_stringify, isValidNotesData_typed.
  f_equal. f_equal. unfold json_of_NotesData. cbn [Json.prop].
  rewrite lookup_insert_eq. cbn [Json.asArray].
  apply sanitizeNotes_json_of_Note.
Qed.

Lemma Unique_loaded (w : World) :
  Unique w ↔ uniqueKeys (notes (fst (loadOutcome w))).
Proof.
  unfold Unique. split.
  - intros HU. eapply HU, loadNotes_spec.
  - intros HU d w'. rewrite loadNotes_spec. by intros [= <- <-].
Qed.

Lemma key_renormNote (n : Note) : key (renormNote n) = key n.
Proof. unfold key, renormNote. cbn. by rewrite path_resolve_idem. Qed.

Lemma uniqueKeys_renorm (l : list Note) : uniqueKeys l → uniqueKeys (renorm l).
Proof.
  intros Hl. unfold renorm, uniqueKeys.
  rewrite <- list_fmap_compose.
  erewrite list_fmap_ext; [by apply uniqueKeys_filter|].
  intros i n _. apply key_renormNote.
Qed.

Lemma sanitizeNotes_keys (js : list json) :
  key <$> NotesStorage.sanitizeNotes js
  = storedKey <$> filter (λ note, NotesStorage.isValidNote note) js.
Proof.
  unfold NotesStorage.sanitizeNotes. rewrite <- list_fmap_compose.
  apply list_fmap_ext. intros i note _.
  unfold key, storedKey, NotesStorage.sanitizeNote. cbn.
  by rewrite path_resolve_idem.
Qed.

Lemma Unique_same_file (w w' : World) :
  files w' !! notesFilePath = files w !! notesFilePath → Unique w → Unique w'.
Proof.
  intros Hf. rewrite !Unique_loaded. by rewrite (loadOutcome_ext w' w Hf).
Qed.

Lemma Unique_after_save (d : NotesData) (w0 w : World) :
  files w !! notesFilePath = files w0 !! notesFilePath →
  Unique w0 → uniqueKeys (notes d) →
  Unique (snd (NotesStorage.saveNotes d w)).
Proof.
  intros Hf HU Hd.
  destruct (saveNotes_notes_file d w) as [Hsame|Hnew].
  - eapply Unique_same_file; [|exact HU]. by rewrite Hsame.
  - apply Unique_loaded. rewrite (loadOutcome_holding d _ Hnew). cbn.
    by apply uniqueKeys_renorm.
Qed.

Lemma newNoteAt_canonical (p : string) (l : Z) (t : string) (time : Z) :
  path_resolve (filePath (newNoteAt p l t time)) = filePath (newNoteAt p l t time).
Proof. apply path_resolve_idem. Qed.

Lemma Unique_step (w w' : World) : StoreStep w w' → Unique w → Unique w'.
Proof.
  intros Hstep HU. pose proof HU as HU'. apply Unique_loaded in HU'.
  destruct Hstep as [w|w p l t|w p l|w p l|w p|w|w w' Hf].
  - rewrite loadNotes_spec. cbn [snd].
    eapply Unique_same_file; [apply loadOutcome_notes_file|done].
  - rewrite addOrUpdateNote_spec. cbn [snd].
    apply (Unique_after_save _ w); [apply loadOutcome_notes_file|done|].
    cbn. apply upsertInto_unique; [apply newNoteAt_canonical|done].
  - rewrite deleteNote_spec. case_bool_decide; cbn [snd].
    + eapply Unique_same_file; [apply loadOutcome_notes_file|done].
    + apply (Unique_after_save _ w); [apply loadOutcome_notes_file|done|].
      cbn. by apply uniqueKeys_filter.
  - unfold NotesStorage.noteExists, try_catch, bind. rewrite loadNotes_spec.
    cbn [snd ret]. eapply Unique_same_file; [apply loadOutcome_notes_file|done].
  - rewrite getNotesForFile_spec. cbn [snd].
    eapply Unique_same_file; [apply loadOutcome_notes_file|done].
  - rewrite getAllNotesSorted_spec. cbn [snd].
    eapply Unique_same_file; [apply loadOutcome_notes_file|done].
  - by eapply Unique_same_file.
Qed.

Lemma Unique_steps (w w' : World) : rtc StoreStep w w' → Unique w → Unique w'.
Proof. induction 1; eauto using Unique_step. Qed.

End invariant.

(** ** The sample host obeys the laws *)

Module SampleLaws.

Lemma resolve_idem (p : string) : Sample.resolve (Sample.resolve p) = Sample.resolve p.
Proof.
  unfold Sample.resolve.
  destruct p as [|c p]; [done|].
  destruct (decide (c = "/"%char)) as [->|Hc]; [done|].
  destruct (decide (c = "."%char)) as [->|Hd].
  - destruct p as [|c' p]; [done|].
    destruct (decide (c' = "/"%char)) as [->|Hc']; [done|].
    destruct c' as [[] [] [] [] [] [] [] []]; try done.
  - destruct c as [[] [] [] [] [] [] [] []]; try done.
Qed.

Lemma digits_roundtrip (p : positive) :
  Sample.pos_of_digits (Sample.digits_of_pos p) = Some p.
Proof. induction p as [p IH|p IH|]; cbn; by rewrite ?IH. Qed.

Lemma digits_trimEnd (p : positive) :
  Js.trimEnd (Sample.digits_of_pos p) = Sample.digits_of_pos p
  ∧ Sample.digits_of_pos p ≠ "".
Proof.
  induction p as [p [IH Hne]|p [IH Hne]|]; cbn; [| |done].
  - rewrite IH. by destruct (Sample.digits_of_pos p).
  - rewrite IH. by destruct (Sample.digits_of_pos p).
Qed.

Lemma Note_of_json_of_Note (n : Note) : Sample.Note_of_json (json_of_Note n) = n.
Proof.
  unfold Sample.Note_of_json.
  destruct (json_of_Note_props n) as (-> & -> & -> & ->). by destruct n.
Qed.

Lemma tuples_of_json_of_NotesData (d : NotesData) :
  Sample.tuples_of_json (json_of_NotesData d) = Sample.tuple_of_Note <$> notes d.
Proof.
  unfold Sample.tuples_of_json, json_of_NotesData. cbn [Json.prop].
  rewrite lookup_insert_eq. cbn [Json.asArray].
  rewrite <- list_fmap_compose. apply list_fmap_ext.
  intros i n _. cbn. by rewrite Note_of_json_of_Note.
Qed.

Lemma parse_stringify (d : NotesData) :
  Sample.parse (Sample.stringify (json_of_NotesData d)) = Some (json_of_NotesData d).
Proof.
  unfold Sample.parse, Sample.stringify.
  rewrite digits_roundtrip. cbn [mbind option_bind]. rewrite decode_encode.
  rewrite tuples_of_json_of_NotesData, <- list_fmap_compose.
  do 3 f_equal. destruct d as [l]. cbn. f_equal.
  rewrite <- (list_fmap_id l) at 2. apply list_fmap_ext.
  intros i [] _. done.
Qed.

Lemma stringify_trim (v : json) : Js.trim (Sample.stringify v) = Sample.stringify v.
Proof.
  unfold Sample.stringify, Js.trim. cbn [Js.trimStart].
  change (Js.is_white "{") with false. cbn [Js.trimEnd].
  destruct (digits_trimEnd (encode (Sample.tuples_of_json v))) as [-> Hne].
  by destruct (Sample.digits_of_pos _).
Qed.

#[global] Instance laws : HostLaws.
Proof.
  split.
  - apply resolve_idem.
  - intros d. apply stringify_trim.
  - done.
  - apply parse_stringify.
Qed.

End SampleLaws.

(** ** The answer of an upsert *)

Section upsert_answer.
Context `{Host}.

(** [addOrUpdateNote] answers [true] whatever happens to the save. *)
Lemma addOrUpdateNote_always_true (filePath_ : string) (line_ : Z)
    (text_ : string) (w : World) :
  fst (NotesStorage.addOrUpdateNote filePath_ line_ text_ w) = Ok true.
Proof. by rewrite addOrUpdateNote_spec. Qed.

(** On a read-only disk nothing is written, the error is shown to the
    user, and the answer is still [true]. *)
Lemma addOrUpdateNote_readonly (filePath_ : string) (line_ : Z)
    (text_ : string) (w : World) :
  readonly w = true →
  ∃ w', NotesStorage.addOrUpdateNote filePath_ line_ text_ w = (Ok true, w')
        ∧ files w' = files w
        ∧ ErrorMessage (UI_STRINGS.SAVE_ERROR +:+ ": " +:+ "Error: EROFS")
          ∈ shown w'.
Proof.
  intros Hro. eexists. rewrite addOrUpdateNote_spec. split; [done|].
  destruct (loadOutcome_frame w) as (_ & Hro' & _). rewrite Hro in Hro'.
  rewrite (saveNotes_readonly _ _ Hro'). cbn [snd errored files shown].
  split; [|by left].
  unfold loadOutcome.
  destruct (files w !! notesFilePath) as [c|] eqn:E;
    cbn [fmap option_fmap option_map]; [|done].
  destruct (Js.trim c); [done|].
  assert (∀ w0, readonly w0 = true → files (backedUp notesFilePath w0) = files w0)
    as Hb.
  { intros w0 R. unfold backedUp. destruct (files w0 !! notesFilePath); [|done].
    by rewrite R. }
  destruct (JSON_parse _) as [v|].
  - destruct (NotesStorage.isValidNotesData v); [done|]. cbn [snd]. by apply Hb.
  - cbn [snd]. by rewrite Hb.
Qed.

End upsert_answer.

Lemma length_filter_all {A} (P : A → Prop) `{∀ x, Decision (P x)} (l : list A) :
  length (filter P l) = length l ↔ Forall P l.
Proof.
  induction l as [|x l IH]; [by split; [constructor|]|].
  rewrite filter_cons. destruct (decide (P x)) as [Hx|Hx].
  - cbn. rewrite Forall_cons. split.
    + intros [= E]. split; [done|]. by apply IH.
    + intros [_ Hl]. f_equal. by apply IH.
  - split.
    + intros E. pose proof (length_filter P l). cbn in E. lia.
    + by intros [? _]%Forall_cons.
Qed.

Lemma upsertInto_Forall `{Host} (P : Note → Prop) (l : list Note) (newNote : Note) :
  Forall P l → P newNote → Forall P (NotesStorage.upsertInto l newNote).
Proof.
  intros Hl Hn. unfold NotesStorage.upsertInto.
  destruct (list_find _ l) as [[i old]|].
  - rewrite Forall_forall in *. intros x Hx.
    apply list_elem_of_lookup in Hx as [j Hj].
    destruct (decide (i = j)) as [->|Hij].
    + destruct (decide (j < length l)%nat).
      * rewrite list_lookup_insert_eq in Hj by done. by simplify_eq.
      * rewrite list_insert_ge in Hj by lia. eapply Hl, list_elem_of_lookup_2, Hj.
    + rewrite list_lookup_insert_ne in Hj by done.
      eapply Hl, list_elem_of_lookup_2, Hj.
  - apply Forall_app. split; [done|]. by constructor.
Qed.

Section after_save.
Context `{Host} `{!HostLaws}.

Lemma renorm_all_normal (l : list Note) : Forall normal (renorm l).
Proof.
  unfold renorm. apply Forall_fmap, Forall_forall.
  intros n [[Hl Ht] _]%list_elem_of_filter. unfold normal, renormNote. cbn.
  repeat split; [apply path_resolve_idem|apply trim_idem|done|done].
Qed.

Lemma DiskOk_loadOutcome (w : World) : DiskOk w → DiskOk (snd (loadOutcome w)).
Proof.
  unfold DiskOk. by destruct (loadOutcome_frame w) as (-> & -> & _).
Qed.

Lemma addOrUpdateNote_ok (filePath_ : string) (line_ : Z) (text_ : string)
    (w : World) :
  DiskOk w →
  NotesStorage.addOrUpdateNote filePath_ line_ text_ w
  = (Ok true,
     saved {| notes := NotesStorage.upsertInto (notes (fst (loadOutcome w)))
                         (newNoteAt filePath_ line_ text_ (now w)) |}
           (snd (loadOutcome w))).
Proof.
  intros HD. rewrite addOrUpdateNote_spec.
  by rewrite (saveNotes_ok _ _ (DiskOk_loadOutcome w HD)).
Qed.

Lemma matches_newNoteAt (p : string) (l : Z) (t : string) (time : Z) (m : Note) :
  NotesStorage.matches (path_resolve p) l m ↔ key m = key (newNoteAt p l t time).
Proof.
  rewrite matches_key. unfold key, newNoteAt. cbn.
  by rewrite path_resolve_idem.
Qed.

End after_save.

(** ** The position resolver *)

Section resolver.
Context `{Host}.

Lemma lineAt_inside (editor : TextEditor) (l : Z) (w : World) :
  0 ≤ l < lineCount editor →
  ∃ lineText, lineAt editor l w = (Ok lineText, w).
Proof.
  intros Hl. unfold lineAt. rewrite bool_decide_eq_true_2 by done.
  destruct (docLines editor !! Z.to_nat l) as [lineText|] eqn:E; [by eauto|].
  apply lookup_ge_None in E. unfold lineCount in Hl. lia.
Qed.

Lemma createDecorations_inside (ns : list Note) (editor : TextEditor) (w : World) :
  Forall (λ n, 0 ≤ line n ∧ line n < lineCount editor) ns →
  ∃ decorations,
    DecorationManager.createDecorations ns editor w = (Ok decorations, w)
    ∧ DecorationManager.rangeLine <$> decorations = line <$> ns.
Proof.
  unfold DecorationManager.createDecorations.
  induction 1 as [|n ns Hn Hns (ds & IH & Hlines)]; [by exists []|].
  destruct (lineAt_inside editor (line n) w) as [lineText Hat]; [lia|].
  eexists. cbn [mapM]. unfold bind at 1. unfold bind at 1. rewrite Hat.
  unfold ret at 1. unfold bind at 1. rewrite IH. unfold ret.
  split; [done|]. cbn. by rewrite Hlines.
Qed.

End resolver.

(** ** Texts in the store *)

Section texts.
Context `{Host}.

Lemma sanitizeNotes_text (js : list json) (n : Note) :
  n ∈ NotesStorage.sanitizeNotes js →
  Js.trim (text n) = text n ∧ text n ≠ "".
Proof.
  unfold NotesStorage.sanitizeNotes.
  intros (note & -> & [Hv _]%list_elem_of_filter)%list_elem_of_fmap.
  apply Is_true_true in Hv. unfold NotesStorage.isValidNote in Hv.
  repeat (apply andb_true_iff in Hv as [Hv ?]).
  cbn. split; [apply trim_idem|].
  intros E. rewrite E in *. done.
Qed.

End texts.

(** ** The click debouncer *)

Section clicks.
Context `{Host}.

Lemma isSamePosition_spec (st : ClickHandler.State) (l c : Z) :
  ClickHandler.isSamePosition st l c = true
  ↔ ClickHandler.lastClickPosition st = Some (l, c).
Proof.
  unfold ClickHandler.isSamePosition.
  destruct (ClickHandler.lastClickPosition st) as [[l' c']|]; [|done].
  rewrite andb_true_iff, !bool_decide_eq_true.
  split; [by intros [-> ->]|by intros [= -> ->]].
Qed.

Lemma selectionHandler_repeat (event : ClickHandler.SelectionChangeEvent)
    (st : ClickHandler.State) :
  ClickHandler.lastClickPosition st = Some (position event) →
  ClickHandler.selectionHandler event st = st.
Proof.
  intros Hlast. unfold ClickHandler.selectionHandler.
  destruct (ClickHandler.textEditor event); [|done].
  destruct (negb _ || negb _); [done|].
  by rewrite (proj2 (isSamePosition_spec st _ _) Hlast).
Qed.

Lemma selectionHandler_records (event : ClickHandler.SelectionChangeEvent)
    (st : ClickHandler.State) :
  qualifies event →
  ClickHandler.lastClickPosition (ClickHandler.selectionHandler event st)
  = Some (position event).
Proof.
  intros ([editor He] & Hempty & Hkind). unfold ClickHandler.selectionHandler.
  rewrite He, Hempty, Hkind. cbn [negb orb ClickHandler.isMouse].
  destruct (ClickHandler.isSamePosition st _ _) eqn:E; [|done].
  by apply isSamePosition_spec.
Qed.

Lemma selectionHandler_arms (event : ClickHandler.SelectionChangeEvent)
    (st : ClickHandler.State) (editor : TextEditor) :
  qualifies event →
  ClickHandler.textEditor event = Some editor →
  ClickHandler.lastClickPosition st ≠ Some (position event) →
  ClickHandler.clickTimeout (ClickHandler.selectionHandler event st)
  = Some {| ClickHandler.delay := DEFAULT_CONFIG.CLICK_DEBOUNCE_TIME;
            ClickHandler.capturedEditor := editor;
            ClickHandler.capturedLine := fst (position event);
            ClickHandler.capturedCharacter := snd (position event) |}.
Proof.
  intros (_ & Hempty & Hkind) He Hnew. unfold ClickHandler.selectionHandler.
  rewrite He, Hempty, Hkind. cbn [negb orb ClickHandler.isMouse].
  destruct (ClickHandler.isSamePosition st _ _) eqn:E; [|done].
  by apply isSamePosition_spec in E.
Qed.

(** The callback of the timer calls [onNoteClick] once or not at all,
    and does not throw. *)
Lemma handlePotentialNoteClick_once (editor : TextEditor) (l c : Z) (w : World) :
  ∃ calls w',
    ClickHandler.handlePotentialNoteClick editor l c w = (Ok calls, w')
    ∧ (length calls ≤ 1)%nat.
Proof.
  unfold ClickHandler.handlePotentialNoteClick, try_catch.
  unfold bind at 1.
  destruct (lineAt editor l w) as [[lineText|e] w1];
    [|exists [], w1; split; [done|cbn; lia]].
  case_bool_decide; [|exists [], w1; split; [done|cbn; lia]].
  unfold bind. rewrite getNotesForFile_spec.
  destruct (list_find _ _); eexists _, _; (split; [done|cbn; lia]).
Qed.

Lemma timerFires_once (st : ClickHandler.State) (w : World) :
  ∃ calls st' w',
    ClickHandler.timerFires st w = (Ok (calls, st'), w')
    ∧ (length calls + armed st' ≤ armed st)%nat
    ∧ ClickHandler.lastClickPosition st' = ClickHandler.lastClickPosition st.
Proof.
  unfold ClickHandler.timerFires, armed.
  destruct (ClickHandler.clickTimeout st) as [t|] eqn:E.
  - destruct (handlePotentialNoteClick_once
                (ClickHandler.capturedEditor t) (ClickHandler.capturedLine t)
                (ClickHandler.capturedCharacter t) w) as (calls & w' & Hc & Hlen).
    unfold bind. rewrite Hc. eexists _, _, _. split; [done|]. cbn. split; [lia|done].
  - eexists _, _, _. split; [done|]. rewrite E. cbn. split; [lia|done].
Qed.

(** While the recorded position stays, a run of timer firings and
    events at that position calls [onNoteClick] at most as often as a
    timer is armed at its start: no timer is armed on the way. *)
Lemma run_quiet (actions : list ClickHandler.Action) (st : ClickHandler.State)
    (w : World) :
  Forall (quiet (ClickHandler.lastClickPosition st)) actions →
  ∃ calls st' w',
    ClickHandler.run actions st w = (Ok (calls, st'), w')
    ∧ (length calls + armed st' ≤ armed st)%nat.
Proof.
  intros Hq. remember (ClickHandler.lastClickPosition st) as last eqn:Hlast.
  revert st w Hlast.
  induction Hq as [|a actions Ha Hq IH]; intros st w Hlast.
  { eexists _, _, _. split; [done|]. cbn. lia. }
  cbn [ClickHandler.run]. destruct Ha as [->|(event & -> & Hpos)].
  - cbn [ClickHandler.step].
    destruct (timerFires_once st w) as (calls & st1 & w1 & Hf & Hlen & Hl1).
    destruct (IH st1 w1) as (calls' & st' & w' & Hr & Hlen'); [congruence|].
    eexists _, _, _. unfold bind. rewrite Hf. cbn [snd fst]. rewrite Hr.
    split; [done|]. cbn [fst snd]. rewrite length_app. lia.
  - cbn [ClickHandler.step]. rewrite selectionHandler_repeat by congruence.
    destruct (IH st w Hlast) as (calls' & st' & w' & Hr & Hlen').
    eexists _, _, _. unfold bind, ret at 1. cbn [snd fst]. rewrite Hr.
    split; [done|]. cbn [fst snd app]. lia.
Qed.

Lemma armed_le_1 (st : ClickHandler.State) : (armed st ≤ 1)%nat.
Proof. unfold armed. destruct (ClickHandler.clickTimeout st); lia. Qed.

(** Selection events that all arrive before the timer fires leave one
    timer to fire at most. *)
Lemma run_burst (events : list ClickHandler.SelectionChangeEvent) (fires : nat)
    (st : ClickHandler.State) (w : World) :
  ∃ calls st' w',
    ClickHandler.run
      ((ClickHandler.SelectionChanged <$> events)
       ++ replicate fires ClickHandler.TimerFired) st w
    = (Ok (calls, st'), w')
    ∧ (length calls ≤ 1)%nat.
Proof.
  revert st. induction events as [|event events IH]; intros st.
  - destruct (run_quiet (replicate fires ClickHandler.TimerFired) st w)
      as (calls & st' & w' & Hr & Hlen).
    { apply Forall_forall. intros a Ha%elem_of_replicate. left. by destruct Ha. }
    exists calls, st', w'. split; [done|]. pose proof (armed_le_1 st). lia.
  - destruct (IH (ClickHandler.selectionHandler event st))
      as (calls & st' & w' & Hr & Hlen).
    exists calls, st', w'. rewrite fmap_cons. cbn [app ClickHandler.run ClickHandler.step].
    unfold bind, ret at 1. cbn [fst snd]. by rewrite Hr.
Qed.

End clicks.

(* ================================================================== *)
(** * Part IV. The claims *)
(* ================================================================== *)

Section claims_1_2.
Context `{Host} `{!HostLaws}.

(** C1, amended.  When the notes file is there, is not blank, and does
    not parse or has the wrong top-level shape, [loadNotes] does not
    throw and returns the empty collection.  If the disk takes the copy,
    the files afterwards are the files before plus the backup
    [<path>.backup.<now>] holding the content of the notes file: when no
    file had that name this is exactly one new file, and every other
    file is as it was.  If the disk does not take the copy, the files
    are as they were. *)
Theorem loadNotes_damaged_file (w : World) (content : string) :
  files w !! notesFilePath = Some content →
  damaged content →
  ∃ w', NotesStorage.loadNotes w = (Ok NotesStorage.emptyNotes, w')
    ∧ (backupPossible w →
       files w' = <[FileUtils.backupPath notesFilePath (now w) := content]> (files w))
    ∧ (backupPossible w →
       files w !! FileUtils.backupPath notesFilePath (now w) = None →
       files w' !! FileUtils.backupPath notesFilePath (now w) = Some content
       ∧ ∀ q, q ≠ FileUtils.backupPath notesFilePath (now w) →
              files w' !! q = files w !! q)
    ∧ (¬ backupPossible w → files w' = files w).
Proof.
  intros Hfile [Hnb Hbad].
  assert (∃ warn : bool,
            loadOutcome w
            = (NotesStorage.emptyNotes,
               backedUp notesFilePath
                 (if warn then warned UI_STRINGS.CORRUPTED_FILE w else w)))
    as [warn Hout].
  { unfold loadOutcome. rewrite Hfile. cbn [fmap option_fmap option_map].
    destruct (Js.trim content) as [|a s] eqn:T; [done|].
    destruct Hbad as [->|(v & -> & ->)]; [by exists true|by exists false]. }
  eexists. rewrite loadNotes_spec, Hout. cbn [fst snd]. split; [done|].
  assert (files (backedUp notesFilePath
                   (if warn then warned UI_STRINGS.CORRUPTED_FILE w else w))
          = files (backedUp notesFilePath w)) as ->.
  { destruct warn; [|done]. unfold backedUp, warned. cbn.
    destruct (files w !! notesFilePath); [|done].
    destruct (readonly w); [done|]. by case_bool_decide. }
  unfold backedUp, backupPossible. rewrite Hfile.
  destruct (readonly w) eqn:R.
  { split; [by intros [? _]|]. split; [by intros [? _]|done]. }
  case_bool_decide as D.
  { split; [by intros [_ ?]|]. split; [by intros [_ ?]|done]. }
  cbn [files Fs.set_files]. split; [done|]. split.
  - intros _ _. split; [apply lookup_insert_eq|].
    intros q Hq. by apply lookup_insert_ne.
  - intros Hno. by destruct Hno.
Qed.

(** The first note that matches is the only one, when keys are unique. *)
Lemma list_find_unique (loaded : list Note) (p : string) (l : Z) (i : nat)
    (old : Note) :
  uniqueKeys loaded → loaded !! i = Some old → NotesStorage.matches p l old →
  list_find (NotesStorage.matches p l) loaded = Some (i, old).
Proof.
  intros HU Hi Hm. apply list_find_Some. split; [done|]. split; [done|].
  intros j y Hj Hlt Hy.
  apply matches_key in Hm. apply matches_key in Hy.
  assert (j = i); [|lia].
  apply (NoDup_lookup (key <$> loaded) j i (p, l)); [done| |].
  - by rewrite list_lookup_fmap, Hj, <- Hy.
  - by rewrite list_lookup_fmap, Hi, <- Hm.
Qed.

(** C2.  From a store whose keys are unique, every run of operations
    (load, upsert, delete, the queries) and of changes that leave the
    notes file alone ends in a store whose keys are unique; the
    collections the queries return have unique keys; the validation of
    the load keeps the keys of the persisted array unique.  An upsert
    that finds a note with its key puts the new note at the index of
    that note, the length and every other index unchanged; and that is
    what [addOrUpdateNote] does: where the loaded collection has a note
    for the canonical path and the line, at index [i], the collection
    it hands to [saveNotes] is the loaded one with the new note at [i]
    and nothing appended, which on a disk that takes the write is what
    the notes file then holds; where it has none, the new note is
    appended. *)
Theorem store_keys_stay_unique (w : World) :
  Unique w →
  (∀ w', rtc StoreStep w w' → Unique w')
  ∧ (∀ p ns w', NotesStorage.getNotesForFile p w = (Ok ns, w') → uniqueKeys ns)
  ∧ (∀ ns w', NotesStorage.getAllNotesSorted w = (Ok ns, w') → uniqueKeys ns)
  ∧ (∀ persisted,
       NoDup (storedKey <$> filter (λ note, NotesStorage.isValidNote note) persisted) →
       uniqueKeys (NotesStorage.sanitizeNotes persisted))
  ∧ (∀ loaded newNote i old,
       list_find (NotesStorage.matches (filePath newNote) (line newNote)) loaded
       = Some (i, old) →
       NotesStorage.upsertInto loaded newNote = <[i := newNote]> loaded
       ∧ length (NotesStorage.upsertInto loaded newNote) = length loaded
       ∧ ∀ j, j ≠ i → NotesStorage.upsertInto loaded newNote !! j = loaded !! j)
  ∧ (∀ p l t, ∃ d w1 w2,
       let newNote := {| filePath := path_resolve p; line := l;
                         text := Js.trim t;
                         timestamp := toISOString (now w) |} in
       NotesStorage.loadNotes w = (Ok d, w1)
       ∧ NotesStorage.addOrUpdateNote p l t w = (Ok true, w2)
       ∧ (∀ i old,
            notes d !! i = Some old →
            NotesStorage.matches (path_resolve p) l old →
            NotesStorage.saveNotes {| notes := <[i := newNote]> (notes d) |} w1
            = (Ok tt, w2)
            ∧ <[i := newNote]> (notes d) !! i = Some newNote
            ∧ length (<[i := newNote]> (notes d)) = length (notes d)
            ∧ (∀ j, j ≠ i → <[i := newNote]> (notes d) !! j = notes d !! j)
            ∧ uniqueKeys (<[i := newNote]> (notes d))
            ∧ (DiskOk w →
               files w2 !! notesFilePath
               = Some (JSON_stringify
                         (json_of_NotesData
                            {| notes := <[i := newNote]> (notes d) |}))))
       ∧ (Forall (λ n, ¬ NotesStorage.matches (path_resolve p) l n) (notes d) →
          NotesStorage.saveNotes {| notes := notes d ++ [newNote] |} w1
          = (Ok tt, w2)
          ∧ (DiskOk w →
             files w2 !! notesFilePath
             = Some (JSON_stringify
                       (json_of_NotesData
                          {| notes := notes d ++ [newNote] |}))))).
Proof.
  intros HU. split; [|split; [|split; [|split; [|split]]]].
  - intros w' Hsteps. by eapply Unique_steps.
  - intros p ns w'. rewrite getNotesForFile_spec. intros [= <- _].
    apply uniqueKeys_filter. by apply Unique_loaded.
  - intros ns w'. rewrite getAllNotesSorted_spec. intros [= <- _].
    unfold uniqueKeys. rewrite sortBy_perm. by apply Unique_loaded.
  - intros persisted Hp. unfold uniqueKeys. by rewrite sanitizeNotes_keys.
  - intros loaded newNote i old Hfind. unfold NotesStorage.upsertInto.
    rewrite Hfind. split; [done|]. split; [apply length_insert|].
    intros j Hj. by apply list_lookup_insert_ne.
  - intros p l t. apply Unique_loaded in HU.
    set (loaded := notes (fst (loadOutcome w))) in *.
    set (newNote := newNoteAt p l t (now w)).
    destruct (saveNotes_returns
                {| notes := NotesStorage.upsertInto loaded newNote |}
                (snd (loadOutcome w))) as [w2 Hsave].
    exists (fst (loadOutcome w)), (snd (loadOutcome w)), w2.
    cbv zeta. fold loaded. change (mkNote _ _ _ _) with newNote.
    split; [apply loadNotes_spec|].
    split; [by rewrite addOrUpdateNote_spec; fold loaded newNote; rewrite Hsave|].
    split.
    + intros i old Hi Hm.
      assert (NotesStorage.upsertInto loaded newNote = <[i := newNote]> loaded)
        as Hup.
      { unfold NotesStorage.upsertInto.
        change (filePath newNote) with (path_resolve p).
        change (line newNote) with l.
        by rewrite (list_find_unique loaded _ _ i old HU Hi Hm). }
      rewrite <- Hup. split; [exact Hsave|].
      rewrite Hup. split.
      { apply list_lookup_insert_eq. by eapply lookup_lt_Some. }
      split; [apply length_insert|].
      split; [intros j Hj; by apply list_lookup_insert_ne|].
      split.
      { rewrite <- Hup. apply upsertInto_unique; [apply newNoteAt_canonical|done]. }
      intros HD. rewrite <- Hup.
      rewrite (saveNotes_ok _ _ (DiskOk_loadOutcome w HD)) in Hsave.
      injection Hsave as <-. apply files_saved.
    + intros Hnone.
      assert (NotesStorage.upsertInto loaded newNote = loaded ++ [newNote]) as <-.
      2:{ split; [exact Hsave|]. intros HD.
          rewrite (saveNotes_ok _ _ (DiskOk_loadOutcome w HD)) in Hsave.
          injection Hsave as <-. apply files_saved. }
      unfold NotesStorage.upsertInto.
      change (filePath newNote) with (path_resolve p).
      change (line newNote) with l.
      destruct (list_find _ loaded) as [[i old]|] eqn:E; [|done].
      apply list_find_Some in E as (Hi & Hm & _).
      rewrite Forall_forall in Hnone. exfalso.
      apply (Hnone old); [|done]. by eapply list_elem_of_lookup_2.
Qed.

End claims_1_2.

(** C3: the code does not do what the claim says.  On a read-only disk
    the save of the sample call fails (the notes file is not created and
    the error is shown), and [addOrUpdateNote] answers [true]. *)
Theorem addOrUpdateNote_true_on_failed_save :
  let w := {| files := ∅; dirs := {["/ext/bubulle-notes"]}; readonly := true;
              now := 5; shown := [] |} in
  ∃ w', NotesStorage.addOrUpdateNote "./a.ts" 4 "fix this" w = (Ok true, w')
        ∧ files w' !! notesFilePath = None
        ∧ shown w' = [ErrorMessage
                        (UI_STRINGS.SAVE_ERROR +:+ ": " +:+ "Error: EROFS")].
Proof. eexists. split; [vm_compute; reflexivity|]. split; reflexivity. Qed.

Section claims_4_10.
Context `{Host} `{!HostLaws}.

(** C4, amended.  On a disk that takes the writes and a store whose
    keys are unique, [upsert(p, l, t1)] followed, at any later time, by
    [upsert(p, l, t2)] leaves a collection in the notes file with
    exactly one note for [(canonical p, l)]: its text is the trimmed
    [t2] and its timestamp the one of the second call.  For a line that
    is not negative and a text that is not blank, this collection is
    what [loadNotes] then returns. *)
Theorem upsert_twice_one_note (w : World) (p : string) (l : Z)
    (t1 t2 : string) (time2 : Z) :
  DiskOk w → Unique w →
  ∃ w1 w2 d,
    NotesStorage.addOrUpdateNote p l t1 w = (Ok true, w1)
    ∧ NotesStorage.addOrUpdateNote p l t2 (tick time2 w1) = (Ok true, w2)
    ∧ files w2 !! notesFilePath = Some (JSON_stringify (json_of_NotesData d))
    ∧ filter (NotesStorage.matches (path_resolve p) l) (notes d)
      = [ {| filePath := path_resolve p; line := l;
             text := Js.trim t2; timestamp := toISOString time2 |} ]
    ∧ (0 ≤ l → Js.trim t2 ≠ "" →
       ∃ w3, NotesStorage.loadNotes w2 = (Ok d, w3)).
Proof.
  intros HD HU. apply Unique_loaded in HU.
  set (d0 := notes (fst (loadOutcome w))) in *.
  set (d1 := NotesStorage.upsertInto d0 (newNoteAt p l t1 (now w))).
  set (w1 := saved {| notes := d1 |} (snd (loadOutcome w))).
  assert (DiskOk (tick time2 w1)) as HD1 by apply (DiskOk_loadOutcome w HD).
  assert (loadOutcome (tick time2 w1)
          = ({| notes := renorm d1 |}, tick time2 w1)) as Hload1.
  { apply (loadOutcome_holding {| notes := d1 |}). apply lookup_insert_eq. }
  set (new2 := newNoteAt p l t2 time2).
  set (d2 := NotesStorage.upsertInto (renorm d1) new2).
  exists w1, (saved {| notes := d2 |} (tick time2 w1)), {| notes := d2 |}.
  assert (uniqueKeys d2) as Hu2.
  { apply upsertInto_unique; [apply newNoteAt_canonical|].
    apply uniqueKeys_renorm, upsertInto_unique; [apply newNoteAt_canonical|done]. }
  split; [by apply addOrUpdateNote_ok|].
  split; [by rewrite (addOrUpdateNote_ok _ _ _ _ HD1), Hload1|].
  split; [apply lookup_insert_eq|].
  split.
  - cbn [notes].
    rewrite (list_filter_iff _ (λ m, key m = key new2))
      by (intros m; apply matches_newNoteAt).
    apply uniqueKeys_only_one; [done|apply upsertInto_elem].
  - intros Hl Ht. eexists. rewrite loadNotes_spec.
    rewrite (loadOutcome_holding {| notes := d2 |}) by apply lookup_insert_eq.
    cbn [fst snd notes]. rewrite renorm_normal; [done|].
    apply upsertInto_Forall; [apply renorm_all_normal|].
    unfold normal, new2, newNoteAt. cbn.
    repeat split; [apply path_resolve_idem|apply trim_idem|done|].
    apply truthy_len. destruct (Js.trim t2); done.
Qed.

(** C5.  [deleteNote] loads the collection.  If no note matches the
    canonical path and the line, it answers [false] and the world is the
    one the load left: nothing is saved, the notes file is as it was.
    If a note matches, it answers [true] after saving the collection
    without the matching notes; on a disk that takes the write, that
    collection is what [loadNotes] then returns. *)
Theorem deleteNote_found_or_not (w : World) (p : string) (l : Z) :
  ∃ d w1,
    NotesStorage.loadNotes w = (Ok d, w1)
    ∧ (Forall (λ n, ¬ NotesStorage.matches (path_resolve p) l n) (notes d) →
       NotesStorage.deleteNote p l w = (Ok false, w1)
       ∧ files w1 !! notesFilePath = files w !! notesFilePath)
    ∧ (Exists (NotesStorage.matches (path_resolve p) l) (notes d) →
       let kept := filter (λ n, ¬ NotesStorage.matches (path_resolve p) l n)
                     (notes d) in
       ∃ w2,
         NotesStorage.deleteNote p l w = (Ok true, w2)
         ∧ NotesStorage.saveNotes {| notes := kept |} w1 = (Ok tt, w2)
         ∧ Forall (λ n, ¬ NotesStorage.matches (path_resolve p) l n) kept
         ∧ (∀ n, n ∈ notes d → ¬ NotesStorage.matches (path_resolve p) l n →
                 n ∈ kept)
         ∧ (DiskOk w →
            ∃ w3, NotesStorage.loadNotes w2 = (Ok {| notes := kept |}, w3))).
Proof.
  exists (fst (loadOutcome w)), (snd (loadOutcome w)).
  split; [apply loadNotes_spec|]. rewrite deleteNote_spec. unfold remaining.
  split.
  - intros Hnone. rewrite bool_decide_eq_true_2 by by apply length_filter_all.
    split; [done|apply loadOutcome_notes_file].
  - intros Hsome.
    set (kept := filter (λ n, ¬ NotesStorage.matches (path_resolve p) l n)
                   (notes (fst (loadOutcome w)))).
    rewrite bool_decide_eq_false_2.
    2:{ intros Hall. apply length_filter_all in Hall.
        apply Exists_exists in Hsome as (n & Hn & Hm).
        rewrite Forall_forall in Hall. by apply (Hall n Hn). }
    destruct (saveNotes_returns {| notes := kept |} (snd (loadOutcome w)))
      as [w2 Hsave].
    exists w2. rewrite Hsave. cbn [snd].
    split; [done|]. split; [done|]. split.
    { apply Forall_forall. by intros n [? _]%list_elem_of_filter. }
    split.
    { intros n Hn Hm. by apply list_elem_of_filter. }
    intros HD. rewrite (saveNotes_ok _ _ (DiskOk_loadOutcome w HD)) in Hsave.
    injection Hsave as <-. eexists. rewrite loadNotes_spec.
    rewrite (loadOutcome_holding {| notes := kept |}) by apply lookup_insert_eq.
    cbn [fst snd]. rewrite renorm_normal; [done|].
    apply Forall_forall. intros n [_ Hn]%list_elem_of_filter.
    pose proof (loaded_normal w) as Hall. rewrite Forall_forall in Hall. by apply Hall.
Qed.

(** C6.  For an editor whose document has [lineCount] lines, the
    decorations set are, in order, those of the stored notes of the
    path whose line is in [[0, lineCount)], and only those; a note of
    the path with a line at or beyond [lineCount] gets no decoration,
    and it is still in the store: [getAllNotesSorted], called after the
    rendering, returns it. *)
Theorem stale_notes_hidden_not_removed (w : World) (editor : TextEditor)
    (filePath_ : string) :
  ∃ stored decorations w',
    NotesStorage.getNotesForFile filePath_ w = (Ok stored, w')
    ∧ DecorationManager.updateDecorationsForEditor editor filePath_ w
      = (Ok (Some decorations), w')
    ∧ DecorationManager.rangeLine <$> decorations
      = line <$> DecorationManager.filterValidNotes stored editor
    ∧ (∀ n, n ∈ DecorationManager.filterValidNotes stored editor
            ↔ n ∈ stored ∧ 0 ≤ line n ∧ line n < lineCount editor)
    ∧ (∀ n, n ∈ stored → lineCount editor ≤ line n →
         (n ∉ DecorationManager.filterValidNotes stored editor)
         ∧ (line n ∉ DecorationManager.rangeLine <$> decorations)
         ∧ ∃ sorted w'',
             NotesStorage.getAllNotesSorted w' = (Ok sorted, w'')
             ∧ n ∈ sorted).
Proof.
  set (stored := filter (λ note, path_resolve (filePath note) = path_resolve filePath_)
                   (notes (fst (loadOutcome w)))).
  destruct (createDecorations_inside
              (DecorationManager.filterValidNotes stored editor) editor
              (snd (loadOutcome w))) as (ds & Hds & Hlines).
  { apply Forall_forall. by intros n [? _]%list_elem_of_filter. }
  exists stored, ds, (snd (loadOutcome w)).
  split; [apply getNotesForFile_spec|].
  split.
  { unfold DecorationManager.updateDecorationsForEditor, try_catch.
    unfold bind at 1. rewrite getNotesForFile_spec. fold stored.
    unfold bind. by rewrite Hds. }
  split; [done|]. split.
  { intros n. unfold DecorationManager.filterValidNotes.
    rewrite list_elem_of_filter. tauto. }
  intros n Hn Hstale.
  assert (n ∉ DecorationManager.filterValidNotes stored editor) as Hout.
  { intros [[_ ?] _]%list_elem_of_filter. lia. }
  split; [done|]. split.
  { rewrite Hlines. intros (m & Hm & [[_ ?] _]%list_elem_of_filter)%list_elem_of_fmap.
    lia. }
  eexists _, _. split; [apply getAllNotesSorted_spec|].
  rewrite sortBy_perm.
  rewrite (loadOutcome_ext _ w (loadOutcome_notes_file w)).
  by apply list_elem_of_filter in Hn as [_ Hn].
Qed.

(** C7.  [formatTextForDisplay] is the greedy wrap.  A word joins the
    current line exactly when the length of the line, the length of the
    word and one more fit in the width, and otherwise the current line
    is flushed and the word starts the next one; a flush puts a line
    that is not empty behind the lines.  The lines are what this step,
    taken over the words of the text in their order, and a last flush
    leave, which is the greedy wrap of the words; the text returned is
    the lines joined by line feeds.  Every line is at most as long as
    the width, except a line that is a single word of the text longer
    than the width, alone on its line and unbroken.  And every
    character of the text that is not a space or a line feed is in the
    text returned, in its place. *)
Theorem formatTextForDisplay_greedy_wrap (text_ : string) (w : Z) :
  (∀ lines currentLine word,
     (Js.len currentLine + Js.len word + 1 ≤ w →
      TextUtils.wrapStep w (lines, currentLine) word
      = (lines, currentLine +:+ (if Js.truthy currentLine then " " else "") +:+ word))
     ∧ (w < Js.len currentLine + Js.len word + 1 →
        TextUtils.wrapStep w (lines, currentLine) word
        = (TextUtils.flush lines currentLine, word))
     ∧ (currentLine ≠ "" → TextUtils.flush lines currentLine = lines ++ [currentLine])
     ∧ TextUtils.flush lines "" = lines)
  ∧ TextUtils.formatTextForDisplay text_ w
    = Js.join (String (Ascii.ascii_of_nat 10) "") (TextUtils.wrapLines text_ w)
  ∧ (let st := fold_left (TextUtils.wrapStep w) (Js.split " " text_) ([], "") in
     TextUtils.wrapLines text_ w = TextUtils.flush (fst st) (snd st))
  ∧ TextUtils.wrapLines text_ w = greedyWrap w "" (Js.split " " text_)
  ∧ (∀ l, l ∈ TextUtils.wrapLines text_ w →
       Js.len l ≤ w ∨ (l ∈ Js.split " " text_ ∧ w < Js.len l))
  ∧ inked (TextUtils.formatTextForDisplay text_ w) = inked text_.
Proof.
  split; [|split; [|split; [|split; [|split]]]].
  - intros lines cur word. unfold TextUtils.wrapStep.
    split; [|split; [|split]].
    + intros Hcmp.
      destruct (Z.leb_spec (Js.len cur + Js.len word + 1) w); [done|lia].
    + intros Hcmp.
      destruct (Z.leb_spec (Js.len cur + Js.len word + 1) w); [lia|done].
    + intros Hcur. unfold TextUtils.flush. by destruct cur.
    + done.
  - unfold TextUtils.formatTextForDisplay.
    destruct text_ as [|c rest]; [|done].
    cbn [Js.truthy negb]. by rewrite wrapLines_empty.
  - unfold TextUtils.wrapLines.
    by destruct (fold_left _ _ _) as [lines cur].
  - apply wrapLines_greedy.
  - intros l Hl. pose proof (wrapLines_ok text_ w) as Hall.
    rewrite Forall_forall in Hall. by apply Hall.
  - apply formatTextForDisplay_inked.
Qed.

(** C8, amended.  Every note [loadNotes] returns has a text that is
    trimmed and not empty; the note [addOrUpdateNote] hands to
    [saveNotes] has the trimmed form of the text it was given, whatever
    that is.  (No length is checked, and the write path accepts a text
    that trims to nothing.) *)
Theorem store_texts_are_trimmed (w : World) :
  (∀ d w', NotesStorage.loadNotes w = (Ok d, w') →
     ∀ n, n ∈ notes d → Js.trim (text n) = text n ∧ text n ≠ "")
  ∧ (∀ p l t, ∃ d w1 w2 newNote,
       NotesStorage.loadNotes w = (Ok d, w1)
       ∧ NotesStorage.addOrUpdateNote p l t w = (Ok true, w2)
       ∧ NotesStorage.saveNotes
           {| notes := NotesStorage.upsertInto (notes d) newNote |} w1
         = (Ok tt, w2)
       ∧ newNote ∈ NotesStorage.upsertInto (notes d) newNote
       ∧ filePath newNote = path_resolve p ∧ line newNote = l
       ∧ text newNote = Js.trim t
       ∧ Js.trim (text newNote) = text newNote).
Proof.
  split.
  - intros d w'. rewrite loadNotes_spec. intros [= <- _] n.
    unfold loadOutcome.
    destruct (files w !! notesFilePath) as [c|]; cbn [fmap option_fmap option_map];
      [|by intros ?%elem_of_nil].
    destruct (Js.trim c); [by intros ?%elem_of_nil|].
    destruct (JSON_parse _) as [v|]; [|by intros ?%elem_of_nil].
    destruct (NotesStorage.isValidNotesData v); [|by intros ?%elem_of_nil].
    apply sanitizeNotes_text.
  - intros p l t.
    exists (fst (loadOutcome w)), (snd (loadOutcome w)).
    destruct (saveNotes_returns
                {| notes := NotesStorage.upsertInto (notes (fst (loadOutcome w)))
                              (newNoteAt p l t (now w)) |}
                (snd (loadOutcome w))) as [w2 Hsave].
    exists w2, (newNoteAt p l t (now w)).
    split; [apply loadNotes_spec|].
    split; [by rewrite addOrUpdateNote_spec, Hsave|].
    split; [done|]. split; [apply upsertInto_elem|].
    cbn. repeat split. apply trim_idem.
Qed.

(** C9.  A selection event that repeats the recorded position leaves
    the handler as it is: it arms nothing and re-arms nothing.  A
    qualifying event at another position leaves exactly its own timer
    armed, whatever was armed before.  So after a qualifying mouse
    event, however many events arrive at the same position and whenever
    the timer fires among them, [onNoteClick] is called at most once;
    and any burst of selection events that arrive before the timer
    fires is followed by one call at most. *)
Theorem click_resolves_at_most_once (st : ClickHandler.State)
    (first : ClickHandler.SelectionChangeEvent)
    (rest : list ClickHandler.Action) (w : World) :
  qualifies first →
  Forall (quiet (Some (position first))) rest →
  (∀ st0 event,
     ClickHandler.lastClickPosition st0 = Some (position event) →
     ClickHandler.selectionHandler event st0 = st0)
  ∧ (∀ st0 event editor,
       qualifies event → ClickHandler.textEditor event = Some editor →
       ClickHandler.lastClickPosition st0 ≠ Some (position event) →
       ClickHandler.clickTimeout (ClickHandler.selectionHandler event st0)
       = Some {| ClickHandler.delay := DEFAULT_CONFIG.CLICK_DEBOUNCE_TIME;
                 ClickHandler.capturedEditor := editor;
                 ClickHandler.capturedLine := fst (position event);
                 ClickHandler.capturedCharacter := snd (position event) |})
  ∧ (∃ calls st' w',
       ClickHandler.run (ClickHandler.SelectionChanged first :: rest) st w
       = (Ok (calls, st'), w')
       ∧ (length calls ≤ 1)%nat)
  ∧ (∀ events fires, ∃ calls st' w',
       ClickHandler.run
         ((ClickHandler.SelectionChanged <$> events)
          ++ replicate fires ClickHandler.TimerFired) st w
       = (Ok (calls, st'), w')
       ∧ (length calls ≤ 1)%nat).
Proof.
  intros Hq Hrest.
  split; [intros; by apply selectionHandler_repeat|].
  split; [intros; by apply selectionHandler_arms|].
  split; [|intros; apply run_burst].
  destruct (run_quiet rest (ClickHandler.selectionHandler first st) w)
    as (calls & st' & w' & Hr & Hlen).
  { by rewrite selectionHandler_records. }
  exists calls, st', w'. cbn [ClickHandler.run ClickHandler.step].
  unfold bind, ret at 1. cbn [fst snd]. rewrite Hr. split; [done|].
  pose proof (armed_le_1 (ClickHandler.selectionHandler first st)). lia.
Qed.

(** C10.  When the notes file is there and holds nothing but white
    space (or nothing at all), [loadNotes] returns the empty collection
    and leaves the world as it was: no backup is made and no warning is
    shown.  That is what it does when there is no notes file. *)
Theorem loadNotes_blank_file (w : World) (content : string) :
  files w !! notesFilePath = Some content →
  blank content = true →
  NotesStorage.loadNotes w = (Ok NotesStorage.emptyNotes, w)
  ∧ (∀ w0, files w0 !! notesFilePath = None →
           NotesStorage.loadNotes w0 = (Ok NotesStorage.emptyNotes, w0)).
Proof.
  intros Hfile Hblank. split.
  - rewrite loadNotes_spec. unfold loadOutcome.
    rewrite Hfile. cbn [fmap option_fmap option_map].
    by rewrite (trim_blank _ Hblank).
  - intros w0 Hnone. rewrite loadNotes_spec. unfold loadOutcome.
    by rewrite Hnone.
Qed.

End claims_4_10.

(* ================================================================== *)
(** * Part V. The claims on the sample host *)
(* ================================================================== *)

Ltac by_computing := apply (bool_decide_unpack _); vm_compute; exact I.

(** ** The program at work *)

Example split_keeps_empty_words :
  Js.split " " "fix this  now" = ["fix"; "this"; ""; "now"].
Proof. reflexivity. Qed.

Example trim_both_ends : Js.trim "  fix this  " = "fix this".
Proof. reflexivity. Qed.

Example wrap_at_5 :
  TextUtils.wrapLines "aa bb cc dddddddd e" 5 = ["aa bb"; "cc"; "dddddddd"; "e"].
Proof. reflexivity. Qed.

Example sort_by_file_then_line :
  sortBy NotesStorage.compareNotes
    [ mkNote "/work/b.ts" 1 "x" "1"; mkNote "/work/a.ts" 7 "y" "2";
      mkNote "/work/a.ts" 3 "z" "3" ]
  = [ mkNote "/work/a.ts" 3 "z" "3"; mkNote "/work/a.ts" 7 "y" "2";
      mkNote "/work/b.ts" 1 "x" "1" ].
Proof. vm_compute. reflexivity. Qed.

Example add_edit_delete :
  let w1 := snd (NotesStorage.addOrUpdateNote "./a.ts" 4 "fix this"
                   (Sample.emptyDisk 5)) in
  let w2 := snd (NotesStorage.addOrUpdateNote "./a.ts" 4 "fix this better"
                   (tick 9 w1)) in
  fst (NotesStorage.loadNotes w2)
  = Ok {| notes := [ mkNote "/work/a.ts" 4 "fix this better" "9" ] |}
  ∧ fst (NotesStorage.deleteNote "a.ts" 7 w2) = Ok false
  ∧ fst (NotesStorage.deleteNote "a.ts" 4 w2) = Ok true
  ∧ fst (NotesStorage.loadNotes (snd (NotesStorage.deleteNote "a.ts" 4 w2)))
    = Ok NotesStorage.emptyNotes.
Proof. repeat split; vm_compute; reflexivity. Qed.

(** ** The claims *)

Lemma emptyDisk_ok (t : Z) : DiskOk (Sample.emptyDisk t).
Proof. repeat split; by_computing. Qed.

Lemma emptyDisk_unique (t : Z) : Unique (Sample.emptyDisk t).
Proof.
  intros d w'. rewrite loadNotes_spec. intros [= <- _]. apply NoDup_nil_2.
Qed.

Lemma oneNote_ok : DiskOk oneNote.
Proof. by_computing. Qed.

Lemma oneNote_unique : Unique oneNote.
Proof.
  apply (Unique_step (Sample.emptyDisk 5)); [apply step_upsert|].
  apply emptyDisk_unique.
Qed.

(** Witness of C1: on a notes file that holds [oops] at time 5 the
    load returns the empty collection and the one new file is the
    backup. *)
Lemma loadNotes_damaged_file_witness :
  ∃ w', NotesStorage.loadNotes (Sample.diskWith "oops" 5)
        = (Ok NotesStorage.emptyNotes, w')
        ∧ files w' !! sampleBackup5 = Some "oops"
        ∧ ∀ q, q ≠ sampleBackup5 →
               files w' !! q = files (Sample.diskWith "oops" 5) !! q.
Proof.
  destruct (loadNotes_damaged_file (Sample.diskWith "oops" 5) "oops")
    as (w' & Hload & _ & Hnew & _).
  - reflexivity.
  - split; [done|]. left. reflexivity.
  - exists w'. split; [exact Hload|]. apply Hnew.
    + split; [reflexivity|by_computing].
    + reflexivity.
Defined.

(** Counterexample to C1 as stated, in three ways.  A backup made at
    the same millisecond is overwritten and no file is new; on a
    read-only disk no backup is made; and a blank notes file, which does
    not parse, is not backed up either. *)
Lemma loadNotes_backup_not_always_one_new_file :
  (let w := {| files := {[ sampleNotesFile := "oops";
                           sampleBackup5 := "an older backup" ]};
               dirs := {["/ext/bubulle-notes"]};
               readonly := false; now := 5; shown := [] |} in
   let w' := snd (NotesStorage.loadNotes w) in
   JSON_parse "oops" = None
   ∧ fst (NotesStorage.loadNotes w) = Ok NotesStorage.emptyNotes
   ∧ files w !! sampleBackup5 = Some "an older backup"
   ∧ files w' = <[sampleBackup5 := "oops"]> (files w)
   ∧ dom (files w') = dom (files w))
  ∧ (let w := {| files := {[ sampleNotesFile := "oops" ]};
                 dirs := {["/ext/bubulle-notes"]};
                 readonly := true; now := 5; shown := [] |} in
     fst (NotesStorage.loadNotes w) = Ok NotesStorage.emptyNotes
     ∧ files (snd (NotesStorage.loadNotes w)) = files w)
  ∧ (JSON_parse "   " = None
     ∧ NotesStorage.loadNotes (Sample.diskWith "   " 5)
       = (Ok NotesStorage.emptyNotes, Sample.diskWith "   " 5)).
Proof.
  split; [|split].
  - repeat split; vm_compute; reflexivity.
  - split; vm_compute; reflexivity.
  - split; vm_compute; reflexivity.
Qed.

(** Witness of C2: an upsert on the note of line 4, under another
    spelling of its path.  The note is replaced where it was, the notes
    file holds one note, and the keys are unique. *)
Lemma store_keys_stay_unique_witness :
  ∃ w2,
    NotesStorage.addOrUpdateNote "/work/a.ts" 4 "fix this better" oneNote
    = (Ok true, w2)
    ∧ files w2 !! sampleNotesFile
      = Some (JSON_stringify (json_of_NotesData
                {| notes := [ mkNote "/work/a.ts" 4 "fix this better" "5" ] |}))
    ∧ Unique w2.
Proof.
  destruct (store_keys_stay_unique oneNote oneNote_unique)
    as (Hsteps & _ & _ & _ & _ & Hupsert).
  destruct (Hupsert "/work/a.ts" 4 "fix this better")
    as (d & w1 & w2 & Hload & Hadd & Hfound & _).
  exists w2. split; [exact Hadd|].
  assert (d = {| notes := [ mkNote "/work/a.ts" 4 "fix this" "5" ] |}) as ->
    by (vm_compute in Hload; congruence).
  destruct (Hfound 0%nat (mkNote "/work/a.ts" 4 "fix this" "5") eq_refl)
    as (_ & _ & _ & _ & _ & Hfile); [split; reflexivity|].
  split; [exact (Hfile oneNote_ok)|].
  apply Hsteps.
  assert (w2 = snd (NotesStorage.addOrUpdateNote "/work/a.ts" 4
                      "fix this better" oneNote)) as ->
    by (by rewrite Hadd).
  apply rtc_once, step_upsert.
Defined.

(** Witness of C4: the scenario of the design document, the note
    [(./a.ts, 4, "fix this")] at time 5, then
    [(./a.ts, 4, "fix this better")] at time 9. *)
Lemma upsert_twice_one_note_witness :
  ∃ w1 w2 d,
    NotesStorage.addOrUpdateNote "./a.ts" 4 "fix this" (Sample.emptyDisk 5)
    = (Ok true, w1)
    ∧ NotesStorage.addOrUpdateNote "./a.ts" 4 "fix this better" (tick 9 w1)
      = (Ok true, w2)
    ∧ filter (NotesStorage.matches "/work/a.ts" 4) (notes d)
      = [ {| filePath := "/work/a.ts"; line := 4;
             text := "fix this better"; timestamp := "9" |} ]
    ∧ ∃ w3, NotesStorage.loadNotes w2 = (Ok d, w3).
Proof.
  destruct (upsert_twice_one_note (Sample.emptyDisk 5) "./a.ts" 4
              "fix this" "fix this better" 9 (emptyDisk_ok 5) (emptyDisk_unique 5))
    as (w1 & w2 & d & H1 & H2 & _ & Hone & Hload).
  exists w1, w2, d. split; [exact H1|]. split; [exact H2|].
  split; [exact Hone|]. apply Hload; [lia|discriminate].
Defined.

(** Counterexample to C4 as stated, on three stores.  A notes file
    that holds two notes for the key, which [loadNotes] accepts as it
    is: the two upserts replace the first and leave the second, so two
    notes have the key.  A second text that is blank: the note written
    is dropped by the next load, and none has the key.  A disk that
    cannot be written: nothing is stored. *)
Lemma upsert_twice_not_on_any_store :
  (let twice := {| notes := [ mkNote "/work/a.ts" 4 "one" "1";
                              mkNote "/work/a.ts" 4 "two" "2" ] |} in
   let w := Sample.diskWith (JSON_stringify (json_of_NotesData twice)) 5 in
   let w1 := snd (NotesStorage.addOrUpdateNote "./a.ts" 4 "fix this" w) in
   let w2 := snd (NotesStorage.addOrUpdateNote "./a.ts" 4 "fix this better"
                    (tick 9 w1)) in
   fst (NotesStorage.loadNotes w) = Ok twice
   ∧ fst (NotesStorage.addOrUpdateNote "./a.ts" 4 "fix this" w) = Ok true
   ∧ fst (NotesStorage.addOrUpdateNote "./a.ts" 4 "fix this better" (tick 9 w1))
     = Ok true
   ∧ fst (NotesStorage.loadNotes w2)
     = Ok {| notes := [ mkNote "/work/a.ts" 4 "fix this better" "9";
                        mkNote "/work/a.ts" 4 "two" "2" ] |})
  ∧ (let w1 := snd (NotesStorage.addOrUpdateNote "./a.ts" 4 "fix this"
                      (Sample.emptyDisk 5)) in
     let w2 := snd (NotesStorage.addOrUpdateNote "./a.ts" 4 "   " (tick 9 w1)) in
     fst (NotesStorage.addOrUpdateNote "./a.ts" 4 "   " (tick 9 w1)) = Ok true
     ∧ fst (NotesStorage.loadNotes w2) = Ok NotesStorage.emptyNotes)
  ∧ (let w := {| files := ∅; dirs := {["/ext/bubulle-notes"]}; readonly := true;
                 now := 5; shown := [] |} in
     let w1 := snd (NotesStorage.addOrUpdateNote "./a.ts" 4 "fix this" w) in
     let w2 := snd (NotesStorage.addOrUpdateNote "./a.ts" 4 "fix this better"
                      (tick 9 w1)) in
     fst (NotesStorage.loadNotes w2) = Ok NotesStorage.emptyNotes).
Proof.
  split; [|split].
  - repeat split; vm_compute; reflexivity.
  - split; vm_compute; reflexivity.
  - vm_compute. reflexivity.
Qed.

(** Witness of C5: deleting the note of line 4 that was just added. *)
Lemma deleteNote_found_or_not_witness :
  let w := snd (NotesStorage.addOrUpdateNote "./a.ts" 4 "fix this"
                  (Sample.emptyDisk 5)) in
  ∃ w2 w3,
    NotesStorage.deleteNote "./a.ts" 4 w = (Ok true, w2)
    ∧ NotesStorage.loadNotes w2 = (Ok NotesStorage.emptyNotes, w3).
Proof.
  intros w.
  destruct (deleteNote_found_or_not w "./a.ts" 4)
    as (d & w1 & Hload & _ & Hfound).
  assert (d = {| notes := [ {| filePath := "/work/a.ts"; line := 4;
                               text := "fix this"; timestamp := "5" |} ] |})
    as -> by (vm_compute in Hload; congruence).
  destruct Hfound as (w2 & Hdel & _ & _ & _ & Hreload).
  - apply Exists_cons_hd. split; reflexivity.
  - destruct Hreload as [w3 Hw3].
    + assert (w = saved {| notes := NotesStorage.upsertInto []
                             (newNoteAt "./a.ts" 4 "fix this" 5) |}
                        (Sample.emptyDisk 5)) as ->
        by (unfold w; by rewrite (addOrUpdateNote_ok _ _ _ _ (emptyDisk_ok 5))).
      apply (emptyDisk_ok 5).
    + exists w2, w3. split; [exact Hdel|exact Hw3].
Defined.

(** The notes file after an upsert into the empty sample disk. *)
Lemma upsert_into_emptyDisk (p : string) (l : Z) (t : string) (time : Z) :
  ∃ w', NotesStorage.addOrUpdateNote p l t (Sample.emptyDisk time) = (Ok true, w')
        ∧ files w' !! sampleNotesFile
          = Some (JSON_stringify (json_of_NotesData
                    {| notes := [ {| filePath := path_resolve p; line := l;
                                     text := Js.trim t;
                                     timestamp := toISOString time |} ] |})).
Proof.
  eexists. rewrite (addOrUpdateNote_ok _ _ _ _ (emptyDisk_ok time)).
  split; [reflexivity|].
  assert (loadOutcome (Sample.emptyDisk time)
          = (NotesStorage.emptyNotes, Sample.emptyDisk time)) as ->
    by reflexivity.
  change sampleNotesFile with (@notesFilePath Sample.host).
  by rewrite files_saved.
Qed.

(** Counterexample to C8 as stated: a stored note with a text of 1001
    characters passes the validation of the load and is returned with
    all of them; the write path stores such a text too; and it stores
    the empty text that a blank input trims to. *)
Lemma store_accepts_long_and_empty_texts :
  (let long := repeatChar 1001 "a" in
   let note := JObj (<["filePath" := JStr "/work/a.ts"]>
                    (<["line" := JNum 4]>
                    (<["text" := JStr long]>
                    (<["timestamp" := JStr "5"]> ∅)))) in
   NotesStorage.isValidNote note = true
   ∧ (text <$> NotesStorage.sanitizeNotes [note]) = [long]
   ∧ DEFAULT_CONFIG.MAX_NOTE_LENGTH < Js.len long
   ∧ ∃ w',
       NotesStorage.addOrUpdateNote "./a.ts" 4 long (Sample.emptyDisk 5)
       = (Ok true, w')
       ∧ files w' !! sampleNotesFile
         = Some (JSON_stringify (json_of_NotesData
                   {| notes := [ {| filePath := "/work/a.ts"; line := 4;
                                    text := long; timestamp := "5" |} ] |})))
  ∧ ∃ w',
      NotesStorage.addOrUpdateNote "./a.ts" 4 "   " (Sample.emptyDisk 5)
      = (Ok true, w')
      ∧ files w' !! sampleNotesFile
        = Some (JSON_stringify (json_of_NotesData
                  {| notes := [ {| filePath := "/work/a.ts"; line := 4;
                                   text := ""; timestamp := "5" |} ] |})).
Proof.
  split.
  - intros long note.
    split; [vm_compute; reflexivity|].
    split; [vm_compute; reflexivity|].
    split; [vm_compute; reflexivity|].
    destruct (upsert_into_emptyDisk "./a.ts" 4 long 5) as (w' & Hup & Hfile).
    exists w'. split; [exact Hup|].
    rewrite Hfile. do 5 f_equal.
  - apply (upsert_into_emptyDisk "./a.ts" 4 "   " 5).
Qed.

(** Witness of C9: a click at line 4, column 15 of a document whose
    line 4 has a note, repeated once before the timer fires. *)
Lemma click_resolves_at_most_once_witness :
  let editor := {| fsPath := "/work/a.ts";
                   docLines := ["l0"; "l1"; "l2"; "l3"; "const four = 4;"] |} in
  let click := {| ClickHandler.textEditor := Some editor;
                  ClickHandler.selection :=
                    {| ClickHandler.isEmpty := true;
                       ClickHandler.activeLine := 4;
                       ClickHandler.activeCharacter := 15 |};
                  ClickHandler.kind := Some ClickHandler.Mouse |} in
  let w := snd (NotesStorage.addOrUpdateNote "./a.ts" 4 "fix this"
                  (Sample.emptyDisk 5)) in
  ∃ calls st' w',
    ClickHandler.run
      [ClickHandler.SelectionChanged click; ClickHandler.SelectionChanged click;
       ClickHandler.TimerFired]
      ClickHandler.initial w
    = (Ok (calls, st'), w')
    ∧ (length calls ≤ 1)%nat.
Proof.
  intros editor click w.
  apply (click_resolves_at_most_once ClickHandler.initial click
           [ClickHandler.SelectionChanged click; ClickHandler.TimerFired] w).
  - repeat split. by eexists.
  - apply Forall_cons_2; [right; by exists click|].
    apply Forall_cons_2; [by left|]. apply Forall_nil_2.
Defined.

(** Witness of C10: a notes file of three spaces. *)
Lemma loadNotes_blank_file_witness :
  NotesStorage.loadNotes (Sample.diskWith "   " 5)
  = (Ok NotesStorage.emptyNotes, Sample.diskWith "   " 5).
Proof.
  destruct (loadNotes_blank_file (Sample.diskWith "   " 5) "   ") as [Hload _].
  - reflexivity.
  - reflexivity.
  - exact Hload.
Defined.

Example click_resolves_once_example :
  let editor := {| fsPath := "/work/a.ts";
                   docLines := ["l0"; "l1"; "l2"; "l3"; "const four = 4;"] |} in
  let click := {| ClickHandler.textEditor := Some editor;
                  ClickHandler.selection :=
                    {| ClickHandler.isEmpty := true;
                       ClickHandler.activeLine := 4;
                       ClickHandler.activeCharacter := 15 |};
                  ClickHandler.kind := Some ClickHandler.Mouse |} in
  let w := snd (NotesStorage.addOrUpdateNote "./a.ts" 4 "fix this"
                  (Sample.emptyDisk 5)) in
  fst (ClickHandler.run
         [ClickHandler.SelectionChanged click; ClickHandler.SelectionChanged click;
          ClickHandler.TimerFired; ClickHandler.TimerFired]
         ClickHandler.initial w)
  = Ok ([("/work/a.ts", 4)],
        {| ClickHandler.clickTimeout := None;
           ClickHandler.lastClickPosition := Some (4, 15) |}).
Proof. vm_compute. reflexivity. Qed.

(* ================================================================== *)
(** * Part VI. Further properties of the code *)
(* ================================================================== *)

(** ** textUtils: previews, escapes, templates *)

Lemma append_nil_l (s : string) : "" +:+ s = s.
Proof. reflexivity. Qed.

Lemma length_append (a b : string) :
  String.length (a +:+ b) = (String.length a + String.length b)%nat.
Proof. pose proof (len_append a b) as E. unfold Js.len in E. lia. Qed.

Lemma substring_take_length (k : nat) (s : string) :
  String.length (String.substring 0 k s) = Nat.min k (String.length s).
Proof.
  revert s. induction k as [|k IH]; intros [|c s]; cbn; try done.
  by rewrite IH.
Qed.

Lemma substring_take_prefix (k : nat) (s : string) :
  ∃ dropped, s = String.substring 0 k s +:+ dropped.
Proof.
  revert s. induction k as [|k IH]; intros [|c s]; cbn.
  - by exists "".
  - by exists (String c s).
  - by exists "".
  - destruct (IH s) as [d Hd]. exists d. by rewrite append_cons, <- Hd.
Qed.

Lemma substring_take_app (a b : string) :
  String.substring 0 (String.length a) (a +:+ b) = a.
Proof.
  induction a as [|c a IH]; cbn.
  - by destruct b.
  - rewrite append_cons. cbn. by rewrite IH.
Qed.

Lemma substring_from_0 (s : string) (n : Z) :
  Js.substring s 0 n = String.substring 0 (Js.clampIndex s n) s.
Proof.
  unfold Js.substring.
  assert (Js.clampIndex s 0 = 0%nat) as ->.
  { unfold Js.clampIndex, Js.len. lia. }
  by rewrite Nat.min_0_l, Nat.max_0_l, Nat.sub_0_r.
Qed.

(** What is kept of a text that is longer than [maxLength]. *)
Lemma truncateText_long (text_ : string) (maxLength : Z) :
  maxLength < Js.len text_ →
  ∃ kept dropped,
    text_ = kept +:+ dropped
    ∧ Js.len kept = Z.max 0 maxLength
    ∧ TextUtils.truncateText text_ maxLength = kept +:+ "...".
Proof.
  intros Hlong. unfold TextUtils.truncateText.
  destruct (Z.leb_spec (Js.len text_) maxLength); [lia|].
  rewrite substring_from_0.
  destruct (substring_take_prefix (Js.clampIndex text_ maxLength) text_)
    as [dropped Hd].
  eexists _, dropped. split; [exact Hd|]. split; [|done].
  unfold Js.len. rewrite substring_take_length.
  unfold Js.clampIndex, Js.len in *. lia.
Qed.

(** X1.  [truncateText] returns a text that is not longer than
    [maxLength] as it is.  Of a longer text it keeps the first
    [maxLength] code units (none when [maxLength] is negative) and puts
    three dots behind them.  So the preview is at most [maxLength + 3]
    code units long: three more than the limit, and up to three more
    than a text that is just over it. *)
Theorem truncateText_preview (text_ : string) (maxLength : Z) :
  (Js.len text_ ≤ maxLength → TextUtils.truncateText text_ maxLength = text_)
  ∧ (maxLength < Js.len text_ →
     ∃ kept dropped,
       text_ = kept +:+ dropped
       ∧ Js.len kept = Z.max 0 maxLength
       ∧ TextUtils.truncateText text_ maxLength = kept +:+ "...")
  ∧ Js.len (TextUtils.truncateText text_ maxLength) ≤ Z.max 0 maxLength + 3.
Proof.
  split; [|split].
  - intros Hshort. unfold TextUtils.truncateText.
    destruct (Z.leb_spec (Js.len text_) maxLength); [done|lia].
  - apply truncateText_long.
  - destruct (Z.le_gt_cases (Js.len text_) maxLength) as [Hshort|Hlong].
    + unfold TextUtils.truncateText.
      destruct (Z.leb_spec (Js.len text_) maxLength); lia.
    + destruct (truncateText_long text_ maxLength Hlong)
        as (kept & dropped & _ & Hlen & ->).
      rewrite len_append, Hlen. unfold Js.len. cbn. lia.
Qed.

(** X2.  Truncating a preview again, to the same length, changes
    nothing. *)
Theorem truncateText_idempotent (text_ : string) (maxLength : Z) :
  TextUtils.truncateText (TextUtils.truncateText text_ maxLength) maxLength
  = TextUtils.truncateText text_ maxLength.
Proof.
  destruct (Z.le_gt_cases (Js.len text_) maxLength) as [Hshort|Hlong].
  { unfold TextUtils.truncateText.
    destruct (Z.leb_spec (Js.len text_) maxLength) as [_|?]; [|lia].
    destruct (Z.leb_spec (Js.len text_) maxLength); [done|lia]. }
  destruct (truncateText_long text_ maxLength Hlong)
    as (kept & dropped & _ & Hlen & ->).
  assert (Js.len (kept +:+ "...") = Z.max 0 maxLength + 3) as Hlen'.
  { rewrite len_append, Hlen. done. }
  unfold TextUtils.truncateText.
  destruct (Z.leb_spec (Js.len (kept +:+ "...")) maxLength); [lia|].
  rewrite substring_from_0. f_equal.
  assert (Js.clampIndex (kept +:+ "...") maxLength = String.length kept) as ->.
  { unfold Js.clampIndex. rewrite Hlen'. unfold Js.len in Hlen. lia. }
  apply substring_take_app.
Qed.

Lemma replaceAll_app (c : ascii) (by_ a b : string) :
  Js.replaceAll c by_ (a +:+ b) = Js.replaceAll c by_ a +:+ Js.replaceAll c by_ b.
Proof.
  induction a as [|x a IH]; [done|].
  rewrite append_cons. cbn [Js.replaceAll]. rewrite IH.
  case_bool_decide; [by rewrite append_assoc|by rewrite append_cons].
Qed.

Lemma escapeHtml_app (a b : string) :
  TextUtils.escapeHtml (a +:+ b) = TextUtils.escapeHtml a +:+ TextUtils.escapeHtml b.
Proof. unfold TextUtils.escapeHtml. by rewrite !replaceAll_app. Qed.

(** The five characters that have an entity, and the others. *)
Ltac split_char c :=
  destruct (decide (c = "&"%char)) as [->|?];
  [|destruct (decide (c = "<"%char)) as [->|?];
    [|destruct (decide (c = ">"%char)) as [->|?];
      [|destruct (decide (c = Ascii.ascii_of_nat 34)) as [->|?];
        [|destruct (decide (c = "'"%char)) as [->|?]]]]].

Lemma entity_plain (c : ascii) :
  c ≠ "&"%char → c ≠ "<"%char → c ≠ ">"%char → c ≠ Ascii.ascii_of_nat 34 →
  c ≠ "'"%char → entity c = String c "".
Proof.
  intros. unfold entity. by rewrite !bool_decide_eq_false_2 by done.
Qed.

Lemma escapeHtml_char (c : ascii) : TextUtils.escapeHtml (String c "") = entity c.
Proof.
  split_char c; try reflexivity.
  rewrite entity_plain by done.
  unfold TextUtils.escapeHtml. cbn [Js.replaceAll].
  rewrite (bool_decide_eq_false_2 (c = "&"%char)) by done. cbn [Js.replaceAll].
  rewrite (bool_decide_eq_false_2 (c = "<"%char)) by done. cbn [Js.replaceAll].
  rewrite (bool_decide_eq_false_2 (c = ">"%char)) by done. cbn [Js.replaceAll].
  rewrite (bool_decide_eq_false_2 (c = Ascii.ascii_of_nat 34)) by done.
  cbn [Js.replaceAll].
  by rewrite (bool_decide_eq_false_2 (c = "'"%char)) by done.
Qed.

Lemma escapeHtml_entities (text_ : string) :
  TextUtils.escapeHtml text_ = entities text_.
Proof.
  induction text_ as [|c s IH]; [done|].
  change (String c s) with (String c "" +:+ s).
  by rewrite escapeHtml_app, escapeHtml_char, IH.
Qed.

Lemma occurs_app (c : ascii) (a b : string) :
  occurs c (a +:+ b) = occurs c a || occurs c b.
Proof.
  induction a as [|x a IH]; [done|].
  rewrite append_cons. cbn. by rewrite IH, orb_assoc.
Qed.

Lemma entity_safe (x c : ascii) :
  x = "<"%char ∨ x = ">"%char ∨ x = Ascii.ascii_of_nat 34 ∨ x = "'"%char →
  occurs x (entity c) = false.
Proof.
  intros Hx. split_char c.
  - destruct Hx as [-> | [-> | [-> | ->]]]; reflexivity.
  - destruct Hx as [-> | [-> | [-> | ->]]]; reflexivity.
  - destruct Hx as [-> | [-> | [-> | ->]]]; reflexivity.
  - destruct Hx as [-> | [-> | [-> | ->]]]; reflexivity.
  - destruct Hx as [-> | [-> | [-> | ->]]]; reflexivity.
  - rewrite entity_plain by done. cbn. rewrite orb_false_r.
    apply bool_decide_eq_false_2. destruct Hx as [-> | [-> | [-> | ->]]]; done.
Qed.

Lemma entity_prefix_free (c d : ascii) (r r' : string) :
  entity c +:+ r = entity d +:+ r' → c = d ∧ r = r'.
Proof.
  split_char c; split_char d;
    rewrite ?(entity_plain c), ?(entity_plain d) by done;
    intros E; vm_compute in E; by simplify_eq.
Qed.

(** X3.  The five replacements of [escapeHtml], one after the other,
    come to a single pass over the text in which every character is
    replaced by its entity: the ampersand that a later replacement
    writes is not escaped again, since the ampersands are replaced
    first.  So the escape of two texts put together is their escapes
    put together. *)
Theorem escapeHtml_one_pass (text_ rest : string) :
  TextUtils.escapeHtml text_ = entities text_
  ∧ TextUtils.escapeHtml (text_ +:+ rest)
    = TextUtils.escapeHtml text_ +:+ TextUtils.escapeHtml rest.
Proof. split; [apply escapeHtml_entities|apply escapeHtml_app]. Qed.

(** X4.  An escaped text has no angle bracket and no quote of either
    kind left in it. *)
Theorem escapeHtml_no_markup (text_ : string) :
  occurs "<" (TextUtils.escapeHtml text_) = false
  ∧ occurs ">" (TextUtils.escapeHtml text_) = false
  ∧ occurs (Ascii.ascii_of_nat 34) (TextUtils.escapeHtml text_) = false
  ∧ occurs "'" (TextUtils.escapeHtml text_) = false.
Proof.
  rewrite escapeHtml_entities.
  assert (∀ x, x = "<"%char ∨ x = ">"%char ∨ x = Ascii.ascii_of_nat 34
               ∨ x = "'"%char → occurs x (entities text_) = false) as Hall.
  { intros x Hx. induction text_ as [|c s IH]; [done|].
    cbn. by rewrite occurs_app, entity_safe, IH. }
  repeat split; apply Hall; tauto.
Qed.

(** X5.  [escapeHtml] loses nothing: two texts with the same escape are
    the same text. *)
Theorem escapeHtml_injective (a b : string) :
  TextUtils.escapeHtml a = TextUtils.escapeHtml b ↔ a = b.
Proof.
  split; [|by intros ->]. rewrite !escapeHtml_entities.
  revert b. induction a as [|c a IH]; intros [|d b]; cbn.
  - done.
  - intros E. exfalso. split_char d; rewrite ?(entity_plain d) in E by done;
      vm_compute in E; by simplify_eq.
  - intros E. exfalso. split_char c; rewrite ?(entity_plain c) in E by done;
      vm_compute in E; by simplify_eq.
  - intros [-> E]%entity_prefix_free. f_equal. by apply IH.
Qed.

Lemma spanWord_spec (s : string) :
  s = fst (TextUtils.spanWord s) +:+ snd (TextUtils.spanWord s)
  ∧ wordChars (fst (TextUtils.spanWord s)) = true.
Proof.
  induction s as [|c s [IH1 IH2]]; [done|]. cbn [TextUtils.spanWord].
  destruct (Js.isWordChar c) eqn:W; [|done].
  destruct (TextUtils.spanWord s) as [word rest]. cbn [fst snd wordChars] in *.
  rewrite W, IH2. by rewrite append_cons, <- IH1.
Qed.

Lemma spanWord_stop (key : string) (c : ascii) (after : string) :
  wordChars key = true → Js.isWordChar c = false →
  TextUtils.spanWord (key +:+ String c after) = (key, String c after).
Proof.
  intros Hk Hc. induction key as [|k key IH].
  - rewrite append_nil_l. cbn [TextUtils.spanWord]. by rewrite Hc.
  - cbn [wordChars] in Hk. apply andb_true_iff in Hk as [Hk1 Hk2].
    rewrite append_cons. cbn [TextUtils.spanWord]. by rewrite Hk1, (IH Hk2).
Qed.

Lemma spanWord_before (r : string) (c : ascii) (s : string) :
  Js.isWordChar c = false →
  TextUtils.spanWord (r +:+ String c s)
  = (fst (TextUtils.spanWord r), snd (TextUtils.spanWord r) +:+ String c s).
Proof.
  intros Hc. induction r as [|x r IH].
  - rewrite append_nil_l. cbn [TextUtils.spanWord fst snd]. by rewrite Hc.
  - rewrite append_cons. cbn [TextUtils.spanWord].
    destruct (Js.isWordChar x); [|done].
    rewrite IH. by destruct (TextUtils.spanWord r).
Qed.

Lemma placeholderKey_Some (rest key : string) :
  TextUtils.placeholderKey rest = Some key →
  ∃ after, rest = key +:+ String "}" after.
Proof.
  unfold TextUtils.placeholderKey.
  destruct (spanWord_spec rest) as [Hrest _].
  destruct (TextUtils.spanWord rest) as [[|k word] [|c after]]; try done.
  cbn in Hrest.
  destruct (decide (c = "}"%char)) as [->|Hc].
  - intros [= <-]. by exists after.
  - destruct c as [[] [] [] [] [] [] [] []]; done.
Qed.

Lemma placeholderKey_key (key after : string) :
  key ≠ "" → wordChars key = true →
  TextUtils.placeholderKey (key +:+ String "}" after) = Some key.
Proof.
  intros Hne Hk. unfold TextUtils.placeholderKey.
  rewrite spanWord_stop by done. by destruct key.
Qed.

(** A match that starts before a brace ends before it. *)
Lemma placeholderKey_before (r s : string) :
  TextUtils.placeholderKey (r +:+ String "{" s) = TextUtils.placeholderKey r.
Proof.
  unfold TextUtils.placeholderKey. rewrite spanWord_before by done.
  destruct (TextUtils.spanWord r) as [[|k word] [|c after]]; try done.
Qed.

Lemma scan_skip (variables : gmap string Js.Scalar) (a b : string) :
  TextUtils.formatString_scan variables (String.length a) (a +:+ b)
  = TextUtils.formatString_scan variables 0 b.
Proof. induction a as [|c a IH]; [done|]. rewrite append_cons. by cbn. Qed.

Lemma scan_shown (variables : gmap string Js.Scalar) (key : string) :
  (if Js.truthy (default "" (Js.propertyText variables key))
   then default "" (Js.propertyText variables key)
   else "{" +:+ key +:+ "}")
  = replacement variables key.
Proof.
  unfold replacement. by destruct (Js.propertyText variables key) as [[|c s]|].
Qed.

Lemma scan_placeholder (variables : gmap string Js.Scalar) (key post : string) :
  key ≠ "" → wordChars key = true →
  TextUtils.formatString_scan variables 0 (String "{" (key +:+ String "}" post))
  = replacement variables key +:+ TextUtils.formatString_scan variables 0 post.
Proof.
  intros Hne Hk. cbn [TextUtils.formatString_scan].
  rewrite bool_decide_eq_true_2 by done.
  rewrite placeholderKey_key by done. cbv zeta. rewrite scan_shown. f_equal.
  assert (key +:+ String "}" post = (key +:+ "}") +:+ post) as ->
    by by rewrite append_assoc.
  assert (S (String.length key) = String.length (key +:+ "}")) as ->.
  { rewrite length_append. cbn. lia. }
  apply scan_skip.
Qed.

Lemma scan_before_brace (variables : gmap string Js.Scalar) (pre s : string)
    (n : nat) :
  (n ≤ String.length pre)%nat →
  TextUtils.formatString_scan variables n (pre +:+ String "{" s)
  = TextUtils.formatString_scan variables n pre
    +:+ TextUtils.formatString_scan variables 0 (String "{" s).
Proof.
  revert n. induction pre as [|c pre IH]; intros n Hn.
  { cbn in Hn. assert (n = 0%nat) as -> by lia. done. }
  rewrite append_cons. cbn [TextUtils.formatString_scan].
  destruct n as [|n].
  - rewrite placeholderKey_before.
    destruct (if bool_decide (c = "{"%char) then TextUtils.placeholderKey pre else None)
      as [key|] eqn:E.
    + cbv zeta. rewrite append_assoc. f_equal. apply IH.
      case_bool_decide; [|done].
      apply placeholderKey_Some in E as [after ->].
      rewrite length_append. cbn. lia.
    + rewrite append_cons. f_equal. apply IH. lia.
  - apply IH. cbn in Hn. lia.
Qed.

Lemma scan_plain (variables : gmap string Js.Scalar) (s : string) :
  occurs "{" s = false → TextUtils.formatString_scan variables 0 s = s.
Proof.
  induction s as [|c s IH]; [done|]. cbn.
  intros [Hc Hs]%orb_false_iff. rewrite Hc. by rewrite IH.
Qed.

Lemma formatString_at (variables : gmap string Js.Scalar) (pre key post : string) :
  key ≠ "" → wordChars key = true →
  TextUtils.formatString (pre +:+ "{" +:+ key +:+ "}" +:+ post) variables
  = TextUtils.formatString pre variables
    +:+ replacement variables key
    +:+ TextUtils.formatString post variables.
Proof.
  intros Hne Hk. unfold TextUtils.formatString.
  change (pre +:+ "{" +:+ key +:+ "}" +:+ post)
    with (pre +:+ String "{" (key +:+ String "}" post)).
  rewrite scan_before_brace by lia. by rewrite scan_placeholder.
Qed.

(** X6.  [formatString] copies a template that has no opening brace.
    Around a placeholder [{key}], with a key of one or more word
    characters, it formats what is before and what is behind on their
    own, and between them it writes the text of the variable: the text
    written is not scanned again for placeholders.  A variable that
    is the empty string, or a key that names no variable (and no member
    that every object inherits), leaves the placeholder as it is. *)
Theorem formatString_placeholders (variables : gmap string Js.Scalar) :
  (∀ template, occurs "{" template = false →
     TextUtils.formatString template variables = template)
  ∧ (∀ pre key post, key ≠ "" → wordChars key = true →
       TextUtils.formatString (pre +:+ "{" +:+ key +:+ "}" +:+ post) variables
       = TextUtils.formatString pre variables
         +:+ replacement variables key
         +:+ TextUtils.formatString post variables)
  ∧ (∀ key v, variables !! key = Some v → Js.Scalar_toString v ≠ "" →
       replacement variables key = Js.Scalar_toString v)
  ∧ (∀ key, variables !! key = Some (Js.SStr "")
            ∨ (variables !! key = None ∧ Js.inheritedText key = None) →
       replacement variables key = "{" +:+ key +:+ "}").
Proof.
  split; [|split; [|split]].
  - intros template Hplain. by apply scan_plain.
  - intros pre key post Hne Hk. by apply formatString_at.
  - intros key v Hv Hshown. unfold replacement, Js.propertyText. rewrite Hv.
    by destruct (Js.Scalar_toString v).
  - intros key [Hv|[Hv Hi]]; unfold replacement, Js.propertyText; rewrite Hv; [done|].
    by rewrite Hi.
Qed.

(** ** textUtils: the wrap keeps the text *)

(** X7.  The wrap of [formatTextForDisplay] touches nothing but spaces
    and line feeds: with those taken out, the text returned is the text
    given, whatever the width; and so are the lines, read one after the
    other.  No word is dropped, cut or moved. *)
Theorem formatTextForDisplay_keeps_text (text_ : string) (w : Z) :
  inked (TextUtils.formatTextForDisplay text_ w) = inked text_
  ∧ inkedAll (TextUtils.wrapLines text_ w) = inked text_.
Proof.
  assert (inkedAll (TextUtils.wrapLines text_ w) = inked text_) as Hlines.
  { unfold TextUtils.wrapLines.
    pose proof (fold_wrapStep_inked w (Js.split " " text_) ([], "")) as Hfold.
    destruct (fold_left _ _ _) as [lines cur]. cbn [fst snd] in Hfold.
    rewrite flush_inked, Hfold. cbn. apply split_inked. }
  split; [|done]. unfold TextUtils.formatTextForDisplay.
  destruct text_ as [|c s]; [done|]. cbn [Js.truthy negb].
  change (String (ascii_of_nat 10) "") with Js.lineFeed.
  by rewrite join_inked.
Qed.


(** ** fileUtils: the atomic write, the backups, the path of the notes file *)

Section files.
Context `{Host}.

(** X8.  [atomicWriteFile] leaves a file whole on any disk: afterwards
    the file holds what it held or it holds the new data.  When the call
    returns, it holds the new data and the temporary file is gone; when
    the call throws, the file is as it was.  No file but the file and
    its temporary sibling is touched. *)
Theorem atomicWriteFile_all_or_nothing (filePath_ data : string) (w : World) :
  let r := fst (FileUtils.atomicWriteFile filePath_ data w) in
  let w' := snd (FileUtils.atomicWriteFile filePath_ data w) in
  (files w' !! filePath_ = files w !! filePath_
   ∨ files w' !! filePath_ = Some data)
  ∧ (r = Ok tt →
     files w' !! filePath_ = Some data
     ∧ files w' !! (filePath_ +:+ ".tmp") = None)
  ∧ (∀ e, r = Throw e → files w' !! filePath_ = files w !! filePath_)
  ∧ (∀ q, q ≠ filePath_ → q ≠ filePath_ +:+ ".tmp" →
          files w' !! q = files w !! q).
Proof.
  assert (filePath_ +:+ ".tmp" ≠ filePath_) as Hne by by apply append_ne_self.
  unfold FileUtils.atomicWriteFile, FileUtils.ensureDirectoryExists.
  unfold Fs.existsSync, Fs.mkdirSync, Fs.writeFileSync, Fs.renameSync,
    Fs.set_files, Fs.set_dirs.
  munfold. cbn.
  repeat (case_match; simplify_eq/=);
    (split; [simplify_map_eq; by (left + right)|]);
    (split; [intros; simplify_map_eq; done|]);
    (split; [intros; simplify_map_eq; done|]);
    intros q Hq1 Hq2; by simplify_map_eq.
Qed.

Lemma backupPath_inj (p : string) (t1 t2 : Z) :
  FileUtils.backupPath p t1 = FileUtils.backupPath p t2 → t1 = t2.
Proof.
  unfold FileUtils.backupPath. intros E.
  apply String.app_inj in E. apply String.app_inj in E.
  by apply (inj pretty).
Qed.

Lemma loadOutcome_damaged (w : World) (content : string) :
  files w !! notesFilePath = Some content → damaged content →
  fst (loadOutcome w) = NotesStorage.emptyNotes
  ∧ files (snd (loadOutcome w)) = files (backedUp notesFilePath w).
Proof.
  intros Hfile [Hnb Hbad]. unfold loadOutcome. rewrite Hfile.
  cbn [fmap option_fmap option_map].
  destruct (Js.trim content) as [|a s] eqn:T; [done|].
  destruct Hbad as [->|(v & -> & ->)]; [|done].
  split; [done|]. cbn [snd]. unfold backedUp, warned. cbn.
  destruct (files w !! notesFilePath); [|done].
  destruct (readonly w); [done|]. by case_bool_decide.
Qed.

(** X9.  The backups of a damaged notes file that are made at two
    different times have two different names, and both are kept: after
    two loads, at [t1] and at [t2], on a disk that takes the copies,
    each backup holds the content of the notes file, which is as it
    was, and no other file has changed. *)
Theorem backups_of_different_times_are_kept (w : World) (content : string)
    (t1 t2 : Z) :
  files w !! notesFilePath = Some content → damaged content →
  readonly w = false →
  FileUtils.backupPath notesFilePath t1 ∉ dirs w →
  FileUtils.backupPath notesFilePath t2 ∉ dirs w →
  t1 ≠ t2 →
  let w1 := snd (NotesStorage.loadNotes (tick t1 w)) in
  let w2 := snd (NotesStorage.loadNotes (tick t2 w1)) in
  FileUtils.backupPath notesFilePath t1 ≠ FileUtils.backupPath notesFilePath t2
  ∧ files w2 !! FileUtils.backupPath notesFilePath t1 = Some content
  ∧ files w2 !! FileUtils.backupPath notesFilePath t2 = Some content
  ∧ files w2 !! notesFilePath = Some content
  ∧ (∀ q, q ≠ FileUtils.backupPath notesFilePath t1 →
          q ≠ FileUtils.backupPath notesFilePath t2 →
          files w2 !! q = files w !! q).
Proof.
  intros Hfile Hdam Hrw Hd1 Hd2 Ht w1 w2.
  assert (FileUtils.backupPath notesFilePath t1 ≠ FileUtils.backupPath notesFilePath t2)
    as Hne by (intros E; by apply Ht, (backupPath_inj notesFilePath)).
  pose proof (backupPath_ne notesFilePath t1) as Hn1.
  pose proof (backupPath_ne notesFilePath t2) as Hn2.
  assert (files w1
          = <[FileUtils.backupPath notesFilePath t1 := content]> (files w)) as Hw1.
  { unfold w1. rewrite loadNotes_spec. cbn [snd].
    destruct (loadOutcome_damaged (tick t1 w) content) as [_ ->]; [done|done|].
    unfold backedUp. cbn [files tick readonly now dirs]. rewrite Hfile, Hrw.
    by rewrite (bool_decide_eq_false_2 _ Hd1). }
  assert (dirs w1 = dirs w ∧ readonly w1 = readonly w) as [Hdirs Hro].
  { unfold w1. rewrite loadNotes_spec. cbn [snd].
    by destruct (loadOutcome_frame (tick t1 w)) as (-> & -> & _). }
  assert (files w2
          = <[FileUtils.backupPath notesFilePath t2 := content]> (files w1)) as Hw2.
  { unfold w2. rewrite loadNotes_spec. cbn [snd].
    destruct (loadOutcome_damaged (tick t2 w1) content) as [_ ->]; [|done|].
    { cbn [files tick]. rewrite Hw1. by rewrite lookup_insert_ne. }
    unfold backedUp. cbn [files tick readonly now dirs].
    rewrite Hw1 at 1. rewrite lookup_insert_ne, Hfile, Hro, Hrw, Hdirs by done.
    by rewrite (bool_decide_eq_false_2 _ Hd2). }
  split; [done|]. rewrite Hw2, Hw1.
  split; [by rewrite lookup_insert_ne, lookup_insert_eq|].
  split; [by rewrite lookup_insert_eq|].
  split; [by rewrite !lookup_insert_ne|].
  intros q Hq1 Hq2. by rewrite !lookup_insert_ne.
Qed.

End files.

Section paths.
Context `{Platform}.



End paths.

(** ** NotesStorage: what the operations do together *)

Lemma filter_all {A} (P : A → Prop) `{∀ x, Decision (P x)} (l : list A) :
  Forall P l → filter P l = l.
Proof.
  induction 1 as [|x l Hx Hl IH]; [done|].
  by rewrite filter_cons, decide_True, IH.
Qed.

Lemma filter_fmap_stable {A} (P : A → Prop) `{∀ x, Decision (P x)} (f : A → A)
    (l : list A) :
  (∀ x, P (f x) ↔ P x) → filter P (f <$> l) = f <$> filter P l.
Proof.
  intros Hf. induction l as [|x l IH]; [done|].
  rewrite fmap_cons, !filter_cons.
  destruct (decide (P x)) as [Hx|Hx].
  - rewrite decide_True by by apply Hf. by rewrite fmap_cons, IH.
  - rewrite decide_False by (by rewrite Hf). done.
Qed.

Lemma filter_comm {A} (P Q : A → Prop) `{∀ x, Decision (P x)}
    `{∀ x, Decision (Q x)} (l : list A) :
  filter P (filter Q l) = filter Q (filter P l).
Proof.
  rewrite !list_filter_filter. apply list_filter_iff. intros x. tauto.
Qed.

Lemma filter_insert_other {A} (P : A → Prop) `{∀ x, Decision (P x)}
    (l : list A) (i : nat) (old new : A) :
  l !! i = Some old → ¬ P old → ¬ P new → filter P (<[i := new]> l) = filter P l.
Proof.
  revert i. induction l as [|x l IH]; intros i Hi Hold Hnew; [done|].
  destruct i as [|i]; cbn in Hi.
  - injection Hi as ->. change (<[0%nat:=new]> (old :: l)) with (new :: l).
    by rewrite !filter_cons, !decide_False.
  - change (<[S i:=new]> (x :: l)) with (x :: <[i:=new]> l).
    rewrite !filter_cons. by rewrite (IH i).
Qed.

Section store_more.
Context `{Host}.

Lemma noteExists_spec (filePath_ : string) (line_ : Z) (w : World) :
  NotesStorage.noteExists filePath_ line_ w
  = (Ok (bool_decide (Exists (NotesStorage.matches (path_resolve filePath_) line_)
                        (notes (fst (loadOutcome w))))),
     snd (loadOutcome w)).
Proof.
  unfold NotesStorage.noteExists, try_catch, bind. by rewrite loadNotes_spec.
Qed.

Lemma initializeNotesFile_spec (w : World) :
  NotesStorage.initializeNotesFile w
  = (Ok tt,
     if bool_decide (is_Some (files w !! notesFilePath))
        || bool_decide (notesFilePath ∈ dirs w) || readonly w
     then w
     else Fs.set_files
            (<[notesFilePath := JSON_stringify (json_of_NotesData NotesStorage.emptyNotes)]>
               (files w)) w).
Proof.
  unfold NotesStorage.initializeNotesFile, try_catch.
  rewrite (bind_ok _ _ _ _ _ (existsSync_spec _ _)).
  destruct (files w !! notesFilePath) as [c|] eqn:E.
  - rewrite (bool_decide_eq_true_2 (is_Some (Some c))) by eauto. cbn [orb].
    unfold bind, Fs.readFileSync, ret. by rewrite E.
  - rewrite (bool_decide_eq_false_2 (is_Some None)) by (by intros [? ?]).
    cbn [orb]. case_bool_decide as D; cbn [orb].
    + unfold bind, Fs.readFileSync, ret. by rewrite E.
    + unfold bind at 1. unfold Fs.writeFileSync.
      destruct (readonly w) eqn:R; [done|].
      rewrite (bool_decide_eq_false_2 _ D).
      rewrite (bind_ok _ _ _ _ _ (existsSync_spec _ _)).
      cbn [files Fs.set_files]. rewrite lookup_insert_eq.
      rewrite (bool_decide_eq_true_2 (is_Some (Some _))) by eauto. cbn [orb].
      unfold bind, Fs.readFileSync, ret. cbn [files Fs.set_files].
      by rewrite lookup_insert_eq.
Qed.

(** X11.  No operation of the store throws, whatever the disk holds and
    whether or not it can be written: each one returns, and
    [addOrUpdateNote] returns [true]. *)
Theorem store_never_throws (w : World) :
  (∃ d w', NotesStorage.loadNotes w = (Ok d, w'))
  ∧ (∀ d, ∃ w', NotesStorage.saveNotes d w = (Ok tt, w'))
  ∧ (∀ p, ∃ ns w', NotesStorage.getNotesForFile p w = (Ok ns, w'))
  ∧ (∀ p l t, ∃ w', NotesStorage.addOrUpdateNote p l t w = (Ok true, w'))
  ∧ (∀ p l, ∃ b w', NotesStorage.noteExists p l w = (Ok b, w'))
  ∧ (∀ p l, ∃ b w', NotesStorage.deleteNote p l w = (Ok b, w'))
  ∧ (∃ ns w', NotesStorage.getAllNotesSorted w = (Ok ns, w'))
  ∧ (∃ w', NotesStorage.initializeNotesFile w = (Ok tt, w')).
Proof.
  split; [apply loadNotes_returns|].
  split; [intros d; apply saveNotes_returns|].
  split; [intros p; rewrite getNotesForFile_spec; eauto|].
  split; [intros p l t; rewrite addOrUpdateNote_spec; eauto|].
  split; [intros p l; rewrite noteExists_spec; eauto|].
  split; [intros p l; rewrite deleteNote_spec; case_bool_decide; eauto|].
  split; [rewrite getAllNotesSorted_spec; eauto|].
  rewrite initializeNotesFile_spec. eauto.
Qed.

Lemma backedUp_files (p : string) (w : World) (q : string) :
  q ≠ FileUtils.backupPath p (now w) →
  files (backedUp p w) !! q = files w !! q.
Proof.
  intros Hq. unfold backedUp. destruct (files w !! p); [|done].
  destruct (readonly w); [done|]. case_bool_decide; [done|].
  cbn. by rewrite lookup_insert_ne.
Qed.

Lemma loadOutcome_files (w : World) (q : string) :
  q ≠ FileUtils.backupPath notesFilePath (now w) →
  files (snd (loadOutcome w)) !! q = files w !! q.
Proof.
  intros Hq. unfold loadOutcome.
  destruct (files w !! notesFilePath) as [c|]; cbn [fmap option_fmap option_map]; [|done].
  destruct (Js.trim c); [done|].
  destruct (JSON_parse _) as [v|].
  - destruct (NotesStorage.isValidNotesData v); [done|].
    cbn [snd]. by apply backedUp_files.
  - cbn [snd]. by rewrite backedUp_files.
Qed.

Lemma loadOutcome_sound (w : World) : sound w → snd (loadOutcome w) = w.
Proof.
  intros (content & parsed & Hf & Hp & Hv). unfold loadOutcome. rewrite Hf.
  cbn [fmap option_fmap option_map].
  destruct (Js.trim content); [done|]. by rewrite Hp, Hv.
Qed.

Lemma loadOutcome_onlyBackedUp (w : World) : onlyBackedUp w (snd (loadOutcome w)).
Proof.
  split; [apply loadOutcome_notes_file|].
  intros q Hq. by apply loadOutcome_files.
Qed.

(** X12.  The operations that only read ([loadNotes],
    [getNotesForFile], [noteExists], [getAllNotesSorted]) never change
    the notes file, and the one file they can write is the backup of
    the notes file; when the notes file holds a document of the right
    shape, they write no file at all and show no message. *)
Theorem reads_leave_the_notes_file (w : World) (p : string) (l : Z) :
  onlyBackedUp w (snd (NotesStorage.loadNotes w))
  ∧ onlyBackedUp w (snd (NotesStorage.getNotesForFile p w))
  ∧ onlyBackedUp w (snd (NotesStorage.noteExists p l w))
  ∧ onlyBackedUp w (snd (NotesStorage.getAllNotesSorted w))
  ∧ (sound w →
     (files (snd (NotesStorage.loadNotes w)) = files w
      ∧ shown (snd (NotesStorage.loadNotes w)) = shown w)
     ∧ (files (snd (NotesStorage.getNotesForFile p w)) = files w
        ∧ shown (snd (NotesStorage.getNotesForFile p w)) = shown w)
     ∧ (files (snd (NotesStorage.noteExists p l w)) = files w
        ∧ shown (snd (NotesStorage.noteExists p l w)) = shown w)
     ∧ (files (snd (NotesStorage.getAllNotesSorted w)) = files w
        ∧ shown (snd (NotesStorage.getAllNotesSorted w)) = shown w)).
Proof.
  rewrite loadNotes_spec, getNotesForFile_spec, noteExists_spec,
    getAllNotesSorted_spec. cbn [snd].
  pose proof (loadOutcome_onlyBackedUp w) as Hb.
  repeat (split; [exact Hb|]).
  intros Hsound. by rewrite (loadOutcome_sound w Hsound).
Qed.

Lemma loadOutcome_readonly (w : World) :
  readonly w = true → files (snd (loadOutcome w)) = files w.
Proof.
  intros Hro. unfold loadOutcome.
  destruct (files w !! notesFilePath) as [c|] eqn:E;
    cbn [fmap option_fmap option_map]; [|done].
  destruct (Js.trim c); [done|].
  assert (∀ w0, readonly w0 = true → files (backedUp notesFilePath w0) = files w0)
    as Hb.
  { intros w0 R. unfold backedUp. destruct (files w0 !! notesFilePath); [|done].
    by rewrite R. }
  destruct (JSON_parse _) as [v|].
  - destruct (NotesStorage.isValidNotesData v); [done|]. cbn [snd]. by apply Hb.
  - cbn [snd]. by rewrite Hb.
Qed.

(** X20.  When a note matches and the disk cannot be written,
    [deleteNote] answers [true] all the same: the save fails, its error
    is shown, no file changes, and the note is still there for
    [noteExists]. *)
Theorem deleteNote_true_though_not_saved (w : World) (p : string) (l : Z) :
  readonly w = true →
  fst (NotesStorage.noteExists p l w) = Ok true →
  ∃ w', NotesStorage.deleteNote p l w = (Ok true, w')
    ∧ files w' = files w
    ∧ ErrorMessage (UI_STRINGS.SAVE_ERROR +:+ ": " +:+ "Error: EROFS") ∈ shown w'
    ∧ fst (NotesStorage.noteExists p l w') = Ok true.
Proof.
  intros Hro. rewrite noteExists_spec. cbn [fst]. intros [= Hex].
  apply bool_decide_eq_true in Hex.
  rewrite deleteNote_spec. rewrite bool_decide_eq_false_2.
  2:{ intros Hall. apply length_filter_all in Hall.
      apply Exists_exists in Hex as (n & Hn & Hm).
      rewrite Forall_forall in Hall. by apply (Hall n Hn). }
  destruct (loadOutcome_frame w) as (_ & Hro' & _). rewrite Hro in Hro'.
  rewrite (saveNotes_readonly _ _ Hro'). cbn [snd].
  eexists. split; [done|]. cbn [errored files shown].
  split; [by apply loadOutcome_readonly|]. split; [by left|].
  rewrite noteExists_spec. cbn [fst]. do 2 f_equal.
  apply bool_decide_eq_true_2.
  rewrite (loadOutcome_ext _ w); [done|].
  cbn [files]. apply loadOutcome_notes_file.
Qed.

(** X21.  [initializeNotesFile] does not throw.  It leaves a notes file
    that is there as it is, whatever it holds, and on a disk that
    cannot be written it does nothing; it touches no other file; and a
    second call changes nothing. *)
Theorem initializeNotesFile_keeps_existing (w : World) :
  ∃ w', NotesStorage.initializeNotesFile w = (Ok tt, w')
    ∧ (is_Some (files w !! notesFilePath) → w' = w)
    ∧ (readonly w = true → w' = w)
    ∧ (∀ q, q ≠ notesFilePath → files w' !! q = files w !! q)
    ∧ NotesStorage.initializeNotesFile w' = (Ok tt, w').
Proof.
  eexists. split; [apply initializeNotesFile_spec|].
  destruct (bool_decide (is_Some (files w !! notesFilePath))) eqn:E;
    cbn [orb]; [rewrite initializeNotesFile_spec, E; done|].
  destruct (bool_decide (notesFilePath ∈ dirs w)) eqn:D;
    cbn [orb]; [rewrite initializeNotesFile_spec, E, D; done|].
  destruct (readonly w) eqn:R;
    [rewrite initializeNotesFile_spec, E, D, R; done|].
  split.
  { intros Hs. by apply bool_decide_eq_false in E. }
  split; [done|]. split.
  { intros q Hq. cbn. by rewrite lookup_insert_ne. }
  rewrite initializeNotesFile_spec. cbn [files Fs.set_files].
  rewrite lookup_insert_eq.
  by rewrite (bool_decide_eq_true_2 (is_Some (Some _))) by eauto.
Qed.

End store_more.

Section store_laws.
Context `{Host} `{!HostLaws}.

Lemma loadOutcome_saved (d : NotesData) (w : World) :
  loadOutcome (saved d w) = ({| notes := renorm (notes d) |}, saved d w).
Proof. apply loadOutcome_holding, files_saved. Qed.

(** X13.  On a disk that takes the write, what [saveNotes] has written
    is what [loadNotes] then returns, without the notes that the
    validation rejects and with paths made canonical and texts trimmed;
    the load changes nothing more.  A collection of notes that are
    canonical already is returned as it is, and so is any collection
    that a load has returned. *)
Theorem saveNotes_then_loadNotes (w : World) (d : NotesData) :
  DiskOk w →
  ∃ w', NotesStorage.saveNotes d w = (Ok tt, w')
    ∧ NotesStorage.loadNotes w' = (Ok {| notes := renorm (notes d) |}, w')
    ∧ (Forall normal (notes d) → NotesStorage.loadNotes w' = (Ok d, w'))
    ∧ (∀ w0, fst (NotesStorage.loadNotes w0) = Ok d →
             NotesStorage.loadNotes w' = (Ok d, w')).
Proof.
  intros HD. exists (saved d w). split; [by apply saveNotes_ok|].
  rewrite loadNotes_spec, loadOutcome_saved. cbn [fst snd].
  split; [done|].
  assert (Forall normal (notes d) →
          (Ok {| notes := renorm (notes d) |}, saved d w) = (Ok d, saved d w))
    as Hn.
  { intros Hnorm. rewrite renorm_normal by done. by destruct d. }
  split; [exact Hn|].
  intros w0. rewrite loadNotes_spec. cbn [fst]. intros [= <-].
  apply Hn, loaded_normal.
Qed.

Lemma newNoteAt_matches (p : string) (l : Z) (t : string) (time : Z) :
  NotesStorage.matches (path_resolve p) l (newNoteAt p l t time).
Proof. split; [apply path_resolve_idem|done]. Qed.

Lemma newNoteAt_normal (p : string) (l : Z) (t : string) (time : Z) :
  0 ≤ l → Js.trim t ≠ "" → normal (newNoteAt p l t time).
Proof.
  intros Hl Ht. unfold normal, newNoteAt. cbn.
  repeat split; [apply path_resolve_idem|apply trim_idem|done|].
  apply truthy_len. by destruct (Js.trim t).
Qed.

Lemma loadOutcome_after_upsert (p : string) (l : Z) (t : string) (w : World) :
  DiskOk w →
  ∃ w1, NotesStorage.addOrUpdateNote p l t w = (Ok true, w1)
    ∧ loadOutcome w1
      = ({| notes := renorm (NotesStorage.upsertInto (notes (fst (loadOutcome w)))
                               (newNoteAt p l t (now w))) |}, w1).
Proof.
  intros HD. eexists. split; [by apply addOrUpdateNote_ok|].
  by rewrite loadOutcome_saved.
Qed.

(** After the upsert of a note that the validation accepts, the store
    holds what was handed to [saveNotes]. *)
Lemma loadOutcome_after_valid_upsert (p : string) (l : Z) (t : string) (w : World) :
  DiskOk w → 0 ≤ l → Js.trim t ≠ "" →
  ∃ w1, NotesStorage.addOrUpdateNote p l t w = (Ok true, w1)
    ∧ loadOutcome w1
      = ({| notes := NotesStorage.upsertInto (notes (fst (loadOutcome w)))
                       (newNoteAt p l t (now w)) |}, w1).
Proof.
  intros HD Hl Ht.
  destruct (loadOutcome_after_upsert p l t w HD) as (w1 & Hup & Hload).
  exists w1. split; [exact Hup|]. rewrite Hload. do 2 f_equal.
  apply renorm_normal, upsertInto_Forall; [apply loaded_normal|].
  by apply newNoteAt_normal.
Qed.

(** X14.  After the upsert of a text that is not blank at a line that
    is not negative, on a disk that takes the write, the note is there:
    [noteExists] answers [true] for its path and line, and
    [getNotesForFile] returns it with the canonical path, the trimmed
    text and the time of the call.  Neither read changes the world. *)
Theorem upsert_then_found (w : World) (p : string) (l : Z) (t : string) :
  DiskOk w → 0 ≤ l → Js.trim t ≠ "" →
  ∃ w1 ns,
    NotesStorage.addOrUpdateNote p l t w = (Ok true, w1)
    ∧ NotesStorage.noteExists p l w1 = (Ok true, w1)
    ∧ NotesStorage.getNotesForFile p w1 = (Ok ns, w1)
    ∧ {| filePath := path_resolve p; line := l; text := Js.trim t;
         timestamp := toISOString (now w) |} ∈ ns.
Proof.
  intros HD Hl Ht.
  destruct (loadOutcome_after_valid_upsert p l t w HD Hl Ht) as (w1 & Hup & Hload).
  pose proof (upsertInto_elem (notes (fst (loadOutcome w)))
                (newNoteAt p l t (now w))) as Hin.
  exists w1, (filter (λ note, path_resolve (filePath note) = path_resolve p)
                (NotesStorage.upsertInto (notes (fst (loadOutcome w)))
                   (newNoteAt p l t (now w)))).
  split; [exact Hup|]. split; [|split].
  - rewrite noteExists_spec, Hload. cbn [fst snd notes]. f_equal. f_equal.
    apply bool_decide_eq_true_2, Exists_exists.
    eexists. split; [exact Hin|apply newNoteAt_matches].
  - by rewrite getNotesForFile_spec, Hload.
  - apply list_elem_of_filter. split; [apply path_resolve_idem|exact Hin].
Qed.

Lemma loadOutcome_again (w : World) :
  fst (loadOutcome (snd (loadOutcome w))) = fst (loadOutcome w).
Proof. apply loadOutcome_ext, loadOutcome_notes_file. Qed.

(** X15.  After [deleteNote], whatever it answered, on a disk that
    takes the write, the store has no note for the path and the line:
    [noteExists] answers [false], and no note that [getNotesForFile]
    returns for the path is at that line. *)
Theorem delete_then_absent (w : World) (p : string) (l : Z) :
  DiskOk w →
  ∃ b w1 w2 ns w3,
    NotesStorage.deleteNote p l w = (Ok b, w1)
    ∧ NotesStorage.noteExists p l w1 = (Ok false, w2)
    ∧ NotesStorage.getNotesForFile p w1 = (Ok ns, w3)
    ∧ Forall (λ n, line n ≠ l) ns.
Proof.
  intros HD.
  set (loaded := notes (fst (loadOutcome w))).
  assert (Forall (λ n, ¬ NotesStorage.matches (path_resolve p) l n)
            (remaining p l loaded)) as Hgone.
  { apply Forall_forall. by intros n [? _]%list_elem_of_filter. }
  assert (∀ w1, notes (fst (loadOutcome w1)) = remaining p l loaded →
    ∃ w2 ns w3,
      NotesStorage.noteExists p l w1 = (Ok false, w2)
      ∧ NotesStorage.getNotesForFile p w1 = (Ok ns, w3)
      ∧ Forall (λ n, line n ≠ l) ns) as Hafter.
  { intros w1 Hw1. eexists _, _, _.
    rewrite noteExists_spec, getNotesForFile_spec, Hw1.
    split; [|split; [done|]].
    - do 2 f_equal. apply bool_decide_eq_false_2.
      intros (n & Hn & Hm)%Exists_exists.
      rewrite Forall_forall in Hgone. by apply (Hgone n Hn).
    - apply Forall_forall. intros n [Hp Hn]%list_elem_of_filter Hline.
      rewrite Forall_forall in Hgone. by apply (Hgone n Hn). }
  rewrite deleteNote_spec. fold loaded. case_bool_decide as Hlen.
  - destruct (Hafter (snd (loadOutcome w))) as (w2 & ns & w3 & ? & ? & ?).
    { rewrite loadOutcome_again. fold loaded.
      apply length_filter_all in Hlen. unfold remaining.
      symmetry. by apply filter_all. }
    by eexists _, _, w2, ns, w3.
  - rewrite (saveNotes_ok _ _ (DiskOk_loadOutcome w HD)). cbn [snd].
    destruct (Hafter (saved {| notes := remaining p l loaded |} (snd (loadOutcome w))))
      as (w2 & ns & w3 & ? & ? & ?).
    { rewrite loadOutcome_saved. cbn [fst notes]. apply renorm_normal.
      apply Forall_forall. intros n [_ Hn]%list_elem_of_filter.
      pose proof (loaded_normal w) as Hall. rewrite Forall_forall in Hall.
      by apply Hall. }
    by eexists _, _, w2, ns, w3.
Qed.

Lemma renorm_insert_invalid (l : list Note) (i : nat) (old new : Note) :
  Forall normal l → ¬ validNote new → l !! i = Some old →
  renorm (<[i := new]> l) = delete i l.
Proof.
  intros Hl Hnew. revert i. induction Hl as [|x l Hx Hl IH]; intros i Hi; [done|].
  destruct i as [|i]; cbn.
  - rewrite decide_False by done. by apply renorm_normal.
  - rewrite decide_True by by apply normal_valid.
    rewrite fmap_cons, normal_renormNote by done. f_equal. by apply IH.
Qed.

Lemma renorm_snoc_invalid (l : list Note) (new : Note) :
  Forall normal l → ¬ validNote new → renorm (l ++ [new]) = l.
Proof.
  intros Hl Hnew. unfold renorm. rewrite filter_app, fmap_app.
  rewrite filter_cons, decide_False by done. cbn. rewrite app_nil_r.
  by apply renorm_normal.
Qed.

Lemma remaining_unique (k : string * Z) (l : list Note) (i : nat) (old : Note) :
  uniqueKeys l → l !! i = Some old → key old = k →
  filter (λ n, key n ≠ k) l = delete i l.
Proof.
  unfold uniqueKeys. revert i. induction l as [|x l IH]; intros i Hu Hi Hk; [done|].
  rewrite fmap_cons, NoDup_cons in Hu. destruct Hu as [Hx Hu].
  rewrite filter_cons. destruct i as [|i]; cbn in Hi.
  - injection Hi as ->. rewrite decide_False by (intros Hne; by apply Hne).
    cbn. apply filter_all, Forall_forall. intros n Hn Hkn.
    apply Hx. rewrite Hk, <- Hkn. by apply list_elem_of_fmap_2.
  - rewrite decide_True.
    + cbn. f_equal. by apply IH.
    + intros Hkx. apply Hx. rewrite Hkx, <- Hk.
      apply list_elem_of_fmap_2. by eapply list_elem_of_lookup_2.
Qed.

Lemma invalid_newNoteAt (p : string) (l : Z) (t : string) (time : Z) :
  l < 0 ∨ Js.trim t = "" → ¬ validNote (newNoteAt p l t time).
Proof.
  intros Hbad [Hl Ht]. cbn in *. destruct Hbad as [?|Hblank]; [lia|].
  rewrite Hblank in Ht. unfold Js.len in Ht. cbn in Ht. lia.
Qed.

(** X16.  The upsert of a blank text, or at a negative line, is written
    and then rejected by the validation of the next load: on a disk
    that takes the write and a store with unique keys, what
    [loadNotes] returns afterwards is what it returned before without
    the note of that path and line.  An upsert of a blank text on a
    note removes the note. *)
Theorem upsert_blank_removes (w : World) (p : string) (l : Z) (t : string) :
  DiskOk w → Unique w → l < 0 ∨ Js.trim t = "" →
  ∃ d w0 w1,
    NotesStorage.loadNotes w = (Ok d, w0)
    ∧ NotesStorage.addOrUpdateNote p l t w = (Ok true, w1)
    ∧ NotesStorage.loadNotes w1
      = (Ok {| notes := filter (λ n, ¬ NotesStorage.matches (path_resolve p) l n)
                          (notes d) |}, w1)
    ∧ NotesStorage.noteExists p l w1 = (Ok false, w1).
Proof.
  intros HD HU Hbad. apply Unique_loaded in HU.
  set (loaded := notes (fst (loadOutcome w))) in *.
  destruct (loadOutcome_after_upsert p l t w HD) as (w1 & Hup & Hload).
  fold loaded in Hload.
  exists (fst (loadOutcome w)), (snd (loadOutcome w)), w1.
  split; [apply loadNotes_spec|]. split; [exact Hup|].
  assert (renorm (NotesStorage.upsertInto loaded (newNoteAt p l t (now w)))
          = filter (λ n, ¬ NotesStorage.matches (path_resolve p) l n) loaded)
    as Hkept.
  { pose proof (invalid_newNoteAt p l t (now w) Hbad) as Hinv.
    pose proof (loaded_normal w) as Hnorm. fold loaded in Hnorm.
    rewrite (list_filter_iff _ (λ n, key n ≠ (path_resolve p, l)))
      by (intros n; by rewrite matches_key).
    unfold NotesStorage.upsertInto.
    destruct (list_find _ loaded) as [[i old]|] eqn:E.
    - apply list_find_Some in E as (Hi & Hm & _).
      rewrite (renorm_insert_invalid _ _ old) by done.
      symmetry. apply (remaining_unique _ _ _ old); [done|done|].
      apply matches_key in Hm. by rewrite Hm.
    - apply list_find_None in E. rewrite renorm_snoc_invalid by done.
      symmetry. apply filter_all. eapply Forall_impl; [exact E|].
      intros n Hn Hk. cbn in Hn. apply Hn. by apply matches_key. }
  rewrite Hkept in Hload.
  rewrite loadNotes_spec, noteExists_spec, Hload. cbn [fst snd notes].
  split; [done|]. do 2 f_equal. apply bool_decide_eq_false_2.
  intros (n & [Hn _]%list_elem_of_filter & Hm)%Exists_exists. by apply Hn.
Qed.

Lemma filter_key_renorm (k : string * Z) (l : list Note) :
  filter (λ n, key n = k) (renorm l) = renorm (filter (λ n, key n = k) l).
Proof.
  unfold renorm. rewrite filter_fmap_stable.
  - f_equal. apply filter_comm.
  - intros n. by rewrite key_renormNote.
Qed.

Lemma filter_key_upsertInto (k : string * Z) (l : list Note) (new : Note) :
  path_resolve (filePath new) = filePath new → key new ≠ k →
  filter (λ n, key n = k) (NotesStorage.upsertInto l new)
  = filter (λ n, key n = k) l.
Proof.
  intros Hcanon Hk. unfold NotesStorage.upsertInto.
  destruct (list_find _ l) as [[i old]|] eqn:E.
  - apply list_find_Some in E as (Hi & Hm & _).
    apply (filter_insert_other _ _ _ old); [done| |done].
    apply matches_key in Hm. intros Ho. apply Hk. rewrite <- Ho, Hm.
    unfold key. by rewrite Hcanon.
  - rewrite filter_app, filter_cons, decide_False by done. cbn.
    by rewrite app_nil_r.
Qed.

(** X17.  An upsert and a delete for a path and a line leave the notes
    of every other path and line alone: on a disk that takes the write,
    the notes that match another canonical path or another line are the
    same, in the same order, before and after. *)
Theorem other_keys_untouched (w : World) (p : string) (l : Z) (t : string)
    (p' : string) (l' : Z) :
  DiskOk w → (path_resolve p', l') ≠ (path_resolve p, l) →
  ∃ d w0 w1 d1 b w2 d2,
    NotesStorage.loadNotes w = (Ok d, w0)
    ∧ NotesStorage.addOrUpdateNote p l t w = (Ok true, w1)
    ∧ NotesStorage.loadNotes w1 = (Ok d1, w1)
    ∧ filter (NotesStorage.matches (path_resolve p') l') (notes d1)
      = filter (NotesStorage.matches (path_resolve p') l') (notes d)
    ∧ NotesStorage.deleteNote p l w = (Ok b, w2)
    ∧ fst (NotesStorage.loadNotes w2) = Ok d2
    ∧ filter (NotesStorage.matches (path_resolve p') l') (notes d2)
      = filter (NotesStorage.matches (path_resolve p') l') (notes d).
Proof.
  intros HD Hother.
  set (loaded := notes (fst (loadOutcome w))).
  destruct (loadOutcome_after_upsert p l t w HD) as (w1 & Hup & Hload).
  fold loaded in Hload.
  assert (∀ ns : list Note,
            filter (NotesStorage.matches (path_resolve p') l') ns
            = filter (λ n, key n = (path_resolve p', l')) ns) as Hkey.
  { intros ns. apply list_filter_iff. intros n. apply matches_key. }
  pose proof (loaded_normal w) as Hnorm. fold loaded in Hnorm.
  assert (∀ k : string * Z, Forall normal (filter (λ n, key n = k) loaded))
    as Hsub.
  { intros k. apply Forall_forall. intros n [_ Hn]%list_elem_of_filter.
    rewrite Forall_forall in Hnorm. by apply Hnorm. }
  assert (filter (NotesStorage.matches (path_resolve p') l')
            (renorm (NotesStorage.upsertInto loaded (newNoteAt p l t (now w))))
          = filter (NotesStorage.matches (path_resolve p') l') loaded) as Hkeep.
  { rewrite !Hkey, filter_key_renorm, filter_key_upsertInto.
    - by apply renorm_normal.
    - apply path_resolve_idem.
    - unfold key, newNoteAt. cbn. rewrite path_resolve_idem. congruence. }
  assert (filter (NotesStorage.matches (path_resolve p') l') (remaining p l loaded)
          = filter (NotesStorage.matches (path_resolve p') l') loaded) as Hkeep'.
  { unfold remaining. apply list_filter_filter_l.
    intros n Hm Hm'. apply Hother.
    apply matches_key in Hm. apply matches_key in Hm'. congruence. }
  exists (fst (loadOutcome w)), (snd (loadOutcome w)), w1.
  exists {| notes := renorm (NotesStorage.upsertInto loaded
                               (newNoteAt p l t (now w))) |}.
  rewrite deleteNote_spec. fold loaded.
  destruct (bool_decide (length (remaining p l loaded) = length loaded)) eqn:Hlen.
  - exists false, (snd (loadOutcome w)), (fst (loadOutcome w)).
    split; [apply loadNotes_spec|]. split; [exact Hup|].
    rewrite !loadNotes_spec, Hload. cbn [fst snd notes].
    split; [done|]. split; [exact Hkeep|].
    split; [done|]. split; [by rewrite loadOutcome_again|done].
  - exists true. eexists _, {| notes := remaining p l loaded |}.
    split; [apply loadNotes_spec|]. split; [exact Hup|].
    rewrite !loadNotes_spec, Hload. cbn [fst snd notes].
    split; [done|]. split; [exact Hkeep|]. split; [done|].
    rewrite (saveNotes_ok _ _ (DiskOk_loadOutcome w HD)). cbn [snd].
    rewrite loadOutcome_saved. cbn [fst notes]. split; [|exact Hkeep'].
    f_equal. f_equal. apply renorm_normal. apply Forall_forall.
    intros n [_ Hn]%list_elem_of_filter.
    rewrite Forall_forall in Hnorm. by apply Hnorm.
Qed.

(** X18.  [getNotesForFile] does not depend on how the path is spelled:
    it returns the same notes for a path and for its canonical form.
    Every note it returns carries the canonical form of the path, and
    it returns exactly the loaded notes that carry it. *)
Theorem getNotesForFile_canonical (w : World) (p : string) :
  ∃ ns w',
    NotesStorage.getNotesForFile p w = (Ok ns, w')
    ∧ NotesStorage.getNotesForFile (path_resolve p) w = (Ok ns, w')
    ∧ Forall (λ n, filePath n = path_resolve p) ns
    ∧ (∀ d w0, NotesStorage.loadNotes w = (Ok d, w0) →
         ∀ n, n ∈ ns ↔ n ∈ notes d ∧ filePath n = path_resolve p).
Proof.
  eexists _, _. rewrite !getNotesForFile_spec, path_resolve_idem.
  split; [done|]. split; [done|].
  pose proof (loaded_normal w) as Hnorm. rewrite Forall_forall in Hnorm.
  split.
  - apply Forall_forall. intros n [Hp Hn]%list_elem_of_filter.
    destruct (Hnorm n Hn) as (Hc & _). by rewrite <- Hc.
  - intros d w0. rewrite loadNotes_spec. intros [= <- _] n.
    rewrite list_elem_of_filter. split.
    + intros [Hp Hn]. split; [done|].
      destruct (Hnorm n Hn) as (Hc & _). by rewrite <- Hc.
    + intros [Hn Hp]. split; [|done].
      destruct (Hnorm n Hn) as (Hc & _). by rewrite Hc.
Qed.

(** X22.  On a disk that takes the write and has no notes file,
    [initializeNotesFile] makes one that holds the empty collection:
    [loadNotes] then returns the empty collection and changes
    nothing. *)
Theorem initializeNotesFile_creates (w : World) :
  DiskOk w → files w !! notesFilePath = None →
  ∃ w', NotesStorage.initializeNotesFile w = (Ok tt, w')
    ∧ files w'
      = <[notesFilePath := JSON_stringify (json_of_NotesData NotesStorage.emptyNotes)]>
          (files w)
    ∧ NotesStorage.loadNotes w' = (Ok NotesStorage.emptyNotes, w').
Proof.
  intros (Hrw & _ & Hfile & _) Hnone. eexists.
  rewrite initializeNotesFile_spec, Hnone, Hrw.
  rewrite (bool_decide_eq_false_2 (is_Some None)) by (by intros [? ?]).
  rewrite (bool_decide_eq_false_2 _ Hfile). cbn [orb].
  split; [done|]. split; [done|].
  rewrite loadNotes_spec.
  by rewrite (loadOutcome_holding NotesStorage.emptyNotes)
    by apply lookup_insert_eq.
Qed.

(** X29.  A text that the note editor posts is stored as it is.  What
    [saveNote] posts is the trimmed content of the text area, not empty
    and at most 1000 code units long; upserted at a line that is not
    negative, on a disk that takes the write, it is the text of the
    note that [loadNotes] then returns for the path and the line. *)
Theorem editor_text_is_stored (w : World) (p : string) (l : Z)
    (textareaValue posted : string) :
  DiskOk w → 0 ≤ l →
  WebviewManager.saveNote textareaValue = WebviewManager.PostSave posted →
  posted = Js.trim textareaValue
  ∧ 0 < Js.len posted ≤ DEFAULT_CONFIG.MAX_NOTE_LENGTH
  ∧ ∃ w1 d,
      NotesStorage.addOrUpdateNote p l posted w = (Ok true, w1)
      ∧ NotesStorage.loadNotes w1 = (Ok d, w1)
      ∧ {| filePath := path_resolve p; line := l; text := posted;
           timestamp := toISOString (now w) |} ∈ notes d.
Proof.
  intros HD Hl. unfold WebviewManager.saveNote. cbv zeta.
  destruct (Js.truthy (Js.trim textareaValue)) eqn:T; cbn [negb]; [|done].
  destruct (Z.ltb_spec DEFAULT_CONFIG.MAX_NOTE_LENGTH
              (Js.len (Js.trim textareaValue))) as [|Hfits]; [done|].
  intros [= <-]. split; [done|].
  split; [split; [by apply truthy_len|done]|].
  assert (Js.trim (Js.trim textareaValue) ≠ "") as Hne.
  { rewrite trim_idem. by destruct (Js.trim textareaValue). }
  destruct (loadOutcome_after_valid_upsert p l (Js.trim textareaValue) w HD Hl Hne)
    as (w1 & Hup & Hload).
  exists w1. eexists. split; [exact Hup|].
  rewrite loadNotes_spec, Hload. cbn [fst snd notes]. split; [done|].
  pose proof (upsertInto_elem (notes (fst (loadOutcome w)))
                (newNoteAt p l (Js.trim textareaValue) (now w))) as Hin.
  assert (newNoteAt p l (Js.trim textareaValue) (now w)
          = {| filePath := path_resolve p; line := l;
               text := Js.trim textareaValue;
               timestamp := toISOString (now w) |}) as <-.
  { unfold newNoteAt. by rewrite trim_idem. }
  exact Hin.
Qed.

End store_laws.

Section sorting.
Context `{Host} `{!CollationLaws}.

Lemma compareNotes_inOrder (a b : Note) :
  NotesStorage.compareNotes a b ≤ 0 ↔ inOrder a b.
Proof.
  unfold NotesStorage.compareNotes, inOrder.
  destruct (Z.eqb_spec (localeCompare (filePath a) (filePath b)) 0) as [->|Hne];
    cbn [negb]; lia.
Qed.

Lemma inOrder_total (a b : Note) : ¬ inOrder a b → inOrder b a.
Proof.
  unfold inOrder. intros Hab.
  pose proof (localeCompare_flip (filePath a) (filePath b)).
  pose proof (localeCompare_flip (filePath b) (filePath a)). lia.
Qed.

Lemma inOrder_trans (a b c : Note) : inOrder a b → inOrder b c → inOrder a c.
Proof.
  unfold inOrder. intros Hab Hbc.
  pose proof (localeCompare_flip (filePath a) (filePath b)).
  pose proof (localeCompare_flip (filePath b) (filePath a)).
  pose proof (localeCompare_flip (filePath b) (filePath c)).
  pose proof (localeCompare_flip (filePath c) (filePath b)).
  pose proof (localeCompare_flip (filePath a) (filePath c)).
  pose proof (localeCompare_flip (filePath c) (filePath a)).
  pose proof (localeCompare_trans (filePath a) (filePath b) (filePath c)).
  pose proof (localeCompare_trans (filePath c) (filePath a) (filePath b)).
  pose proof (localeCompare_trans (filePath b) (filePath c) (filePath a)).
  lia.
Qed.

Lemma insertBy_sorted (x : Note) (l : list Note) :
  StronglySorted inOrder l →
  StronglySorted inOrder (insertBy NotesStorage.compareNotes x l).
Proof.
  induction 1 as [|y ys Hys IH Hy]; cbn [insertBy].
  { repeat constructor. }
  destruct (Z.leb_spec (NotesStorage.compareNotes x y) 0) as [Hle|Hgt].
  - apply compareNotes_inOrder in Hle.
    constructor; [by constructor|]. constructor; [done|].
    eapply Forall_impl; [exact Hy|]. intros z Hz. by eapply inOrder_trans.
  - constructor; [done|].
    rewrite (insertBy_perm NotesStorage.compareNotes x ys).
    constructor; [|done]. apply inOrder_total.
    rewrite <- compareNotes_inOrder. lia.
Qed.

Lemma sortBy_sorted (l : list Note) :
  StronglySorted inOrder (sortBy NotesStorage.compareNotes l).
Proof.
  unfold sortBy. induction l as [|x l IH]; [constructor|].
  cbn. by apply insertBy_sorted.
Qed.

(** X19.  [getAllNotesSorted] returns the notes that [loadNotes]
    returns, each as often, and in order: every note stands before all
    the notes behind it, by file for the collation and, within a file,
    by line. *)
Theorem getAllNotesSorted_in_order (w : World) :
  ∃ d w0 sorted w',
    NotesStorage.loadNotes w = (Ok d, w0)
    ∧ NotesStorage.getAllNotesSorted w = (Ok sorted, w')
    ∧ sorted ≡ₚ notes d
    ∧ StronglySorted inOrder sorted.
Proof.
  eexists _, _, _, _. split; [apply loadNotes_spec|].
  split; [apply getAllNotesSorted_spec|].
  split; [apply sortBy_perm|apply sortBy_sorted].
Qed.

End sorting.


(** ** DecorationManager: where the decorations go *)

Section decorations.
Context `{Host}.

Lemma lineAt_lookup (editor : TextEditor) (l : Z) (w : World) :
  0 ≤ l < lineCount editor →
  ∃ lineText, docLines editor !! Z.to_nat l = Some lineText
              ∧ lineAt editor l w = (Ok lineText, w).
Proof.
  intros Hl. unfold lineAt. rewrite bool_decide_eq_true_2 by done.
  destruct (docLines editor !! Z.to_nat l) as [lineText|] eqn:E; [by eauto|].
  apply lookup_ge_None in E. unfold lineCount in Hl. lia.
Qed.

Lemma createDecorations_decorates (ns : list Note) (editor : TextEditor) (w : World) :
  Forall (λ n, 0 ≤ line n ∧ line n < lineCount editor) ns →
  ∃ decorations,
    DecorationManager.createDecorations ns editor w = (Ok decorations, w)
    ∧ Forall2 (decorates editor) ns decorations.
Proof.
  unfold DecorationManager.createDecorations.
  induction 1 as [|n ns Hn Hns (ds & IH & Hds)]; [by exists []|].
  destruct (lineAt_lookup editor (line n) w) as (lineText & Hlook & Hat); [lia|].
  eexists. cbn [mapM]. unfold bind at 1. unfold bind at 1. rewrite Hat.
  unfold ret at 1. unfold bind at 1. rewrite IH. unfold ret.
  split; [done|]. constructor; [|done].
  split; [done|]. split; [|done]. by exists lineText.
Qed.

Lemma updateDecorationsForEditor_sets (editor : TextEditor) (filePath_ : string)
    (w : World) :
  ∃ decorations,
    DecorationManager.updateDecorationsForEditor editor filePath_ w
    = (Ok (Some decorations), snd (loadOutcome w))
    ∧ Forall2 (decorates editor)
        (DecorationManager.filterValidNotes
           (filter (λ note, path_resolve (filePath note) = path_resolve filePath_)
              (notes (fst (loadOutcome w)))) editor)
        decorations.
Proof.
  set (stored := filter _ _).
  destruct (createDecorations_decorates
              (DecorationManager.filterValidNotes stored editor) editor
              (snd (loadOutcome w))) as (ds & Hds & Hall).
  { apply Forall_forall. by intros n [? _]%list_elem_of_filter. }
  exists ds. split; [|done].
  unfold DecorationManager.updateDecorationsForEditor, try_catch.
  unfold bind at 1. rewrite getNotesForFile_spec. fold stored.
  unfold bind. by rewrite Hds.
Qed.

(** X23.  [updateDecorationsForEditor] sets one decoration for each note
    that [getNotesForFile] returns for the path and whose line is a
    line of the document, in the order of the notes, and none for the
    others.  Each one is the empty range at the end of the line of its
    note and carries the hover of the note.  The call does not throw,
    and changes the world as the read does. *)
Theorem decorations_at_line_ends (w : World) (editor : TextEditor)
    (filePath_ : string) :
  ∃ stored decorations w',
    NotesStorage.getNotesForFile filePath_ w = (Ok stored, w')
    ∧ DecorationManager.updateDecorationsForEditor editor filePath_ w
      = (Ok (Some decorations), w')
    ∧ Forall2 (decorates editor)
        (DecorationManager.filterValidNotes stored editor) decorations
    ∧ length decorations
      = length (filter (λ n, 0 ≤ line n < lineCount editor) stored).
Proof.
  destruct (updateDecorationsForEditor_sets editor filePath_ w) as (ds & Hset & Hall).
  eexists _, ds, _. split; [apply getNotesForFile_spec|].
  split; [exact Hset|]. split; [exact Hall|].
  apply Forall2_length in Hall. rewrite <- Hall.
  unfold DecorationManager.filterValidNotes. f_equal.
Qed.

Lemma forEditor_calls (editor : TextEditor) (w : World) :
  ∃ decorations,
    (let* set := DecorationManager.updateDecorationsForEditor editor (fsPath editor) in
     ret (DecorationManager.setDecorationsCalls editor set)) w
    = (Ok [(editor, decorations)], snd (loadOutcome w)).
Proof.
  destruct (updateDecorationsForEditor_sets editor (fsPath editor) w)
    as (ds & Hset & _).
  exists ds. unfold bind. by rewrite Hset.
Qed.

Lemma allEditors_calls (editors : list TextEditor) (w : World) :
  ∃ calls w',
    mapM (λ editor,
            let* set := DecorationManager.updateDecorationsForEditor editor
                          (fsPath editor) in
            ret (DecorationManager.setDecorationsCalls editor set)) editors w
    = (Ok calls, w')
    ∧ fst <$> concat calls = editors.
Proof.
  revert w. induction editors as [|editor editors IH]; intros w.
  { by exists [], w. }
  destruct (forEditor_calls editor w) as (ds & Hone).
  destruct (IH (snd (loadOutcome w))) as (calls & w' & Hrest & Hfst).
  eexists _, w'. cbn [mapM]. unfold bind at 1. rewrite Hone.
  unfold bind at 1. rewrite Hrest. unfold ret. split; [done|].
  cbn. by rewrite Hfst.
Qed.

(** X24.  [updateDecorationsForAllEditors] sets the decorations of each
    visible editor once, in their order, each for its own file.
    [updateDecorations] sets those of the active editor alone: with a
    target path that is not empty, only when the active editor shows
    that very path, compared as text; with no target or an empty one,
    always; and with no active editor it does nothing.  Neither
    throws. *)
Theorem updateDecorations_targets (window : Window) (targetFilePath : option string)
    (w : World) :
  (∃ calls w',
     DecorationManager.updateDecorationsForAllEditors window w = (Ok calls, w')
     ∧ fst <$> calls = visibleTextEditors window)
  ∧ (∃ calls w',
       DecorationManager.updateDecorations window targetFilePath w = (Ok calls, w')
       ∧ fst <$> calls
         = match activeTextEditor window, targetFilePath with
           | Some editor, Some (String c target) =>
               if bool_decide (fsPath editor = String c target)
               then [editor] else []
           | Some editor, _ => [editor]
           | None, _ => []
           end).
Proof.
  split.
  - unfold DecorationManager.updateDecorationsForAllEditors. cbv zeta.
    destruct (allEditors_calls (visibleTextEditors window) w)
      as (calls & w' & Hall & Hfst).
    exists (concat calls), w'. by rewrite (bind_ok _ _ _ _ _ Hall).
  - assert (∃ calls w',
              DecorationManager.updateDecorationsForActiveEditor window w
              = (Ok calls, w')
              ∧ fst <$> calls
                = match activeTextEditor window with
                  | Some editor => [editor] | None => []
                  end) as Hactive.
    { unfold DecorationManager.updateDecorationsForActiveEditor. cbv zeta.
      destruct (activeTextEditor window) as [editor|]; [|by eexists _, _].
      destruct (forEditor_calls editor w) as (ds & Hone).
      eexists _, _. by rewrite Hone. }
    unfold DecorationManager.updateDecorations.
    destruct targetFilePath as [[|c target]|]; cbn [Js.truthy].
    + destruct Hactive as (calls & w' & ? & ?). exists calls, w'.
      split; [done|]. by destruct (activeTextEditor window).
    + unfold DecorationManager.updateDecorationsForFile.
      destruct (activeTextEditor window) as [editor|]; [|by eexists _, _].
      destruct (decide (fsPath editor = String c target)) as [Heq|Hne].
      * rewrite (bool_decide_eq_false_2 (fsPath editor ≠ _)) by (by intros ?).
        rewrite (bool_decide_eq_true_2 (fsPath editor = _)) by done.
        destruct (updateDecorationsForEditor_sets editor (String c target) w)
          as (ds & Hset & _).
        eexists _, _. unfold bind. by rewrite Hset.
      * rewrite (bool_decide_eq_true_2 (fsPath editor ≠ _)) by done.
        rewrite (bool_decide_eq_false_2 (fsPath editor = _)) by done.
        by eexists _, _.
    + destruct Hactive as (calls & w' & ? & ?). exists calls, w'.
      split; [done|]. by destruct (activeTextEditor window).
Qed.

End decorations.

(** ** ClickHandler: which clicks resolve *)

Section clicks_more.
Context `{Host}.

Lemma find_line_exists (rp : string) (l : Z) (loaded : list Note) :
  is_Some (list_find (λ n, line n = l)
             (filter (λ note, path_resolve (filePath note) = rp) loaded))
  ↔ Exists (NotesStorage.matches rp l) loaded.
Proof.
  rewrite Exists_exists. split.
  - intros [[i n] Hfind]. apply list_find_Some in Hfind as (Hi & Hl & _).
    apply list_elem_of_lookup_2, list_elem_of_filter in Hi as [Hp Hn].
    exists n. by split.
  - intros (n & Hn & Hp & Hl).
    destruct (list_find (λ n, line n = l)
                (filter (λ note, path_resolve (filePath note) = rp) loaded))
      as [r|] eqn:E; [by eexists|].
    apply list_find_None in E. rewrite Forall_forall in E.
    exfalso. apply (E n); [|done]. by apply list_elem_of_filter.
Qed.

(** The calls of [onNoteClick] for a line of a file: one when the store
    has a note for that line, none otherwise. *)
Lemma calls_for_line (filePath_ : string) (l : Z) (w : World) :
  ∃ calls,
    (let* notes_ := NotesStorage.getNotesForFile filePath_ in
     match list_find (λ n, line n = l) notes_ with
     | Some _ => ret [(filePath_, l)]
     | None => ret []
     end) w = (Ok calls, snd (loadOutcome w))
    ∧ (calls = [(filePath_, l)] ∨ calls = [])
    ∧ (calls = [(filePath_, l)]
       ↔ fst (NotesStorage.noteExists filePath_ l w) = Ok true).
Proof.
  rewrite noteExists_spec. cbn [fst]. unfold bind.
  rewrite getNotesForFile_spec.
  pose proof (find_line_exists (path_resolve filePath_) l
                (notes (fst (loadOutcome w)))) as Hiff.
  destruct (list_find _ _) as [r|].
  - eexists. split; [done|]. split; [by left|]. split; [|done].
    intros _. do 2 f_equal. apply bool_decide_eq_true_2, Hiff. by eexists.
  - eexists. split; [done|]. split; [by right|]. split; [done|].
    intros [= Hex]. apply bool_decide_eq_true in Hex.
    apply Hiff in Hex as [? ?]. done.
Qed.

(** X25.  [handlePotentialNoteClick] calls [onNoteClick] at most once,
    for the file of the editor and the line of the click, and exactly
    when the line is a line of the document, the click is in the last
    ten columns of the line or behind it, and the store has a note for
    the file and the line.  It never throws. *)
Theorem handlePotentialNoteClick_resolves (editor : TextEditor) (l c : Z)
    (w : World) :
  ∃ calls w',
    ClickHandler.handlePotentialNoteClick editor l c w = (Ok calls, w')
    ∧ (calls = [(fsPath editor, l)] ∨ calls = [])
    ∧ (calls = [(fsPath editor, l)]
       ↔ ∃ lineText,
           0 ≤ l ∧ docLines editor !! Z.to_nat l = Some lineText
           ∧ Z.max 0 (Js.len lineText - 10) ≤ c
           ∧ fst (NotesStorage.noteExists (fsPath editor) l w) = Ok true).
Proof.
  unfold ClickHandler.handlePotentialNoteClick, try_catch, lineAt.
  case_bool_decide as Hin.
  2:{ exists [], w. unfold bind, throw, ret. split; [done|]. split; [by right|].
      split; [done|]. intros (lineText & Hl & Hlook & _). exfalso. apply Hin.
      split; [done|]. apply lookup_lt_Some in Hlook. unfold lineCount. lia. }
  destruct (docLines editor !! Z.to_nat l) as [lineText|] eqn:Hlook.
  2:{ exists [], w. unfold bind, throw, ret. split; [done|]. split; [by right|].
      split; [done|]. by intros (lineText & _ & ? & _). }
  unfold bind at 1. unfold ret at 1.
  case_bool_decide as Hnear.
  2:{ exists [], w. unfold ret. split; [done|]. split; [by right|].
      split; [done|]. intros (lineText' & _ & [= <-] & Hc & _). done. }
  destruct (calls_for_line (fsPath editor) l w) as (calls & Hcalls & Hshape & Hiff).
  exists calls, (snd (loadOutcome w)). cbv zeta. rewrite Hcalls.
  split; [done|]. split; [done|]. rewrite Hiff. split.
  - intros Hex. exists lineText. split; [lia|]. done.
  - by intros (_ & _ & _ & _ & Hex).
Qed.

(** X26.  The click command does nothing without an active editor.
    With one, it takes the line of its argument or else the line of the
    cursor, and calls [onNoteClick] once for the file of the editor and
    that line exactly when the store has a note there: the column plays
    no part, and the line need not be a line of the document. *)
Theorem clickCommand_resolves (editor : TextEditor) (cursorLine : Z)
    (argsLine : option Z) (w : World) :
  let l := default cursorLine argsLine in
  ClickHandler.clickCommand None argsLine w = (Ok [], w)
  ∧ ∃ calls w',
      ClickHandler.clickCommand (Some (editor, cursorLine)) argsLine w
      = (Ok calls, w')
      ∧ (calls = [(fsPath editor, l)] ∨ calls = [])
      ∧ (calls = [(fsPath editor, l)]
         ↔ fst (NotesStorage.noteExists (fsPath editor) l w) = Ok true).
Proof.
  intros l. split; [done|].
  destruct (calls_for_line (fsPath editor) l w) as (calls & Hcalls & Hshape & Hiff).
  exists calls, (snd (loadOutcome w)). split; [|done].
  unfold ClickHandler.clickCommand. cbv zeta.
  assert (match argsLine with Some argLine => argLine | None => cursorLine end = l)
    as -> by by destruct argsLine.
  exact Hcalls.
Qed.

Lemma run_app (a b : list ClickHandler.Action) (st : ClickHandler.State) (w : World)
    (calls : list (string * Z)) (st1 : ClickHandler.State) (w1 : World) :
  ClickHandler.run a st w = (Ok (calls, st1), w1) →
  ClickHandler.run (a ++ b) st w
  = (let* r := ClickHandler.run b st1 in ret (calls ++ fst r, snd r)) w1.
Proof.
  revert st w calls st1 w1. induction a as [|x a IH]; intros st w calls st1 w1.
  - cbn. intros [= <- <- <-]. unfold bind, ret.
    by destruct (ClickHandler.run b st w) as [[[? ?]|?] ?].
  - cbn [app ClickHandler.run]. unfold bind at 1 3.
    destruct (ClickHandler.step x st w) as [[[c1 s1]|e] w2]; [|done].
    cbn [snd fst]. unfold bind at 1 3.
    destruct (ClickHandler.run a s1 w2) as [[[c2 s2]|e] w3] eqn:Ha; [|done].
    unfold ret at 1 3. cbn [fst snd]. intros [= <- <- <-].
    unfold bind at 1. rewrite (IH _ _ _ _ _ Ha). unfold bind, ret.
    destruct (ClickHandler.run b s2 w3) as [[[c3 s3]|e] w4]; [|done].
    cbn [fst snd]. by rewrite app_assoc.
Qed.

Lemma run_selections (events : list ClickHandler.SelectionChangeEvent)
    (st : ClickHandler.State) (w : World) :
  ClickHandler.run (ClickHandler.SelectionChanged <$> events) st w
  = (Ok ([], foldl (λ s e, ClickHandler.selectionHandler e s) st events), w).
Proof.
  revert st. induction events as [|e events IH]; intros st; [done|].
  rewrite fmap_cons. cbn [ClickHandler.run ClickHandler.step].
  unfold bind at 1. unfold ret at 1. cbn [snd fst]. unfold bind.
  by rewrite IH.
Qed.

Lemma selectionHandler_position (event : ClickHandler.SelectionChangeEvent)
    (st : ClickHandler.State) :
  ClickHandler.lastClickPosition (ClickHandler.selectionHandler event st)
  = ClickHandler.lastClickPosition st
  ∨ ClickHandler.lastClickPosition (ClickHandler.selectionHandler event st)
    = Some (position event).
Proof.
  unfold ClickHandler.selectionHandler.
  destruct (ClickHandler.textEditor event); [|by left].
  destruct (negb _ || negb _); [by left|].
  destruct (ClickHandler.isSamePosition st _ _); [by left|by right].
Qed.

Lemma foldl_selectionHandler_position
    (events : list ClickHandler.SelectionChangeEvent) (st : ClickHandler.State)
    (pos : Z * Z) :
  ClickHandler.lastClickPosition st ≠ Some pos →
  Forall (λ e, position e ≠ pos) events →
  ClickHandler.lastClickPosition
    (foldl (λ s e, ClickHandler.selectionHandler e s) st events) ≠ Some pos.
Proof.
  intros Hst Hall. revert st Hst.
  induction Hall as [|e events He Hall IH]; intros st Hst; [done|].
  cbn. apply IH.
  destruct (selectionHandler_position e st) as [->| ->]; [done|congruence].
Qed.

(** X27.  Of a burst of selection changes that is followed by one
    firing of the timer, only the last is resolved: when the last
    change qualifies as a click and no earlier one was at its position,
    the burst calls [onNoteClick] as [handlePotentialNoteClick] does
    for the editor and the position of the last change, and leaves no
    timer armed. *)
Theorem last_click_is_the_one_resolved (st : ClickHandler.State)
    (events : list ClickHandler.SelectionChangeEvent)
    (last : ClickHandler.SelectionChangeEvent) (editor : TextEditor) (w : World) :
  qualifies last → ClickHandler.textEditor last = Some editor →
  ClickHandler.lastClickPosition st ≠ Some (position last) →
  Forall (λ e, position e ≠ position last) events →
  ∃ calls w',
    ClickHandler.handlePotentialNoteClick editor
      (fst (position last)) (snd (position last)) w = (Ok calls, w')
    ∧ ClickHandler.run
        ((ClickHandler.SelectionChanged <$> events ++ [last])
         ++ [ClickHandler.TimerFired]) st w
      = (Ok (calls, {| ClickHandler.clickTimeout := None;
                       ClickHandler.lastClickPosition := Some (position last) |}),
         w').
Proof.
  intros Hq He Hst Hall.
  destruct (handlePotentialNoteClick_once editor (fst (position last))
              (snd (position last)) w) as (calls & w' & Hcalls & _).
  exists calls, w'. split; [exact Hcalls|].
  rewrite (run_app _ _ _ _ _ _ _ (run_selections _ _ _)).
  rewrite foldl_app. cbn [foldl].
  set (st1 := foldl _ st events).
  pose proof (foldl_selectionHandler_position events st (position last) Hst Hall)
    as Hst1. fold st1 in Hst1.
  pose proof (selectionHandler_arms last st1 editor Hq He Hst1) as Harm.
  pose proof (selectionHandler_records last st1 Hq) as Hrec.
  cbn [ClickHandler.run ClickHandler.step]. unfold ClickHandler.timerFires.
  rewrite Harm. cbn [ClickHandler.capturedEditor ClickHandler.capturedLine
                     ClickHandler.capturedCharacter].
  unfold bind, ret. rewrite Hcalls. cbn [fst snd]. rewrite Hrec.
  by rewrite app_nil_r.
Qed.

End clicks_more.

(** ** WebviewManager: the list of all notes *)

Lemma groupsOf_snoc (l : list Note) (note : Note) (path : string) :
  groupsOf (l ++ [note]) path
  = if bool_decide (filePath note = path)
    then Some (default [] (groupsOf l path) ++ [note])
    else groupsOf l path.
Proof.
  unfold groupsOf. rewrite filter_app, filter_cons.
  destruct (decide (filePath note = path)) as [Hp|Hp].
  - rewrite (bool_decide_eq_true_2 _ Hp).
    destruct (filter _ l) as [|x g]; [done|]. done.
  - rewrite (bool_decide_eq_false_2 _ Hp). cbn. by rewrite app_nil_r.
Qed.

Lemma groupNotesByFile_snoc (l : list Note) (note : Note) :
  WebviewManager.groupNotesByFile (l ++ [note])
  = match WebviewManager.groupNotesByFile l with
    | Ok groups => WebviewManager.groupStep groups note
    | Throw e => Throw e
    end.
Proof. unfold WebviewManager.groupNotesByFile. by rewrite foldl_app. Qed.

(** X28.  [groupNotesByFile] puts each note in the group of its path,
    as it is written: the group of a path holds the notes of that path
    in their order, and a path without a note has no group.  It throws,
    before any page is made, exactly when the path of a note is the
    name of a member that every object inherits, such as
    [constructor]. *)
Theorem groupNotesByFile_groups (notes_ : list Note) :
  match WebviewManager.groupNotesByFile notes_ with
  | Ok groups =>
      Forall (λ n, Js.inheritedText (filePath n) = None) notes_
      ∧ ∀ path, groups !! path = groupsOf notes_ path
  | Throw _ => Exists (λ n, Js.inheritedText (filePath n) ≠ None) notes_
  end.
Proof.
  induction notes_ as [|note l IH] using rev_ind.
  { split; [constructor|]. intros path. apply lookup_empty. }
  rewrite groupNotesByFile_snoc.
  destruct (WebviewManager.groupNotesByFile l) as [groups|e].
  2:{ apply Exists_app. by left. }
  destruct IH as [Hplain Hgroups]. unfold WebviewManager.groupStep.
  destruct (groups !! filePath note) as [group|] eqn:Hg.
  - assert (Js.inheritedText (filePath note) = None) as Hnote.
    { rewrite Hgroups in Hg. unfold groupsOf in Hg.
      destruct (filter _ l) as [|x g] eqn:E; [done|].
      assert (x ∈ filter (λ n, filePath n = filePath note) l)
        as [Hx Hin]%list_elem_of_filter by (rewrite E; by left).
      rewrite Forall_forall in Hplain. rewrite <- Hx. by apply Hplain. }
    split.
    + apply Forall_app. split; [done|]. by constructor.
    + intros path. rewrite groupsOf_snoc. case_bool_decide as Hp.
      * subst path. rewrite lookup_insert_eq. by rewrite <- Hgroups, Hg.
      * rewrite lookup_insert_ne by done. apply Hgroups.
  - destruct (Js.inheritedText (filePath note)) as [native|] eqn:Hn.
    + apply Exists_app. right. constructor. by rewrite Hn.
    + split.
      * apply Forall_app. split; [done|]. by constructor.
      * intros path. rewrite groupsOf_snoc. case_bool_decide as Hp.
        -- subst path. rewrite lookup_insert_eq. by rewrite <- Hgroups, Hg.
        -- rewrite lookup_insert_ne by done. apply Hgroups.
Qed.

(** ** NotesManager: the question before a delete *)

Lemma pretty_N_go_nonempty (x : N) (s : string) :
  s ≠ "" → pretty_N_go x s ≠ "".
Proof.
  revert s. induction (N.lt_wf_0 x) as [x _ IH]; intros s Hs.
  destruct (decide (x = 0%N)) as [->|Hx].
  - by rewrite pretty_N_go_0.
  - rewrite pretty_N_go_step by lia. apply IH; [|done].
    apply N.div_lt; lia.
Qed.

Lemma pretty_N_nonempty (x : N) : pretty x ≠ "".
Proof.
  unfold pretty, pretty_N. destruct (decide (x = 0%N)); [done|].
  rewrite pretty_N_go_step by lia. by apply pretty_N_go_nonempty.
Qed.

Lemma pretty_Z_truthy (z : Z) : Js.truthy (pretty z) = true.
Proof.
  destruct z as [|p|p]; [done| |done].
  unfold pretty, pretty_Z.
  pose proof (pretty_N_nonempty (Npos p)) as Hne.
  change (pretty p) with (pretty (Npos p)). by destruct (pretty (N.pos p)).
Qed.

Lemma truncateText_truthy (text_ : string) (maxLength : Z) :
  0 ≤ maxLength →
  Js.truthy (TextUtils.truncateText text_ maxLength) = Js.truthy text_.
Proof.
  intros Hmax. unfold TextUtils.truncateText.
  destruct (Z.leb_spec (Js.len text_) maxLength) as [|Hlong]; [done|].
  destruct text_ as [|c s]; [unfold Js.len in Hlong; cbn in Hlong; lia|].
  by destruct (Js.substring (String c s) 0 maxLength).
Qed.

Section confirm.
Context `{Platform}.

(** X30.  For a note whose line is a safe integer, the question that
    [deleteNote] asks names the file, the line counted from one and the
    preview of the text, between quotes and after an empty line.  A
    file name that is empty is replaced by [Fichier inconnu]; a note
    whose text is empty shows the placeholder [{text}] itself; and
    braces in the text or in the file name are shown as they are. *)
Theorem confirmMessage_text (note : Note) :
  Js.isSafeInteger (line note) = true →
  let base := path_basename (filePath note) in
  let fileName := if Js.truthy base then base else "Fichier inconnu" in
  let shownText := if Js.truthy (text note)
                   then TextUtils.truncateText_default (text note)
                   else "{text}" in
  NotesManager.confirmMessage note
  = "Supprimer la note de " +:+ fileName
    +:+ " (Ligne " +:+ pretty (line note + 1) +:+ ") ?"
    +:+ Js.lineFeed +:+ Js.lineFeed
    +:+ Js.quote +:+ shownText +:+ Js.quote.
Proof.
  intros _ base fileName shownText. unfold NotesManager.confirmMessage.
  fold base. fold fileName.
  set (variables := <["fileName":=Js.SStr fileName]> _).
  assert (UI_STRINGS.DELETE_CONFIRM
          = "Supprimer la note de " +:+ "{" +:+ "fileName" +:+ "}"
            +:+ (" (Ligne " +:+ "{" +:+ "line" +:+ "}"
                 +:+ ((") ?" +:+ Js.lineFeed +:+ Js.lineFeed +:+ Js.quote)
                      +:+ "{" +:+ "text" +:+ "}" +:+ Js.quote))) as ->
    by reflexivity.
  rewrite !formatString_at by done.
  assert (∀ s, occurs "{" s = false → TextUtils.formatString s variables = s)
    as Hplain by (intros s; apply scan_plain).
  rewrite !Hplain by reflexivity.
  assert (replacement variables "fileName" = fileName) as ->.
  { unfold replacement, Js.propertyText, variables. rewrite lookup_insert_eq.
    cbn [Js.Scalar_toString]. unfold fileName.
    destruct (Js.truthy base) eqn:T; [|done]. by destruct base. }
  assert (replacement variables "line" = pretty (line note + 1)) as ->.
  { unfold replacement, Js.propertyText, variables.
    rewrite lookup_insert_ne, lookup_insert_eq by done.
    cbn [Js.Scalar_toString]. pose proof (pretty_Z_truthy (line note + 1)).
    by destruct (pretty (line note + 1)). }
  assert (replacement variables "text" = shownText) as ->.
  { unfold replacement, Js.propertyText, variables.
    rewrite !lookup_insert_ne, lookup_insert_eq by done.
    cbn [Js.Scalar_toString]. unfold shownText, TextUtils.truncateText_default.
    rewrite <- (truncateText_truthy (text note) DEFAULT_CONFIG.TRUNCATE_PREVIEW_LENGTH)
      by done.
    by destruct (TextUtils.truncateText _ _). }
  by rewrite !append_assoc.
Qed.

End confirm.


(* ================================================================== *)
(** * Part VII. The further properties on the sample host *)
(* ================================================================== *)

(** ** The collation of the sample host obeys its laws *)

Module SampleCollation.

Lemma compare_flip (a b : string) : Sample.compare a b < 0 ↔ 0 < Sample.compare b a.
Proof.
  unfold Sample.compare. rewrite (String.compare_antisym b a).
  destruct (String.compare a b); cbn; lia.
Qed.

Lemma compare_le (a b : string) :
  Sample.compare a b ≤ 0 ↔ a = b ∨ String_as_OT.lt a b.
Proof.
  unfold Sample.compare, String_as_OT.lt.
  change String_as_OT.compare with String.compare.
  destruct (String.compare a b) eqn:E.
  - apply String.compare_eq_iff in E. split; [by left|lia].
  - split; [by right|lia].
  - split; [lia|]. intros [->|?]; [|done].
    assert (String.compare b b = Eq) as Hbb.
    { pose proof (String.compare_antisym b b) as Ha.
      destruct (String.compare b b); done. }
    congruence.
Qed.

Lemma compare_trans (a b c : string) :
  Sample.compare a b ≤ 0 → Sample.compare b c ≤ 0 → Sample.compare a c ≤ 0.
Proof.
  rewrite !compare_le. intros [->|Hab] [->|Hbc]; auto.
  right. by etransitivity.
Qed.

#[global] Instance collation_laws : CollationLaws.
Proof.
  split.
  - apply compare_flip.
  - apply compare_trans.
Qed.

End SampleCollation.

(** ** The witnesses *)

(** Witness of X9: the notes file holds [oops]; it is loaded at time 5
    and at time 6. *)
Lemma backups_of_different_times_are_kept_witness :
  let w1 := snd (NotesStorage.loadNotes (tick 5 (Sample.diskWith "oops" 0))) in
  let w2 := snd (NotesStorage.loadNotes (tick 6 w1)) in
  FileUtils.backupPath notesFilePath 5 ≠ FileUtils.backupPath notesFilePath 6
  ∧ files w2 !! FileUtils.backupPath notesFilePath 5 = Some "oops"
  ∧ files w2 !! FileUtils.backupPath notesFilePath 6 = Some "oops"
  ∧ files w2 !! notesFilePath = Some "oops"
  ∧ (∀ q, q ≠ FileUtils.backupPath notesFilePath 5 →
          q ≠ FileUtils.backupPath notesFilePath 6 →
          files w2 !! q = files (Sample.diskWith "oops" 0) !! q).
Proof.
  apply (backups_of_different_times_are_kept (Sample.diskWith "oops" 0) "oops" 5 6).
  - reflexivity.
  - split; [done|]. left. reflexivity.
  - reflexivity.
  - by_computing.
  - by_computing.
  - lia.
Defined.

(** Witness of X13: the note of line 4 is saved on the empty disk and
    read back. *)
Lemma saveNotes_then_loadNotes_witness :
  let d := {| notes := [ mkNote "/work/a.ts" 4 "fix this" "5" ] |} in
  ∃ w', NotesStorage.saveNotes d (Sample.emptyDisk 5) = (Ok tt, w')
        ∧ NotesStorage.loadNotes w' = (Ok d, w').
Proof.
  intros d.
  destruct (saveNotes_then_loadNotes (Sample.emptyDisk 5) d (emptyDisk_ok 5))
    as (w' & Hsave & _ & Hnormal & _).
  exists w'. split; [exact Hsave|]. apply Hnormal.
  apply Forall_cons_2; [|apply Forall_nil_2].
  split; [reflexivity|]. split; [reflexivity|]. split; [cbn; lia|reflexivity].
Defined.

(** Witness of X14: the note [(./a.ts, 4, "  fix this  ")] is added at
    time 5 and found. *)
Lemma upsert_then_found_witness :
  ∃ w1 ns,
    NotesStorage.addOrUpdateNote "./a.ts" 4 "  fix this  " (Sample.emptyDisk 5)
    = (Ok true, w1)
    ∧ NotesStorage.noteExists "./a.ts" 4 w1 = (Ok true, w1)
    ∧ NotesStorage.getNotesForFile "./a.ts" w1 = (Ok ns, w1)
    ∧ {| filePath := "/work/a.ts"; line := 4; text := "fix this";
         timestamp := "5" |} ∈ ns.
Proof.
  apply (upsert_then_found (Sample.emptyDisk 5) "./a.ts" 4 "  fix this  "
           (emptyDisk_ok 5)); [lia|discriminate].
Defined.

(** Witness of X15: the note of line 4 is deleted under another
    spelling of its path. *)
Lemma delete_then_absent_witness :
  ∃ b w1 w2 ns w3,
    NotesStorage.deleteNote "a.ts" 4 oneNote = (Ok b, w1)
    ∧ NotesStorage.noteExists "a.ts" 4 w1 = (Ok false, w2)
    ∧ NotesStorage.getNotesForFile "a.ts" w1 = (Ok ns, w3)
    ∧ Forall (λ n, line n ≠ 4) ns.
Proof. apply (delete_then_absent oneNote "a.ts" 4 oneNote_ok). Defined.

(** Witness of X16: a blank text is upserted on the note of line 4. *)
Lemma upsert_blank_removes_witness :
  ∃ d w0 w1,
    NotesStorage.loadNotes oneNote = (Ok d, w0)
    ∧ NotesStorage.addOrUpdateNote "./a.ts" 4 "   " oneNote = (Ok true, w1)
    ∧ NotesStorage.loadNotes w1
      = (Ok {| notes := filter (λ n, ¬ NotesStorage.matches
                                       (path_resolve "./a.ts") 4 n)
                          (notes d) |}, w1)
    ∧ NotesStorage.noteExists "./a.ts" 4 w1 = (Ok false, w1).
Proof.
  apply (upsert_blank_removes oneNote "./a.ts" 4 "   " oneNote_ok oneNote_unique).
  right. reflexivity.
Defined.

(** Witness of X17: a note is added for [b.ts] and deleted again, and
    the note of [a.ts] is looked at. *)
Lemma other_keys_untouched_witness :
  ∃ d w0 w1 d1 b w2 d2,
    NotesStorage.loadNotes oneNote = (Ok d, w0)
    ∧ NotesStorage.addOrUpdateNote "./b.ts" 1 "other" oneNote = (Ok true, w1)
    ∧ NotesStorage.loadNotes w1 = (Ok d1, w1)
    ∧ filter (NotesStorage.matches (path_resolve "./a.ts") 4) (notes d1)
      = filter (NotesStorage.matches (path_resolve "./a.ts") 4) (notes d)
    ∧ NotesStorage.deleteNote "./b.ts" 1 oneNote = (Ok b, w2)
    ∧ fst (NotesStorage.loadNotes w2) = Ok d2
    ∧ filter (NotesStorage.matches (path_resolve "./a.ts") 4) (notes d2)
      = filter (NotesStorage.matches (path_resolve "./a.ts") 4) (notes d).
Proof.
  apply (other_keys_untouched oneNote "./b.ts" 1 "other" "./a.ts" 4 oneNote_ok).
  vm_compute. discriminate.
Defined.

(** Witness of X18: the notes of [./a.ts] and of [/work/a.ts]. *)
Lemma getNotesForFile_canonical_witness :
  ∃ ns w',
    NotesStorage.getNotesForFile "./a.ts" oneNote = (Ok ns, w')
    ∧ NotesStorage.getNotesForFile "/work/a.ts" oneNote = (Ok ns, w')
    ∧ Forall (λ n, filePath n = "/work/a.ts") ns
    ∧ (∀ d w0, NotesStorage.loadNotes oneNote = (Ok d, w0) →
         ∀ n, n ∈ ns ↔ n ∈ notes d ∧ filePath n = "/work/a.ts").
Proof. exact (getNotesForFile_canonical oneNote "./a.ts"). Defined.

(** Witness of X19: the list of all notes after a note for [b.ts] was
    added behind the note of [a.ts]. *)
Lemma getAllNotesSorted_in_order_witness :
  let w := snd (NotesStorage.addOrUpdateNote "./b.ts" 1 "other" oneNote) in
  ∃ d w0 sorted w',
    NotesStorage.loadNotes w = (Ok d, w0)
    ∧ NotesStorage.getAllNotesSorted w = (Ok sorted, w')
    ∧ sorted ≡ₚ notes d
    ∧ StronglySorted inOrder sorted.
Proof. intros w. apply (getAllNotesSorted_in_order w). Defined.

(** Witness of X20: the note of line 4 is deleted on the read-only
    disk. *)
Lemma deleteNote_true_though_not_saved_witness :
  ∃ w', NotesStorage.deleteNote "./a.ts" 4 oneNoteReadonly = (Ok true, w')
    ∧ files w' = files oneNoteReadonly
    ∧ ErrorMessage (UI_STRINGS.SAVE_ERROR +:+ ": " +:+ "Error: EROFS") ∈ shown w'
    ∧ fst (NotesStorage.noteExists "./a.ts" 4 w') = Ok true.
Proof.
  apply (deleteNote_true_though_not_saved oneNoteReadonly "./a.ts" 4).
  - reflexivity.
  - vm_compute. reflexivity.
Defined.

(** Witness of X22: the notes file is made on the empty disk. *)
Lemma initializeNotesFile_creates_witness :
  ∃ w', NotesStorage.initializeNotesFile (Sample.emptyDisk 5) = (Ok tt, w')
    ∧ files w'
      = <[notesFilePath := JSON_stringify (json_of_NotesData NotesStorage.emptyNotes)]>
          (files (Sample.emptyDisk 5))
    ∧ NotesStorage.loadNotes w' = (Ok NotesStorage.emptyNotes, w').
Proof.
  apply (initializeNotesFile_creates (Sample.emptyDisk 5) (emptyDisk_ok 5)).
  reflexivity.
Defined.

(** Witness of X27: a click at column 3 of line 4 and then one at
    column 15, before the timer fires. *)
Lemma last_click_is_the_one_resolved_witness :
  ∃ calls w',
    ClickHandler.handlePotentialNoteClick fiveLines 4 15 oneNote = (Ok calls, w')
    ∧ ClickHandler.run
        [ClickHandler.SelectionChanged (clickAt 4 3);
         ClickHandler.SelectionChanged (clickAt 4 15);
         ClickHandler.TimerFired] ClickHandler.initial oneNote
      = (Ok (calls, {| ClickHandler.clickTimeout := None;
                       ClickHandler.lastClickPosition := Some (4, 15) |}),
         w').
Proof.
  apply (last_click_is_the_one_resolved ClickHandler.initial [clickAt 4 3]
           (clickAt 4 15) fiveLines oneNote).
  - repeat split. by eexists.
  - reflexivity.
  - discriminate.
  - apply Forall_cons_2; [discriminate|apply Forall_nil_2].
Defined.

(** Witness of X29: the editor posts [fix this] for a text area that
    holds it between spaces. *)
Lemma editor_text_is_stored_witness :
  "fix this" = Js.trim "  fix this  "
  ∧ 0 < Js.len "fix this" ≤ DEFAULT_CONFIG.MAX_NOTE_LENGTH
  ∧ ∃ w1 d,
      NotesStorage.addOrUpdateNote "./a.ts" 4 "fix this" (Sample.emptyDisk 5)
      = (Ok true, w1)
      ∧ NotesStorage.loadNotes w1 = (Ok d, w1)
      ∧ {| filePath := "/work/a.ts"; line := 4; text := "fix this";
           timestamp := "5" |} ∈ notes d.
Proof.
  apply (editor_text_is_stored (Sample.emptyDisk 5) "./a.ts" 4 "  fix this  "
           "fix this" (emptyDisk_ok 5)); [lia|reflexivity].
Defined.

(** Witness of X30: the question for the note of line 4. *)
Lemma confirmMessage_text_witness :
  NotesManager.confirmMessage (mkNote "/work/a.ts" 4 "fix this" "5")
  = "Supprimer la note de a.ts (Ligne 5) ?"
    +:+ Js.lineFeed +:+ Js.lineFeed +:+ Js.quote +:+ "fix this" +:+ Js.quote.
Proof.
  exact (confirmMessage_text (mkNote "/work/a.ts" 4 "fix this" "5") eq_refl).
Defined.

(** ** The path of the notes file on the sample platform *)

Example getNotesFilePath_on_sample_disks :
  (let w := {| files := ∅; dirs := {["/home/dev"]}; readonly := false;
               now := 5; shown := [] |} in
   fst (FileUtils.getNotesFilePath w)
   = Ok "/home/dev/.vscode/extensions/Joey-Galligani.bubulle/bubulle-notes/.bubulle-notes.json")
  ∧ (let w := {| files := {[ "/home/dev/.vscode/extensions/Joey-Galligani.bubulle"
                             := "a regular file" ]};
                 dirs := {["/home/dev"]}; readonly := false;
                 now := 5; shown := [] |} in
     FileUtils.getNotesFilePath w = (Ok "/home/dev/.bubulle-notes.json", w)).
Proof. split; vm_compute; reflexivity. Qed.
